(** * Note Data Format (NDF): the parser and serializer of [ndf/parser.py]

    A shallow embedding of class [NoteDataFormat] and the properties of
    its [parse] and [dumps] methods.

    Python strings are lists of characters; a character is a code point
    below 256.  Dictionaries are association lists in insertion order,
    updated the way a Python [dict] is.  Integers are unbounded ([Z]).
    The built-ins [float()] and [str()] on floats are parameters of the
    development.

    The interpreter has two limits that the program can reach.  The depth
    of calls: [parse], [block_loop] and [_parse_array] are the methods
    with the recursion made structural by a budget, and say what the
    program computes when the depth is not exceeded; [parse_within] and
    the functions it calls count the frames and raise RecursionError as
    the interpreter does, and agree with the former on the texts that fit
    the frames.  The digits of an integer: [int_str] and [py_int] are
    [str()] and [int()] on integers of at most [max_str_digits] digits,
    and the round trips are stated for such integers ([small_ints]). *)

From Stdlib Require Import Ascii String ZArith Bool Arith Lia List.
From Stdlib Require Import DecimalString DecimalZ DecimalPos DecimalN.
Import ListNotations.
Open Scope list_scope.
Open Scope char_scope.
Open Scope nat_scope.

Set Warnings "-register-all".

(** ** Python strings *)

Definition str := list ascii.

(** A string literal as a Python string. *)
Definition L (s : string) : str := list_ascii_of_string s.

Definition dquote : ascii := "034".
Definition squote : ascii := "039".
Definition newline : ascii := "010".

Definition str_eqb (a b : str) : bool :=
  if list_eq_dec ascii_dec a b then true else false.

(** [value in (a, b, ...)] *)
Definition str_in (s : str) (l : list str) : bool := existsb (str_eqb s) l.

(** [str.isspace] on one character (code points below 256). *)
Definition isspace (c : ascii) : bool :=
  let n := nat_of_ascii c in
  ((9 <=? n) && (n <=? 13)) || ((28 <=? n) && (n <=? 32))
  || (n =? 133) || (n =? 160).

Fixpoint lstrip (s : str) : str :=
  match s with
  | [] => []
  | c :: s' => if isspace c then lstrip s' else s
  end.

Definition rstrip (s : str) : str := rev (lstrip (rev s)).

Definition strip (s : str) : str := rstrip (lstrip s).

(** Truth value of a string: non-empty. *)
Definition nonempty (s : str) : bool :=
  match s with [] => false | _ :: _ => true end.

(** [s.startswith(c)], [s.endswith(c)] and [c in s] for a one-character [c]. *)
Definition startswith (c : ascii) (s : str) : bool :=
  match s with [] => false | c' :: _ => Ascii.eqb c' c end.

Definition endswith (c : ascii) (s : str) : bool := startswith c (rev s).

Definition contains (c : ascii) (s : str) : bool := existsb (Ascii.eqb c) s.

(** [s[1:-1]] *)
Definition slice_1_m1 (s : str) : str := removelast (tl s).

(** [s[n:]] *)
Definition slice_from (n : nat) (s : str) : str := skipn n s.

(** [s.split(c)] for a one-character separator: never the empty list. *)
Fixpoint split (sep : ascii) (s : str) : list str :=
  match s with
  | [] => [[]]
  | c :: s' =>
      if Ascii.eqb c sep then [] :: split sep s'
      else match split sep s' with
           | [] => [[c]]
           | w :: ws => (c :: w) :: ws
           end
  end.

(** [s[:s.index(c)]], for [c] in [s]; the whole of [s] otherwise. *)
Fixpoint before (sep : ascii) (s : str) : str :=
  match s with
  | [] => []
  | c :: s' => if Ascii.eqb c sep then [] else c :: before sep s'
  end.

(** What follows the first [c] in [s]. *)
Fixpoint after (sep : ascii) (s : str) : str :=
  match s with
  | [] => []
  | c :: s' => if Ascii.eqb c sep then s' else after sep s'
  end.

(** [a, b = s.split(c, 1)]: the unpacking raises ValueError (here [None])
    when [c] does not occur in [s]. *)
Definition split_once (sep : ascii) (s : str) : option (str * str) :=
  if contains sep s then Some (before sep s, after sep s) else None.

(** [sep.join(l)] *)
Fixpoint join (sep : str) (l : list str) : str :=
  match l with
  | [] => []
  | [x] => x
  | x :: l' => x ++ sep ++ join sep l'
  end.

(** [s * n] *)
Fixpoint str_mul (s : str) (n : nat) : str :=
  match n with
  | 0 => []
  | S n' => s ++ str_mul s n'
  end.

(** [str.lower] on one character (code points below 256). *)
Definition lower_char (c : ascii) : ascii :=
  let n := nat_of_ascii c in
  if ((65 <=? n) && (n <=? 90))
     || ((192 <=? n) && (n <=? 222) && negb (n =? 215))
  then ascii_of_nat (n + 32) else c.

Definition lower (s : str) : str := map lower_char s.

(** [re.split(r'[,\s]+', s)]: the pieces between the maximal runs of
    commas and whitespace; a run at either end leaves an empty piece. *)
Definition is_sep (c : ascii) : bool := Ascii.eqb c "," || isspace c.

Fixpoint re_split_from (in_run : bool) (s : str) : list str :=
  match s with
  | [] => [[]]
  | c :: s' =>
      if is_sep c then
        if in_run then re_split_from true s' else [] :: re_split_from true s'
      else match re_split_from false s' with
           | [] => [[c]]
           | w :: ws => (c :: w) :: ws
           end
  end.

Definition re_split (s : str) : list str := re_split_from false s.

(** ** Integers as text *)

Definition is_digit (c : ascii) : bool :=
  let n := nat_of_ascii c in (48 <=? n) && (n <=? 57).

Definition digit_val (c : ascii) : Z := Z.of_nat (nat_of_ascii c - 48).

(** Digits with single underscores between them; [seen] tells that the
    previous character was a digit. *)
Fixpoint int_digits (s : str) (acc : Z) (seen : bool) : option Z :=
  match s with
  | [] => if seen then Some acc else None
  | c :: s' =>
      if is_digit c then int_digits s' (10 * acc + digit_val c)%Z true
      else if Ascii.eqb c "_" && seen then int_digits s' acc false
      else None
  end.

(** [int(s)]: [None] stands for ValueError. *)
Definition py_int (s : str) : option Z :=
  let s := strip s in
  if startswith "-" s then option_map Z.opp (int_digits (tl s) 0%Z false)
  else if startswith "+" s then int_digits (tl s) 0%Z false
  else int_digits s 0%Z false.

(** [str(z)] *)
Definition int_str (z : Z) : str := L (NilZero.string_of_int (Z.to_int z)).

(** ** Outcomes of a call *)

Inductive pyexn : Type := ValueError | RecursionError.

(** A call returns, raises, or exhausts the budget of the function that
    models it.  [OutOfFuel] is not a Python outcome: the budget of a loop
    is the number of iterations it is given, which the callers set large
    enough; the budget of [_parse_array] is the depth its calls may nest
    to, and to exhaust it is Python's RecursionError once the budget is
    the number of frames left (see [recursion_error] below). *)
Inductive outcome (A : Type) : Type :=
| Return (a : A)
| Raise (e : pyexn)
| OutOfFuel.

Arguments Return {A} a.
Arguments Raise {A} e.
Arguments OutOfFuel {A}.

Definition bind {A B : Type} (m : outcome A) (k : A -> outcome B) : outcome B :=
  match m with
  | Return a => k a
  | Raise e => Raise e
  | OutOfFuel => OutOfFuel
  end.

Notation "x <- m ;; k" := (bind m (fun x => k))
  (at level 61, m at next level, right associativity).
Notation "' p <- m ;; k" := (bind m (fun x => let p := x in k))
  (at level 61, p pattern, m at next level, right associativity).

Section NDF.

(** The host's floating-point numbers with [float(s)] ([None] stands for
    ValueError) and [str(f)]. *)
Variable float : Type.
Variable py_float : str -> option float.
Variable float_str : float -> str.

(** ** Values *)

Inductive Value : Type :=
| VNone
| VBool (b : bool)
| VInt (z : Z)
| VFloat (f : float)
| VStr (s : str)
| VList (l : list Value)
| VDict (d : list (str * Value)).

Definition dict := list (str * Value).

(** [d[k] = v]: an existing key keeps its place, a new key goes last. *)
Fixpoint dict_set (d : dict) (k : str) (v : Value) : dict :=
  match d with
  | [] => [(k, v)]
  | (k', v') :: d' =>
      if str_eqb k' k then (k', v) :: d' else (k', v') :: dict_set d' k v
  end.

Fixpoint dict_get (d : dict) (k : str) : option Value :=
  match d with
  | [] => None
  | (k', v') :: d' => if str_eqb k' k then Some v' else dict_get d' k
  end.

Definition keys (d : dict) : list str := map fst d.

(** ** Helper methods *)

Definition _get_indent (line : str) : nat :=
  length line - length (lstrip line).

Definition _remove_inline_comment (line : str) : str :=
  if contains "#" line then before "#" line else line.

Definition _split_key_value (line : str) : outcome (str * str) :=
  match split_once ":" line with
  | Some (key, value) => Return (strip key, strip value)
  | None => Raise ValueError
  end.

(** ** Parsing methods *)

Definition _parse_simple_value (value : str) : Value :=
  let value := strip value in
  if (startswith dquote value && endswith dquote value)
     || (startswith squote value && endswith squote value)
  then VStr (slice_1_m1 value)
  else if str_in (lower value) [L "yes"; L "true"] then VBool true
  else if str_in (lower value) [L "no"; L "false"] then VBool false
  else if str_in (lower value) [L "null"; L "none"; L "-"] then VNone
  else if contains "." value || contains "e" (lower value) then
    match py_float value with
    | Some f => VFloat f
    | None => VStr value
    end
  else
    match py_int value with
    | Some z => VInt z
    | None => VStr value
    end.

Fixpoint inline_pairs (pairs : list str) (result : dict) : outcome dict :=
  match pairs with
  | [] => Return result
  | pair_ :: rest =>
      if negb (contains ":" pair_) then inline_pairs rest result
      else
        match split_once ":" pair_ with
        | Some (key, value) =>
            inline_pairs rest
              (dict_set result (strip key) (_parse_simple_value (strip value)))
        | None => Raise ValueError
        end
  end.

Definition _parse_inline_object (text : str) : outcome dict :=
  let text := slice_1_m1 (strip text) in
  inline_pairs (split "," text) [].

(** [[item.strip() for item in items if item.strip()]] *)
Definition stripped_items (items : list str) : list str :=
  map strip (filter (fun item => nonempty (strip item)) items).

(** The character loop of [_parse_array], given the method itself for the
    nested arrays. *)
Fixpoint array_loop (parse_array : str -> outcome (list Value))
    (chars : str) (depth : Z) (item : str) (result : list Value)
    : outcome (list Value) :=
  match chars with
  | [] => Return result
  | char :: rest =>
      if Ascii.eqb char "[" then
        array_loop parse_array rest (depth + 1)%Z (item ++ [char]) result
      else if Ascii.eqb char "]" then
        array_loop parse_array rest (depth - 1)%Z (item ++ [char]) result
      else if Ascii.eqb char "," && (depth =? 0)%Z then
        if nonempty (strip item) then
          if startswith "[" (strip item) then
            a <- parse_array (strip item) ;;
            array_loop parse_array rest depth [] (result ++ [VList a])
          else
            array_loop parse_array rest depth []
              (result ++ [_parse_simple_value (strip item)])
        else array_loop parse_array rest depth [] result
      else array_loop parse_array rest depth (item ++ [char]) result
  end.

Fixpoint _parse_array (fuel : nat) (text : str) : outcome (list Value) :=
  match fuel with
  | 0 => OutOfFuel
  | S fuel' =>
      let text := slice_1_m1 (strip text) in
      if contains "[" text then
        array_loop (_parse_array fuel') (text ++ [","]) 0%Z [] []
      else
        Return (map _parse_simple_value (stripped_items (split "," text)))
  end.

Definition _parse_value (value : str) : outcome Value :=
  let value := strip value in
  if startswith "{" value && endswith "}" value then
    d <- _parse_inline_object value ;; Return (VDict d)
  else if startswith "[" value && endswith "]" value then
    a <- _parse_array (S (length value)) value ;; Return (VList a)
  else if contains "," value
          || (contains " " value && negb (startswith dquote value)) then
    Return (VList (map _parse_simple_value (stripped_items (re_split value))))
  else Return (_parse_simple_value value).

(** The loop of [_parse_multiline]; [n] bounds the lines left to visit. *)
Fixpoint multiline_loop (n : nat) (lines : list str) (i indent : nat)
    (text_lines : list str) : list str * nat :=
  match n with
  | 0 => (text_lines, i)
  | S n' =>
      if i <? length lines then
        let next_line := nth i lines [] in
        let next_indent := _get_indent next_line in
        if (next_indent <=? indent) && nonempty (strip next_line) then
          (text_lines, i)
        else
          multiline_loop n' lines (i + 1) indent
            (text_lines ++
               [if indent + 2 <? length next_line
                then slice_from (indent + 2) next_line else []])
      else (text_lines, i)
  end.

Definition _parse_multiline (lines : list str) (i indent : nat) : Value * nat :=
  let i := i + 1 in
  let '(text_lines, i) := multiline_loop (length lines - i) lines i indent [] in
  (VStr (rstrip (join [newline] text_lines)), i).

(** The loop of [_parse_nested]; [n] bounds the lines left to visit. *)
Fixpoint nested_loop (n : nat) (lines : list str) (nested_start indent : nat)
    (nested_lines : list str) : list str * nat :=
  match n with
  | 0 => (nested_lines, nested_start)
  | S n' =>
      if nested_start <? length lines then
        let next_line := nth nested_start lines [] in
        if negb (nonempty (strip next_line))
           || startswith "#" (strip next_line) then
          nested_loop n' lines (nested_start + 1) indent nested_lines
        else
          let next_indent := _get_indent next_line in
          if next_indent <=? indent then (nested_lines, nested_start)
          else
            nested_loop n' lines (nested_start + 1) indent
              (nested_lines ++ [next_line])
      else (nested_lines, nested_start)
  end.

(** [_parse_nested], given [_parse_block] for the collected lines. *)
Definition _parse_nested
    (parse_block : list str -> nat -> outcome (dict * nat))
    (lines : list str) (i indent : nat) : outcome (Value * nat) :=
  let nested_start := i + 1 in
  let '(nested_lines, nested_start) :=
    nested_loop (length lines - nested_start) lines nested_start indent [] in
  match nested_lines with
  | _ :: _ =>
      r <- parse_block nested_lines (indent + 2) ;;
      Return (VDict (fst r), nested_start)
  | [] => Return (VNone, i + 1)
  end.

(** The [while] loop of [_parse_block], from cursor [i] with the entries
    read so far; every iteration and every nested block uses up one unit
    of [fuel]. *)
Fixpoint block_loop (fuel : nat) (lines : list str) (start_indent i : nat)
    (result : dict) {struct fuel} : outcome (dict * nat) :=
  match fuel with
  | 0 => OutOfFuel
  | S fuel' =>
      if i <? length lines then
        let line := nth i lines [] in
        (* Skip empty lines and comments *)
        if negb (nonempty (strip line)) || startswith "#" (strip line) then
          block_loop fuel' lines start_indent (i + 1) result
        else
          let indent := _get_indent line in
          (* Dedented - done with this block *)
          if indent <? start_indent then Return (result, i)
          (* Skip lines not at our level *)
          else if start_indent <? indent then
            block_loop fuel' lines start_indent (i + 1) result
          else
            (* Clean line *)
            let line := strip (_remove_inline_comment line) in
            (* Parse key-value pair *)
            if negb (contains ":" line) then
              block_loop fuel' lines start_indent (i + 1) result
            else
              '(key, value) <- _split_key_value line ;;
              (* Multi-line text *)
              if str_eqb value (L "|") then
                let '(v, i) := _parse_multiline lines i indent in
                block_loop fuel' lines start_indent i (dict_set result key v)
              (* Nested object *)
              else if negb (nonempty value) then
                '(v, i) <- _parse_nested
                             (fun ls n => block_loop fuel' ls n 0 [])
                             lines i indent ;;
                block_loop fuel' lines start_indent i (dict_set result key v)
              else
                (* Parse value *)
                v <- _parse_value value ;;
                block_loop fuel' lines start_indent (i + 1)
                  (dict_set result key v)
      else Return (result, i)
  end.

Definition _parse_block (fuel : nat) (lines : list str) (start_indent : nat)
    : outcome (dict * nat) :=
  block_loop fuel lines start_indent 0 [].

(** What the block loop assigns to the key of the line at cursor [i],
    whose value text is [value], and the cursor it moves to: the steps
    "Multi-line text", "Nested object" and "Parse value" of the loop. *)
Definition line_value (fuel : nat) (lines : list str) (i indent : nat)
    (value : str) : outcome (Value * nat) :=
  if str_eqb value (L "|") then Return (_parse_multiline lines i indent)
  else if negb (nonempty value) then
    _parse_nested (fun ls n => block_loop fuel ls n 0 []) lines i indent
  else
    v <- _parse_value value ;; Return (v, i + 1).

(** ** Values as text *)

Definition hex_digit (n : nat) : ascii :=
  nth n (L "0123456789abcdef") "0".

(** [repr(s)] of a string, character by character with the chosen quote. *)
Definition repr_char (quote c : ascii) : str :=
  let n := nat_of_ascii c in
  if Ascii.eqb c quote || Ascii.eqb c "\" then ["\"; c]
  else if n =? 9 then L "\t"
  else if n =? 10 then L "\n"
  else if n =? 13 then L "\r"
  else if (n <? 32) || (n =? 127) || ((128 <=? n) && (n <=? 160)) || (n =? 173)
  then L "\x" ++ [hex_digit (n / 16); hex_digit (n mod 16)]
  else [c].

Definition repr_str (s : str) : str :=
  let quote :=
    if contains squote s && negb (contains dquote s) then dquote else squote in
  [quote] ++ flat_map (repr_char quote) s ++ [quote].

(** [repr(v)] *)
Fixpoint py_repr (v : Value) : str :=
  match v with
  | VNone => L "None"
  | VBool true => L "True"
  | VBool false => L "False"
  | VInt z => int_str z
  | VFloat f => float_str f
  | VStr s => repr_str s
  | VList l => L "[" ++ join (L ", ") (map py_repr l) ++ L "]"
  | VDict d =>
      L "{" ++
      join (L ", ") (map (fun kv => repr_str (fst kv) ++ L ": " ++ py_repr (snd kv)) d)
      ++ L "}"
  end.

(** [str(v)], which is what an f-string puts for [{v}]. *)
Definition py_str (v : Value) : str :=
  match v with
  | VStr s => s
  | _ => py_repr v
  end.

(** ** Formatting methods *)

(** [isinstance(x, (int, float, str, bool))] *)
Definition is_scalar (x : Value) : bool :=
  match x with
  | VBool _ | VInt _ | VFloat _ | VStr _ => true
  | _ => false
  end.

(** [_format_list], given [dumps] for the items that are dictionaries. *)
Definition _format_list (dumps_item : Value -> nat -> str)
    (key : str) (value : list Value) (indent_str : str) : str :=
  if forallb is_scalar value then
    (* Simple list *)
    indent_str ++ key ++ L ": " ++ join (L ", ") (map py_str value)
  else
    (* Complex list *)
    join [newline]
      ((indent_str ++ key ++ L ":") ::
       map (fun item =>
              match item with
              | VDict _ => dumps_item item (length indent_str / 2 + 1)
              | _ => indent_str ++ L "  - " ++ py_str item
              end) value).

Definition _format_multiline (key : str) (value : str) (indent_str : str) : str :=
  join [newline]
    ((indent_str ++ key ++ L ": |") ::
     map (fun line => indent_str ++ L "  " ++ line) (split newline value)).

(** [dumps] on a value that is a dictionary; [items] is the [for] loop
    and gives what it appends to [lines]. *)
Fixpoint dumps_value (data : Value) (indent : nat) {struct data} : str :=
  match data with
  | VDict data =>
      let indent_str := str_mul (L "  ") indent in
      join [newline]
        ((fix items (data : list (str * Value)) : list str :=
            match data with
            | [] => []
            | (key, value) :: rest =>
                match value with
                | VDict _ =>
                    [indent_str ++ key ++ L ":"; dumps_value value (indent + 1)]
                | VList l => [_format_list dumps_value key l indent_str]
                | VStr s =>
                    if contains newline s
                    then [_format_multiline key s indent_str]
                    else [indent_str ++ key ++ L ": " ++ py_str value]
                | _ => [indent_str ++ key ++ L ": " ++ py_str value]
                end ++ items rest
            end) data)
  | _ => []
  end.

Definition dumps (data : dict) (indent : nat) : str :=
  dumps_value (VDict data) indent.

(** What one iteration of the loop of [dumps] appends to [lines], and what
    the whole loop leaves there. *)
Definition dumps_entry (indent : nat) (key : str) (value : Value) : list str :=
  let indent_str := str_mul (L "  ") indent in
  match value with
  | VDict _ => [indent_str ++ key ++ L ":"; dumps_value value (indent + 1)]
  | VList l => [_format_list dumps_value key l indent_str]
  | VStr s =>
      if contains newline s
      then [_format_multiline key s indent_str]
      else [indent_str ++ key ++ L ": " ++ py_str value]
  | _ => [indent_str ++ key ++ L ": " ++ py_str value]
  end.

Fixpoint dumps_items (indent : nat) (data : dict) : list str :=
  match data with
  | [] => []
  | (key, value) :: rest => dumps_entry indent key value ++ dumps_items indent rest
  end.

(** ** Public API *)

Definition parse (text : str) : outcome dict :=
  let lines := split newline (strip text) in
  r <- _parse_block (S (length lines)) lines 0 ;;
  Return (fst r).

End NDF.

Arguments VNone {float}.
Arguments VBool {float} b.
Arguments VInt {float} z.
Arguments VFloat {float} f.
Arguments VStr {float} s.
Arguments VList {float} l.
Arguments VDict {float} d.
Arguments dict_set {float} d k v.
Arguments dict_get {float} d k.
Arguments keys {float} d.
Arguments _parse_simple_value {float} py_float value.
Arguments inline_pairs {float} py_float pairs result.
Arguments _parse_inline_object {float} py_float text.
Arguments array_loop {float} py_float parse_array chars depth item result.
Arguments _parse_array {float} py_float fuel text.
Arguments _parse_value {float} py_float value.
Arguments _parse_multiline {float} lines i indent.
Arguments _parse_nested {float} parse_block lines i indent.
Arguments block_loop {float} py_float fuel lines start_indent i result.
Arguments _parse_block {float} py_float fuel lines start_indent.
Arguments parse {float} py_float text.
Arguments line_value {float} py_float fuel lines i indent value.
Arguments py_repr {float} float_str v.
Arguments py_str {float} float_str v.
Arguments is_scalar {float} x.
Arguments _format_list {float} float_str dumps_item key value indent_str.
Arguments dumps_value {float} float_str data indent.
Arguments dumps {float} float_str data indent.
Arguments dumps_entry {float} float_str indent key value.
Arguments dumps_items {float} float_str indent data.

(** ** Predicates used in the statements *)

Definition all_space (s : str) : bool := forallb isspace s.

(** The call returns a result. *)
Definition returns {A : Type} (m : outcome A) : Prop := exists a, m = Return a.

(** ** The loops, from the cursor on *)

(** A content line: neither blank nor a comment. *)
Definition is_content (line : str) : bool :=
  nonempty (strip line) && negb (startswith "#" (strip line)).

(** A result whose cursor is moved [k] lines on. *)
Definition shift {A : Type} (k : nat) (r : outcome (A * nat)) : outcome (A * nat) :=
  match r with
  | Return (a, j) => Return (a, k + j)
  | Raise e => Raise e
  | OutOfFuel => OutOfFuel
  end.

(** The loop of [_parse_multiline] over the lines from the cursor on: the
    text lines it collects and how many lines it takes. *)
Fixpoint multiline_scan (indent : nat) (rest : list str) : list str * nat :=
  match rest with
  | [] => ([], 0)
  | next_line :: rest' =>
      if (_get_indent next_line <=? indent) && nonempty (strip next_line)
      then ([], 0)
      else
        let '(text_lines, k) := multiline_scan indent rest' in
        ((if indent + 2 <? length next_line
          then slice_from (indent + 2) next_line else []) :: text_lines, S k)
  end.

(** The loop of [_parse_nested] over the lines from the cursor on. *)
Fixpoint nested_scan (indent : nat) (rest : list str) : list str * nat :=
  match rest with
  | [] => ([], 0)
  | next_line :: rest' =>
      if negb (is_content next_line) then
        let '(nested_lines, k) := nested_scan indent rest' in (nested_lines, S k)
      else if _get_indent next_line <=? indent then ([], 0)
      else
        let '(nested_lines, k) := nested_scan indent rest' in
        (next_line :: nested_lines, S k)
  end.

(** How the block loop reads a line at the level [start_indent]: the key
    and the value text, when the line is a content line at that level with
    a [:] left after its inline comment is removed. *)
Definition key_line (start_indent : nat) (line : str) : option (str * str) :=
  let cleaned := strip (_remove_inline_comment line) in
  if is_content line && (_get_indent line =? start_indent) then
    match split_once ":" cleaned with
    | Some (key, value) => Some (strip key, strip value)
    | None => None
    end
  else None.

(** ** Shapes of text *)

(** The string begins, and ends, with a character that is not whitespace. *)
Definition starts_nonspace (s : str) : bool :=
  match s with
  | [] => false
  | c :: _ => negb (isspace c)
  end.

Definition ends_nonspace (s : str) : bool := starts_nonspace (rev s).

(** No leading and no trailing whitespace. *)
Definition trimmed (s : str) : bool :=
  negb (nonempty s) || (starts_nonspace s && ends_nonspace s).

(** No character of [s] satisfies [bad]. *)
Definition free_of (bad : ascii -> bool) (s : str) : bool :=
  forallb (fun c => negb (bad c)) s.

Definition is_char (c : ascii) : ascii -> bool := fun c' => Ascii.eqb c' c.

(** A key that a line of the format can carry: no [:], no [#], no line
    break, no whitespace at either end. *)
Definition safe_key (k : str) : bool :=
  free_of (fun c => is_char ":" c || is_char "#" c || is_char newline c) k
  && trimmed k.

(** The number that a run of decimal digits adds to [acc]. *)
Fixpoint uint_val (d : Decimal.uint) (acc : Z) : Z :=
  match d with
  | Decimal.Nil => acc
  | Decimal.D0 l => uint_val l (10 * acc + 0)%Z
  | Decimal.D1 l => uint_val l (10 * acc + 1)%Z
  | Decimal.D2 l => uint_val l (10 * acc + 2)%Z
  | Decimal.D3 l => uint_val l (10 * acc + 3)%Z
  | Decimal.D4 l => uint_val l (10 * acc + 4)%Z
  | Decimal.D5 l => uint_val l (10 * acc + 5)%Z
  | Decimal.D6 l => uint_val l (10 * acc + 6)%Z
  | Decimal.D7 l => uint_val l (10 * acc + 7)%Z
  | Decimal.D8 l => uint_val l (10 * acc + 8)%Z
  | Decimal.D9 l => uint_val l (10 * acc + 9)%Z
  end.

(** The digits of [d] as text. *)
Definition uint_text (d : Decimal.uint) : str := L (NilEmpty.string_of_uint d).

Definition digits_only (s : str) : bool := forallb is_digit s.

(** ** Documents that are written and read back unchanged *)

Definition is_none {A : Type} (o : option A) : bool :=
  match o with None => true | Some _ => false end.

(** The characters of the text of a number. *)
Definition numeric_char (c : ascii) : bool :=
  is_digit c || is_char "." c || is_char "e" c || is_char "-" c || is_char "+" c.

(** Whitespace, comma and comment marker: the characters that end a token
    of an implicit list or cut a line short. *)
Definition breaks_token (c : ascii) : bool :=
  isspace c || is_char "," c || is_char "#" c.

Fixpoint distinct (l : list str) : bool :=
  match l with
  | [] => true
  | x :: l' => negb (str_in x l') && distinct l'
  end.

Section Safe.

Context {float : Type}.
Variable py_float : str -> option float.
Variable float_str : float -> str.

(** A string that is written bare and read back as itself: not empty, no
    whitespace, comma or [#], no quote, brace or bracket in front, not the
    block marker, not a boolean or null literal, not the text of a
    number. *)
Definition plain_str (s : str) : bool :=
  nonempty s
  && free_of breaks_token s
  && negb (startswith dquote s || startswith squote s
           || startswith "{" s || startswith "[" s)
  && negb (str_eqb s (L "|"))
  && negb (str_in (lower s)
             [L "yes"; L "true"; L "no"; L "false"; L "null"; L "none"; L "-"])
  && (if contains "." s || contains "e" (lower s)
      then is_none (py_float s) else is_none (py_int s)).

(** A float whose text is made of digits, [.], [e] and signs, has a [.]
    or an [e], and is read back by [float()] as the same float. *)
Definition plain_float (f : float) : Prop :=
  forallb numeric_char (float_str f) = true /\
  contains "." (float_str f) || contains "e" (float_str f) = true /\
  py_float (float_str f) = Some f.

(** The elements a simple list may have. *)
Definition safe_scalar (x : Value float) : Prop :=
  match x with
  | VBool _ | VInt _ => True
  | VFloat f => plain_float f
  | VStr s => plain_str s = true
  | _ => False
  end.

Fixpoint safe_value (v : Value float) : Prop :=
  match v with
  | VNone | VBool _ | VInt _ => True
  | VFloat f => plain_float f
  | VStr s => plain_str s = true
  | VList l => 2 <= length l /\ Forall safe_scalar l
  | VDict d =>
      d <> [] /\ distinct (keys d) = true /\
      (fix entries (d : list (str * Value float)) : Prop :=
         match d with
         | [] => True
         | (k, v') :: rest => safe_key k = true /\ safe_value v' /\ entries rest
         end) d
  end.

Definition safe_entries (d : dict float) : Prop :=
  Forall (fun kv => safe_key (fst kv) = true /\ safe_value (snd kv)) d.

(** A safe document: distinct safe keys in every dictionary, no empty
    nested dictionary, and for values [None], booleans, integers, plain
    floats, plain strings, and lists of two or more booleans, integers,
    plain floats and plain strings. *)
Definition safe_doc (d : dict float) : Prop :=
  distinct (keys d) = true /\ safe_entries d.

(** The physical lines that [dumps] writes for one entry and for a
    dictionary at indentation level [n], when no string has a line break
    and no list has a dictionary. *)
Fixpoint entry_lines (n : nat) (key : str) (v : Value float) : list str :=
  match v with
  | VDict d =>
      (str_mul (L "  ") n ++ key ++ L ":") ::
      (fix go (d : list (str * Value float)) : list str :=
         match d with
         | [] => []
         | (k, v') :: rest => entry_lines (n + 1) k v' ++ go rest
         end) d
  | _ => dumps_entry float_str n key v
  end.

Fixpoint doc_lines (n : nat) (d : dict float) : list str :=
  match d with
  | [] => []
  | (k, v) :: rest => entry_lines n k v ++ doc_lines n rest
  end.

(** The text [t] is one token that the scalar parser reads as [v]. *)
Definition token (t : str) (v : Value float) : Prop :=
  nonempty t = true /\ free_of breaks_token t = true /\
  startswith "{" t = false /\ startswith "[" t = false /\
  str_eqb t (L "|") = false /\
  _parse_simple_value py_float t = v.

(** The text [t] can stand after [key: ] on a line, and the value parser
    reads it as [v]. *)
Definition value_text_ok (t : str) (v : Value float) : Prop :=
  contains "#" t = false /\ contains newline t = false /\
  starts_nonspace t = true /\ ends_nonspace t = true /\
  str_eqb t (L "|") = false /\
  _parse_value py_float t = Return v.

(** A line of a block at level [n] or deeper: a content line, indented by
    [2 * n] at least, with no line break in it and no whitespace at its
    end. *)
Definition line_ok (n : nat) (l : str) : Prop :=
  is_content l = true /\ 2 * n <= _get_indent l /\
  contains newline l = false /\ ends_nonspace l = true.

(** What [dumps] writes after [key: ] for a value that is neither a
    dictionary nor a complex list. *)
Definition value_text (v : Value float) : str :=
  match v with
  | VList l => join (L ", ") (map (py_str float_str) l)
  | _ => py_str float_str v
  end.

End Safe.

(** ** Further predicates used in the statements *)

(** The first content line of [rest], if there is one, is deeper than
    [indent]. *)
Definition first_content_deeper (indent : nat) (rest : list str) : bool :=
  match find is_content rest with
  | Some c => indent <? _get_indent c
  | None => false
  end.

Section Shape.

Context {float : Type}.

(** No dictionary in the value nor, for a list, in its elements at any
    depth. *)
Fixpoint no_dict (v : Value float) : bool :=
  match v with
  | VDict _ => false
  | VList l => forallb no_dict l
  | _ => true
  end.

(** The shape of what [parse] builds: in every dictionary the keys are
    distinct and are keys that a line can carry, and no list holds a
    dictionary. *)
Fixpoint parsed_shape (v : Value float) : bool :=
  match v with
  | VDict d =>
      distinct (keys d)
      && forallb (fun kv => safe_key (fst kv) && parsed_shape (snd kv)) d
  | VList l => forallb no_dict l
  | _ => true
  end.

End Shape.

(** ** Documents with text blocks at the top level *)

(** A string that [dumps] writes as a text block and [parse] reads back:
    it has a line break and no whitespace at its end. *)
Definition text_block (s : str) : bool := contains newline s && ends_nonspace s.

(** The lines that [_format_multiline] writes at level 0. *)
Definition text_lines (key s : str) : list str :=
  (key ++ L ": |") :: map (fun line => L "  " ++ line) (split newline s).

Section TopLevel.

Context {float : Type}.
Variable py_float : str -> option float.
Variable float_str : float -> str.

(** A value of an entry at the top level: a safe value or a text block. *)
Definition top_value (v : Value float) : Prop :=
  safe_value py_float float_str v \/ exists s, v = VStr s /\ text_block s = true.

Definition top_doc (d : dict float) : Prop :=
  distinct (keys d) = true /\
  Forall (fun kv => safe_key (fst kv) = true /\ top_value (snd kv)) d.

(** The physical lines that [dumps] writes for such a document. *)
Definition top_entry_lines (key : str) (v : Value float) : list str :=
  match v with
  | VStr s =>
      if contains newline s then text_lines key s
      else entry_lines float_str 0 key v
  | _ => entry_lines float_str 0 key v
  end.

Fixpoint top_lines (d : dict float) : list str :=
  match d with
  | [] => []
  | (k, v) :: rest => top_entry_lines k v ++ top_lines rest
  end.

End TopLevel.

(** ** Inline objects and arrays as text *)

(** A list or a dictionary. *)
Definition is_container {float : Type} (v : Value float) : bool :=
  match v with
  | VList _ | VDict _ => true
  | _ => false
  end.

(** The text of an inline object with the pairs [ps] of key text and
    value text. *)
Definition inline_text (ps : list (str * str)) : str :=
  L "{" ++ join (L ",") (map (fun kt => fst kt ++ L ":" ++ snd kt) ps) ++ L "}".

(** The text of an array: an item is a piece of text or an array. *)
Inductive atree : Type :=
| ALeaf (t : str)
| ANode (l : list atree).

Fixpoint render (a : atree) : str :=
  match a with
  | ALeaf t => t
  | ANode l => L "[" ++ join (L ",") (map render l) ++ L "]"
  end.

(** The pieces of text have no comma and no bracket, and are not blank. *)
Fixpoint leaves_ok (a : atree) : bool :=
  match a with
  | ALeaf t =>
      free_of (fun c => is_char "," c || is_char "[" c || is_char "]" c) t
      && nonempty (strip t)
  | ANode l => forallb leaves_ok l
  end.

Section ArrayValue.

Context {float : Type}.
Variable py_float : str -> option float.

(** The value that an item stands for. *)
Fixpoint array_value (a : atree) : Value float :=
  match a with
  | ALeaf t => _parse_simple_value py_float t
  | ANode l => VList (map array_value l)
  end.

End ArrayValue.

(** ** Implicit lists as text *)

(** A non-empty run of commas and whitespace. *)
Definition sep_run (s : str) : bool := nonempty s && forallb is_sep s.

(** An item of an implicit list: not empty, with no comma and no
    whitespace. *)
Definition list_item (t : str) : bool := nonempty t && free_of is_sep t.

(** A first item followed by separators and items. *)
Definition list_text (t0 : str) (rest : list (str * str)) : str :=
  t0 ++ concat (map (fun st => fst st ++ snd st) rest).

(** ** Lines that are read alike *)

(** Two lines that the block parser cannot tell apart: both content lines
    or both not, with the same indentation and the same text once the
    inline comment and the surrounding whitespace are removed. *)
Definition same_reading (l l' : str) : Prop :=
  is_content l = is_content l' /\ _get_indent l = _get_indent l' /\
  strip (_remove_inline_comment l) = strip (_remove_inline_comment l').

(** The line would open a text block: its value is the block marker. *)
Definition text_header (l : str) : bool :=
  let cleaned := strip (_remove_inline_comment l) in
  contains ":" cleaned && str_eqb (strip (after ":" cleaned)) (L "|").

(** ** The limits of the interpreter *)

(** *** The depth of calls

    The interpreter bounds the depth to which calls nest and raises
    RecursionError beyond it.  [frames] is the number of calls that may
    still nest at a point of the program.  The methods that call one
    another are [_parse_block], [_parse_nested], [_parse_value] and
    [_parse_array]; the functions below follow [parse] with a frame
    counted for each of their calls.  The other methods and the library
    functions return without calling back into these four: they nest to a
    fixed depth, not counted here.  So the program raises RecursionError
    where these functions do; and it returns what they return when the
    frames left hold that fixed depth too, for which the statements keep
    [reserve] frames. *)

(** A call with [frames] calls left: its body runs with one less. *)
Definition call {A : Type} (frames : nat) (body : nat -> outcome A) : outcome A :=
  match frames with
  | 0 => Raise RecursionError
  | S frames1 => body frames1
  end.

(** The outcome of [_parse_array] when its budget is the number of frames
    left: to exhaust it is RecursionError. *)
Definition recursion_error {A : Type} (m : outcome A) : outcome A :=
  match m with
  | OutOfFuel => Raise RecursionError
  | _ => m
  end.

(** Frames kept for the calls that do not recurse. *)
Definition reserve : nat := 32.

Section Within.

Context {float : Type}.
Variable py_float : str -> option float.

(** [_parse_value] with [frames] calls left. *)
Definition _parse_value_within (frames : nat) (value : str)
    : outcome (Value float) :=
  let value := strip value in
  if startswith "{" value && endswith "}" value then
    d <- _parse_inline_object py_float value ;; Return (VDict d)
  else if startswith "[" value && endswith "]" value then
    a <- recursion_error (_parse_array py_float frames value) ;;
    Return (VList a)
  else if contains "," value
          || (contains " " value && negb (startswith dquote value)) then
    Return (VList (map (_parse_simple_value py_float)
                     (stripped_items (re_split value))))
  else Return (_parse_simple_value py_float value).

(** The loop of [_parse_block] with [frames] calls left: [_parse_value]
    is called with one less, [_parse_nested] too, and the [_parse_block]
    that [_parse_nested] calls with two less.  [fuel] is as in
    [block_loop]. *)
Fixpoint block_loop_within (fuel frames : nat) (lines : list str)
    (start_indent i : nat) (result : dict float) {struct fuel}
    : outcome (dict float * nat) :=
  match fuel with
  | 0 => OutOfFuel
  | S fuel' =>
      if i <? length lines then
        let line := nth i lines [] in
        (* Skip empty lines and comments *)
        if negb (nonempty (strip line)) || startswith "#" (strip line) then
          block_loop_within fuel' frames lines start_indent (i + 1) result
        else
          let indent := _get_indent line in
          (* Dedented - done with this block *)
          if indent <? start_indent then Return (result, i)
          (* Skip lines not at our level *)
          else if start_indent <? indent then
            block_loop_within fuel' frames lines start_indent (i + 1) result
          else
            (* Clean line *)
            let line := strip (_remove_inline_comment line) in
            (* Parse key-value pair *)
            if negb (contains ":" line) then
              block_loop_within fuel' frames lines start_indent (i + 1) result
            else
              '(key, value) <- _split_key_value line ;;
              (* Multi-line text *)
              if str_eqb value (L "|") then
                let '(v, i) := _parse_multiline lines i indent in
                block_loop_within fuel' frames lines start_indent i
                  (dict_set result key v)
              (* Nested object *)
              else if negb (nonempty value) then
                '(v, i) <- call frames (fun frames1 =>
                             _parse_nested
                               (fun ls n =>
                                  call frames1 (fun frames2 =>
                                    block_loop_within fuel' frames2 ls n 0 []))
                               lines i indent) ;;
                block_loop_within fuel' frames lines start_indent i
                  (dict_set result key v)
              else
                (* Parse value *)
                v <- call frames (fun frames1 =>
                       _parse_value_within frames1 value) ;;
                block_loop_within fuel' frames lines start_indent (i + 1)
                  (dict_set result key v)
      else Return (result, i)
  end.

Definition _parse_block_within (fuel frames : nat) (lines : list str)
    (start_indent : nat) : outcome (dict float * nat) :=
  block_loop_within fuel frames lines start_indent 0 [].

(** [parse] when [frames] calls may nest inside it. *)
Definition parse_within (frames : nat) (text : str) : outcome (dict float) :=
  let lines := split newline (strip text) in
  r <- call frames (fun frames1 =>
         _parse_block_within (S (length lines)) frames1 lines 0) ;;
  Return (fst r).

End Within.

(** [s.count(c)] *)
Definition count_char (c : ascii) (s : str) : nat :=
  length (filter (Ascii.eqb c) s).

(** The depth that the calls of [_parse_array] can reach on a value: not
    more than the number of its opening brackets, and none when the value
    is not read as an array. *)
Definition array_need (value : str) : nat :=
  if startswith "[" value && endswith "]" value then count_char "[" value
  else 0.

(** The line leaves [reserve] frames out of the [frames] that [parse]
    has: read as a key line at its own indentation, its indentation and
    the need of its value take the others.  The block that reads a line
    at indentation [n] as a key line is [n + 1] calls deep in [parse],
    two calls for each level of two columns. *)
Definition line_fits (frames : nat) (line : str) : bool :=
  match key_line (_get_indent line) line with
  | Some (_, value) =>
      _get_indent line + array_need value + reserve <=? frames
  | None => true
  end.

(** The text is within the depth of calls: every line fits and the
    reserve is there. *)
Definition fits (frames : nat) (text : str) : bool :=
  (reserve <=? frames)
  && forallb (line_fits frames) (split newline (strip text)).

(** The depth to which the brackets of an array nest. *)
Fixpoint adepth (a : atree) : nat :=
  match a with
  | ALeaf _ => 0
  | ANode l => S (list_max (map adepth l))
  end.

(** [n + 1] opening brackets followed by [n + 1] closing brackets. *)
Fixpoint nest (n : nat) : atree :=
  match n with
  | 0 => ANode []
  | S n' => ANode [nest n']
  end.

(** *** The digits of an integer

    [str()] and [int()] convert integers of at most [max_str_digits]
    digits and raise ValueError beyond; [int_str] and [py_int] are these
    conversions below the limit. *)
Definition max_str_digits : nat := 4300.

Definition int_fits (z : Z) : bool :=
  length (int_str (Z.abs z)) <=? max_str_digits.

Section SmallInts.

Context {float : Type}.

(** Every integer of the value is within the limit. *)
Fixpoint small_ints (v : Value float) : bool :=
  match v with
  | VInt z => int_fits z
  | VList l => forallb small_ints l
  | VDict d => forallb (fun kv => small_ints (snd kv)) d
  | _ => true
  end.

End SmallInts.

(** ** A host for the closed examples

    A float is the decimal numeral it was read from: [(m, e)] stands for
    [m * 10^e], with [m] not a multiple of ten unless it is zero.  On
    numerals of at most fifteen significant digits within the range of
    doubles, [str(float(s))] of this host is that of a host with IEEE
    doubles. *)
Module DecimalHost.

Definition float : Type := (Z * Z)%type.

Fixpoint normalize (fuel : nat) (m e : Z) : float :=
  match fuel with
  | 0 => (m, e)
  | S fuel' =>
      if (m =? 0)%Z then (0%Z, 0%Z)
      else if (m mod 10 =? 0)%Z then normalize fuel' (m / 10)%Z (e + 1)%Z
      else (m, e)
  end.

(** A possibly empty run of digits. *)
Definition digits_opt (s : str) : option Z :=
  match s with
  | [] => Some 0%Z
  | _ => int_digits s 0%Z false
  end.

Definition signed_digits (s : str) : option Z :=
  if startswith "-" s then option_map Z.opp (int_digits (tl s) 0%Z false)
  else if startswith "+" s then int_digits (tl s) 0%Z false
  else int_digits s 0%Z false.

Definition py_float (s : str) : option float :=
  let s := strip s in
  let neg := startswith "-" s in
  let body := if neg || startswith "+" s then tl s else s in
  let body := lower body in
  let mant := before "e" body in
  let ip := before "." mant in
  let fp := after "." mant in
  let scale := Z.of_nat (length (filter is_digit fp)) in
  if negb (nonempty ip) && negb (nonempty fp) then None
  else
    match digits_opt ip, digits_opt fp,
          (if contains "e" body then signed_digits (after "e" body) else Some 0%Z)
    with
    | Some i, Some f, Some x =>
        let m := (i * 10 ^ scale + f)%Z in
        Some (normalize (S (length mant)) (if neg then - m else m)%Z (x - scale)%Z)
    | _, _, _ => None
    end.

Definition zeros (n : Z) : str := repeat "0" (Z.to_nat n).

Definition float_str (f : float) : str :=
  let '(m, e) := f in
  let digits := int_str (Z.abs m) in
  let n := Z.of_nat (length digits) in
  let decpt := (n + e)%Z in
  if (m =? 0)%Z then L "0.0"
  else
    (if (m <? 0)%Z then L "-" else []) ++
    if (-4 <? decpt)%Z && (decpt <=? 16)%Z then
      if (decpt <=? 0)%Z then L "0." ++ zeros (- decpt) ++ digits
      else if (n <=? decpt)%Z then digits ++ zeros (decpt - n) ++ L ".0"
      else firstn (Z.to_nat decpt) digits ++ L "." ++ skipn (Z.to_nat decpt) digits
    else
      let x := (decpt - 1)%Z in
      let xs := int_str (Z.abs x) in
      firstn 1 digits ++ (if (1 <? n)%Z then L "." ++ skipn 1 digits else [])
      ++ L "e" ++ (if (x <? 0)%Z then L "-" else L "+")
      ++ (if length xs <? 2 then L "0" else []) ++ xs.

End DecimalHost.

(** * Properties *)

(** ** Facts on strings *)

Lemma str_eqb_eq (a b : str) : str_eqb a b = true <-> a = b.
Proof.
  unfold str_eqb. destruct (list_eq_dec ascii_dec a b); split; congruence.
Qed.

Lemma str_eqb_refl (a : str) : str_eqb a a = true.
Proof. now apply str_eqb_eq. Qed.

Lemma str_in_cons (s x : str) (l : list str) :
  str_in s (x :: l) = str_eqb s x || str_in s l.
Proof. reflexivity. Qed.

Lemma str_eqb_neq (a b : str) : str_eqb a b = false <-> a <> b.
Proof.
  unfold str_eqb. destruct (list_eq_dec ascii_dec a b); split; congruence.
Qed.

Lemma lstrip_space_app (p x : str) :
  all_space p = true -> lstrip (p ++ x) = lstrip x.
Proof.
  induction p as [|c p IH]; simpl; intros H; [reflexivity|].
  apply andb_prop in H as [Hc Hp]. rewrite Hc. auto.
Qed.

Lemma lstrip_all_space (s : str) : all_space s = true -> lstrip s = [].
Proof.
  intros H. rewrite <- (app_nil_r s). now rewrite lstrip_space_app.
Qed.

Lemma lstrip_nil_all_space (s : str) : lstrip s = [] -> all_space s = true.
Proof.
  induction s as [|c s IH]; simpl; [reflexivity|].
  destruct (isspace c); [auto | discriminate].
Qed.

Lemma lstrip_app_keep (t s : str) :
  lstrip t <> [] -> lstrip (t ++ s) = lstrip t ++ s.
Proof.
  induction t as [|c t IH]; simpl; [congruence|].
  destruct (isspace c); auto.
Qed.

Lemma lstrip_length (s : str) : length (lstrip s) <= length s.
Proof.
  induction s as [|c s IH]; simpl; [lia|]. destruct (isspace c); simpl; lia.
Qed.

Lemma all_space_rev (s : str) : all_space (rev s) = all_space s.
Proof.
  unfold all_space. induction s as [|c s IH]; simpl; [reflexivity|].
  rewrite forallb_app, IH. simpl. rewrite andb_true_r. apply andb_comm.
Qed.

Lemma rstrip_app_space (x s : str) :
  all_space s = true -> rstrip (x ++ s) = rstrip x.
Proof.
  intros H. unfold rstrip. rewrite rev_app_distr, lstrip_space_app; [reflexivity|].
  now rewrite all_space_rev.
Qed.

Lemma rstrip_length (s : str) : length (rstrip s) <= length s.
Proof.
  unfold rstrip. rewrite length_rev.
  etransitivity; [apply lstrip_length|]. now rewrite length_rev.
Qed.

Lemma strip_length (s : str) : length (strip s) <= length s.
Proof.
  unfold strip. etransitivity; [apply rstrip_length | apply lstrip_length].
Qed.

(** Surrounding whitespace does not change what [strip] leaves. *)
Lemma strip_surround (p t s : str) :
  all_space p = true -> all_space s = true -> strip (p ++ t ++ s) = strip t.
Proof.
  intros Hp Hs. unfold strip. rewrite lstrip_space_app by assumption.
  destruct (lstrip t) as [|c u] eqn:E.
  - apply lstrip_nil_all_space in E.
    rewrite lstrip_space_app by assumption.
    now rewrite (lstrip_all_space s).
  - rewrite lstrip_app_keep by congruence. rewrite E.
    now apply rstrip_app_space.
Qed.

Lemma removelast_length {A} (l : list A) : length (removelast l) = length l - 1.
Proof.
  induction l as [|a l IH]; [reflexivity|].
  destruct l; [reflexivity|]. simpl in *. rewrite IH. lia.
Qed.

Lemma slice_1_m1_length (s : str) : length (slice_1_m1 s) <= length s - 1.
Proof.
  unfold slice_1_m1. rewrite removelast_length.
  destruct s; simpl; lia.
Qed.

Lemma split_once_contains (sep : ascii) (s : str) :
  contains sep s = true -> split_once sep s = Some (before sep s, after sep s).
Proof. unfold split_once. now intros ->. Qed.

Lemma starts_nonspace_lstrip (s : str) : starts_nonspace s = true -> lstrip s = s.
Proof.
  destruct s as [|c s]; simpl; [discriminate|].
  now destruct (isspace c).
Qed.

Lemma ends_nonspace_rstrip (s : str) : ends_nonspace s = true -> rstrip s = s.
Proof.
  unfold ends_nonspace, rstrip. intros H.
  rewrite starts_nonspace_lstrip by assumption. apply rev_involutive.
Qed.

Lemma starts_nonspace_app (a b : str) :
  starts_nonspace a = true -> starts_nonspace (a ++ b) = true.
Proof. destruct a; [discriminate | trivial]. Qed.

Lemma ends_nonspace_app (a b : str) :
  ends_nonspace b = true -> ends_nonspace (a ++ b) = true.
Proof.
  unfold ends_nonspace. rewrite rev_app_distr. apply starts_nonspace_app.
Qed.

Lemma ends_nonspace_snoc (a : str) (c : ascii) :
  ends_nonspace (a ++ [c]) = negb (isspace c).
Proof. unfold ends_nonspace. now rewrite rev_app_distr. Qed.

Lemma trimmed_strip (s : str) : trimmed s = true -> strip s = s.
Proof.
  unfold trimmed, strip. destruct s as [|c s]; [reflexivity|]. simpl orb.
  intros H. apply andb_prop in H as [H1 H2].
  rewrite starts_nonspace_lstrip by assumption.
  now apply ends_nonspace_rstrip.
Qed.

Lemma all_space_str_mul (n : nat) : all_space (str_mul (L "  ") n) = true.
Proof. induction n; [reflexivity | exact IHn]. Qed.

Lemma str_mul_length (n : nat) : length (str_mul (L "  ") n) = 2 * n.
Proof. induction n; simpl in *; lia. Qed.

(** An indented line: spaces, then a body with no space at either end. *)
Lemma indented_strip (ind body : str) :
  all_space ind = true -> starts_nonspace body = true ->
  ends_nonspace body = true -> strip (ind ++ body) = body.
Proof.
  intros Hi Hs He. unfold strip. rewrite lstrip_space_app by assumption.
  rewrite starts_nonspace_lstrip by assumption.
  now apply ends_nonspace_rstrip.
Qed.

Lemma indented_indent (ind body : str) :
  all_space ind = true -> starts_nonspace body = true ->
  _get_indent (ind ++ body) = length ind.
Proof.
  intros Hi Hs. unfold _get_indent. rewrite lstrip_space_app by assumption.
  rewrite starts_nonspace_lstrip by assumption. rewrite length_app. lia.
Qed.

Lemma contains_app (c : ascii) (a b : str) :
  contains c (a ++ b) = contains c a || contains c b.
Proof. unfold contains. apply existsb_app. Qed.

Lemma free_of_contains (bad : ascii -> bool) (c : ascii) (s : str) :
  free_of bad s = true -> bad c = true -> contains c s = false.
Proof.
  intros H Hb. induction s as [|x s IH]; [reflexivity|].
  simpl in *. apply andb_prop in H as [Hx Hs]. rewrite (IH Hs), orb_false_r.
  destruct (Ascii.eqb_spec c x) as [->|]; [|reflexivity].
  now rewrite Hb in Hx.
Qed.

Lemma free_of_weaken (bad bad' : ascii -> bool) (s : str) :
  (forall c, bad' c = true -> bad c = true) ->
  free_of bad s = true -> free_of bad' s = true.
Proof.
  intros Hw. unfold free_of. rewrite !forallb_forall. intros H c Hin.
  specialize (H c Hin). destruct (bad' c) eqn:E; [|reflexivity].
  now rewrite (Hw c E) in H.
Qed.

Lemma before_app_sep (sep : ascii) (a b : str) :
  contains sep a = false -> before sep (a ++ sep :: b) = a.
Proof.
  induction a as [|c a IH]; simpl.
  - now rewrite Ascii.eqb_refl.
  - rewrite Ascii.eqb_sym. destruct (Ascii.eqb c sep); simpl; [discriminate|].
    intros H. now rewrite IH.
Qed.

Lemma after_app_sep (sep : ascii) (a b : str) :
  contains sep a = false -> after sep (a ++ sep :: b) = b.
Proof.
  induction a as [|c a IH]; simpl.
  - now rewrite Ascii.eqb_refl.
  - rewrite Ascii.eqb_sym. destruct (Ascii.eqb c sep); simpl; [discriminate|].
    intros H. now rewrite IH.
Qed.

Lemma contains_middle (sep : ascii) (a b : str) : contains sep (a ++ sep :: b) = true.
Proof.
  rewrite contains_app. simpl. rewrite Ascii.eqb_refl. apply orb_true_r.
Qed.

Lemma lstrip_decomp (t : str) :
  exists w, t = w ++ lstrip t /\ all_space w = true /\
            (lstrip t = [] \/ starts_nonspace (lstrip t) = true).
Proof.
  induction t as [|c t (w & E & Hw & Ht)]; simpl.
  - exists []. auto.
  - destruct (isspace c) eqn:Hc.
    + exists (c :: w). simpl. rewrite Hc, Hw. split; [now f_equal | auto].
    + exists []. simpl. rewrite Hc. auto.
Qed.

Lemma rstrip_decomp (s : str) :
  exists w, s = rstrip s ++ w /\ all_space w = true /\
            (rstrip s = [] \/ ends_nonspace (rstrip s) = true).
Proof.
  destruct (lstrip_decomp (rev s)) as (w & E & Hw & Ht).
  exists (rev w). unfold rstrip, ends_nonspace. rewrite rev_involutive.
  split; [|split].
  - rewrite <- rev_app_distr, <- E. now rewrite rev_involutive.
  - now rewrite all_space_rev.
  - destruct Ht as [->|Ht]; auto.
Qed.

Lemma rstrip_idem (s : str) : rstrip (rstrip s) = rstrip s.
Proof.
  destruct (rstrip_decomp s) as (w & _ & _ & [->|H]); [reflexivity|].
  now apply ends_nonspace_rstrip.
Qed.

(** What [rstrip] leaves of a string that begins with a character other
    than whitespace. *)
Lemma rstrip_starts_nonspace (s : str) :
  starts_nonspace s = true ->
  starts_nonspace (rstrip s) = true /\ ends_nonspace (rstrip s) = true /\
  (forall x, rstrip (x ++ s) = x ++ rstrip s) /\
  (forall c, contains c s = false -> contains c (rstrip s) = false).
Proof.
  intros Hs. destruct (rstrip_decomp s) as (w & E & Hw & Hr).
  assert (Hne : rstrip s <> []).
  { intros E0. rewrite E0 in E. simpl in E. subst w.
    destruct s as [|c s]; [discriminate|]. simpl in *.
    apply andb_prop in Hw as [Hc _]. now rewrite Hc in Hs. }
  destruct Hr as [Hr|Hr]; [contradiction|].
  repeat split.
  - destruct (rstrip s) as [|c r]; [contradiction|].
    rewrite E in Hs. exact Hs.
  - exact Hr.
  - intros x. rewrite E at 1. rewrite app_assoc, rstrip_app_space by assumption.
    apply ends_nonspace_rstrip. now apply ends_nonspace_app.
  - intros c Hc. rewrite E, contains_app in Hc.
    now apply orb_false_elim in Hc as [-> _].
Qed.

Lemma startswith_app (c : ascii) (a b : str) :
  a <> [] -> startswith c (a ++ b) = startswith c a.
Proof. destruct a; [congruence | reflexivity]. Qed.

Lemma contains_join (c : ascii) (sep : str) (toks : list str) :
  contains c sep = false -> Forall (fun tok => contains c tok = false) toks ->
  contains c (join sep toks) = false.
Proof.
  intros Hsep. induction 1 as [|tok toks Ht Htoks IH]; [reflexivity|].
  destruct toks as [|tok' toks]; [exact Ht|].
  change (join sep (tok :: tok' :: toks)) with (tok ++ sep ++ join sep (tok' :: toks)).
  now rewrite !contains_app, Ht, Hsep, IH.
Qed.

Lemma ends_nonspace_join (sep : str) (toks : list str) :
  toks <> [] -> Forall (fun tok => ends_nonspace tok = true) toks ->
  ends_nonspace (join sep toks) = true.
Proof.
  intros Hne H. induction H as [|tok toks Ht Htoks IH]; [congruence|].
  destruct toks as [|tok' toks]; [exact Ht|].
  change (join sep (tok :: tok' :: toks)) with (tok ++ sep ++ join sep (tok' :: toks)).
  rewrite app_assoc. apply ends_nonspace_app. apply IH. discriminate.
Qed.

(** ** Facts on [join] and [split] *)

Lemma split_no_sep (sep : ascii) (s : str) :
  contains sep s = false -> split sep s = [s].
Proof.
  induction s as [|c s IH]; simpl; [reflexivity|].
  rewrite Ascii.eqb_sym. destruct (Ascii.eqb c sep); simpl; [discriminate|].
  intros H. now rewrite IH.
Qed.

Lemma split_app_sep (sep : ascii) (a b : str) :
  contains sep a = false -> split sep (a ++ sep :: b) = a :: split sep b.
Proof.
  induction a as [|c a IH]; simpl.
  - now rewrite Ascii.eqb_refl.
  - rewrite Ascii.eqb_sym. destruct (Ascii.eqb c sep); simpl; [discriminate|].
    intros H. now rewrite IH.
Qed.

Lemma split_join (sep : ascii) (ls : list str) :
  Forall (fun l => contains sep l = false) ls -> ls <> [] ->
  split sep (join [sep] ls) = ls.
Proof.
  induction 1 as [|l ls Hl Hls IH]; [congruence|]. intros _.
  destruct ls as [|l' ls].
  - simpl. now apply split_no_sep.
  - change (join [sep] (l :: l' :: ls)) with (l ++ sep :: join [sep] (l' :: ls)).
    rewrite split_app_sep by assumption. f_equal. now apply IH.
Qed.


Lemma join_cons (sep x : str) (l : list str) :
  join sep (x :: l) = x ++ concat (map (app sep) l).
Proof.
  revert x. induction l as [|y l IH]; intros x; simpl.
  - now rewrite app_nil_r.
  - simpl in IH. rewrite IH. now rewrite <- app_assoc.
Qed.

Lemma concat_sep_shift (sep : str) (A : list str) :
  concat (map (app sep) A) ++ sep = sep ++ concat (map (fun a => a ++ sep) A).
Proof.
  induction A as [|a A IH]; simpl.
  - now rewrite app_nil_r.
  - rewrite <- !app_assoc. now rewrite IH.
Qed.

Lemma join_middle (sep x : str) (A B : list str) :
  join sep (A ++ x :: B)
  = concat (map (fun a => a ++ sep) A) ++ x ++ concat (map (app sep) B).
Proof.
  destruct A as [|a A]; simpl app.
  - apply join_cons.
  - rewrite join_cons, map_app, concat_app. simpl.
    rewrite <- !app_assoc. f_equal.
    rewrite (app_assoc _ sep), concat_sep_shift.
    now rewrite <- !app_assoc.
Qed.

(** ** Integers and their text *)

Lemma int_digits_uint (d : Decimal.uint) :
  forall acc seen, d <> Decimal.Nil \/ seen = true ->
    int_digits (uint_text d) acc seen = Some (uint_val d acc).
Proof.
  induction d; intros acc seen H;
    try (unfold uint_text; simpl; apply IHd; now right).
  unfold uint_text. simpl. destruct H as [H| ->]; [congruence | reflexivity].
Qed.

Lemma uint_val_pos (d : Decimal.uint) :
  forall acc, uint_val d (Z.pos acc) = Z.pos (Pos.of_uint_acc d acc).
Proof.
  induction d; intros acc; cbn [uint_val Pos.of_uint_acc]; [reflexivity|..];
    rewrite <- IHd; f_equal; lia.
Qed.

Lemma uint_val_of_uint (d : Decimal.uint) :
  uint_val d 0 = Z.of_N (Pos.of_uint d).
Proof.
  induction d; simpl; try assumption; try reflexivity;
    apply (uint_val_pos d).
Qed.

Lemma uint_text_digits (d : Decimal.uint) : digits_only (uint_text d) = true.
Proof. unfold uint_text. induction d; simpl; auto. Qed.

Lemma int_str_pos (p : positive) : int_str (Z.pos p) = uint_text (Pos.to_uint p).
Proof.
  unfold int_str, uint_text. simpl. unfold NilZero.string_of_uint.
  pose proof (DecimalPos.Unsigned.to_uint_nonnil p).
  now destruct (Pos.to_uint p).
Qed.

Lemma int_str_neg (p : positive) :
  int_str (Z.neg p) = "-" :: uint_text (Pos.to_uint p).
Proof.
  unfold int_str, uint_text. simpl. unfold NilZero.string_of_uint.
  pose proof (DecimalPos.Unsigned.to_uint_nonnil p).
  now destruct (Pos.to_uint p).
Qed.

Lemma uint_text_pos_value (p : positive) :
  int_digits (uint_text (Pos.to_uint p)) 0 false = Some (Z.pos p).
Proof.
  rewrite int_digits_uint
    by (left; apply DecimalPos.Unsigned.to_uint_nonnil).
  now rewrite uint_val_of_uint, DecimalPos.Unsigned.of_to.
Qed.

Lemma uint_text_pos_nonempty (p : positive) :
  exists c s, uint_text (Pos.to_uint p) = c :: s /\ is_digit c = true.
Proof.
  pose proof (DecimalPos.Unsigned.to_uint_nonnil p) as Hn.
  pose proof (uint_text_digits (Pos.to_uint p)) as Hd.
  unfold uint_text in *.
  destruct (Pos.to_uint p); [congruence|..]; simpl in *;
    eexists; eexists; split; reflexivity.
Qed.

(** The text of an integer: an optional minus sign, then digits. *)
Lemma int_str_shape (z : Z) :
  exists sign digits c,
    int_str z = sign ++ c :: digits /\ (sign = [] \/ sign = L "-") /\
    digits_only (c :: digits) = true.
Proof.
  destruct z as [|p|p].
  - exists [], [], "0". auto.
  - destruct (uint_text_pos_nonempty p) as (c & s & E & Hc).
    pose proof (uint_text_digits (Pos.to_uint p)) as Hd.
    exists [], s, c. rewrite int_str_pos, E. rewrite E in Hd. auto.
  - destruct (uint_text_pos_nonempty p) as (c & s & E & Hc).
    pose proof (uint_text_digits (Pos.to_uint p)) as Hd.
    exists (L "-"), s, c. rewrite int_str_neg, E. rewrite E in Hd. auto.
Qed.

(** A fact on one character, checked on every character. *)
Ltac by_chars :=
  let c := fresh "c" in
  intros c; destruct c as [[] [] [] [] [] [] [] []]; vm_compute;
  intros; congruence.

Lemma digit_not_space : forall c, is_digit c = true -> isspace c = false.
Proof. by_chars. Qed.

(** ** Tokens *)

Lemma free_of_space_trimmed (s : str) :
  free_of isspace s = true -> trimmed s = true.
Proof.
  intros H. destruct s as [|c s]; [reflexivity|].
  assert (Hs : starts_nonspace (c :: s) = true).
  { simpl in H |- *. now apply andb_prop in H as [-> _]. }
  assert (He : starts_nonspace (rev (c :: s)) = true).
  { assert (Hr : free_of isspace (rev (c :: s)) = true).
    { unfold free_of in *. rewrite forallb_forall in *. intros x Hx.
      apply H. now apply in_rev. }
    destruct (rev (c :: s)) as [|x r] eqn:E.
    - apply (f_equal (@length ascii)) in E. rewrite length_rev in E. discriminate.
    - simpl in Hr |- *. now apply andb_prop in Hr as [-> _]. }
  unfold trimmed, ends_nonspace. now rewrite Hs, He.
Qed.

Lemma breaks_token_free (s : str) :
  free_of breaks_token s = true ->
  free_of isspace s = true /\ free_of is_sep s = true /\
  contains "," s = false /\ contains " " s = false /\
  contains "#" s = false /\ contains newline s = false.
Proof.
  intros H. repeat split.
  - eapply free_of_weaken; [|exact H]. unfold breaks_token. intros c ->. reflexivity.
  - eapply free_of_weaken; [|exact H]. unfold breaks_token, is_sep, is_char.
    intros c Hc. apply orb_prop in Hc as [->| ->]; [|reflexivity].
    now rewrite !orb_true_r.
  - apply (free_of_contains _ _ _ H). reflexivity.
  - apply (free_of_contains _ _ _ H). reflexivity.
  - apply (free_of_contains _ _ _ H). reflexivity.
  - apply (free_of_contains _ _ _ H). reflexivity.
Qed.

(** A token in front of the rest of the text goes in front of the first
    piece of the rest. *)
Lemma re_split_token_app (tok rest : str) (b : bool) :
  free_of is_sep tok = true -> tok <> [] ->
  re_split_from b (tok ++ rest)
  = match re_split_from false rest with
    | w :: ws => (tok ++ w) :: ws
    | [] => [tok]
    end.
Proof.
  revert b. induction tok as [|c tok IH]; intros b Hf Hne; [congruence|].
  simpl in Hf. apply andb_prop in Hf as [Hc Hf]. apply negb_true_iff in Hc.
  simpl. rewrite Hc.
  destruct tok as [|c' tok].
  - simpl. destruct (re_split_from false rest); reflexivity.
  - rewrite (IH false Hf) by discriminate.
    destruct (re_split_from false rest); reflexivity.
Qed.

Lemma re_split_token (tok : str) :
  free_of is_sep tok = true -> tok <> [] -> re_split tok = [tok].
Proof.
  intros Hf Hne. unfold re_split. rewrite <- (app_nil_r tok) at 1.
  rewrite re_split_token_app by assumption. simpl. now rewrite app_nil_r.
Qed.

Lemma re_split_join (toks : list str) :
  Forall (fun tok => free_of is_sep tok = true /\ tok <> []) toks -> toks <> [] ->
  re_split (join (L ", ") toks) = toks.
Proof.
  induction 1 as [|tok toks [Hf Hne] Htoks IH]; [congruence|]. intros _.
  destruct toks as [|tok' toks].
  - simpl. now apply re_split_token.
  - change (join (L ", ") (tok :: tok' :: toks))
      with (tok ++ L ", " ++ join (L ", ") (tok' :: toks)).
    unfold re_split. rewrite re_split_token_app by assumption.
    inversion Htoks as [|? ? [Hf' Hne'] _]; subst.
    assert (E : re_split_from false (L ", " ++ join (L ", ") (tok' :: toks))
                = [] :: re_split (join (L ", ") (tok' :: toks))).
    { simpl app. cbn [re_split_from]. change (is_sep ",") with true.
      change (is_sep " ") with true. cbv iota. f_equal.
      destruct tok' as [|c t]; [congruence|].
      assert (Hc : is_sep c = false).
      { simpl in Hf'. apply andb_prop in Hf' as [Hc _]. now apply negb_true_iff. }
      unfold re_split. destruct toks; simpl; rewrite Hc; reflexivity. }
    rewrite E, app_nil_r. f_equal. apply IH. discriminate.
Qed.

Lemma stripped_items_tokens (toks : list str) :
  Forall (fun tok => free_of isspace tok = true /\ tok <> []) toks ->
  stripped_items toks = toks.
Proof.
  unfold stripped_items. induction 1 as [|tok toks [Hf Hne] _ IH]; [reflexivity|].
  simpl. rewrite (trimmed_strip tok) by now apply free_of_space_trimmed.
  destruct tok as [|c tok]; [congruence|]. simpl. rewrite IH. f_equal.
  apply (trimmed_strip (c :: tok)). now apply free_of_space_trimmed.
Qed.

(** ** Texts of numbers *)

Lemma numeric_char_not_break :
  forall c, numeric_char c = true -> breaks_token c = false.
Proof. by_chars. Qed.

Lemma numeric_char_lower : forall c, numeric_char c = true -> lower_char c = c.
Proof. by_chars. Qed.

Lemma numeric_char_not_opener :
  forall c, numeric_char c = true ->
    (Ascii.eqb c dquote || Ascii.eqb c squote || Ascii.eqb c "{"
     || Ascii.eqb c "[" || Ascii.eqb c "|") = false.
Proof. by_chars. Qed.

Lemma digit_numeric : forall c, is_digit c = true -> numeric_char c = true.
Proof. by_chars. Qed.

Lemma digit_not_mark :
  forall c, is_digit c = true ->
    (Ascii.eqb c "." || Ascii.eqb c "e" || Ascii.eqb c "-" || Ascii.eqb c "+"
     || Ascii.eqb (lower_char c) "e") = false.
Proof. by_chars. Qed.

Lemma forallb_impl {A : Type} (p q : A -> bool) (l : list A) :
  (forall a, p a = true -> q a = true) -> forallb p l = true -> forallb q l = true.
Proof.
  intros Hpq. rewrite !forallb_forall. auto.
Qed.

Lemma numeric_text_lower (t : str) : forallb numeric_char t = true -> lower t = t.
Proof.
  induction t as [|c t IH]; [reflexivity|]. simpl. intros H.
  apply andb_prop in H as [Hc Ht]. now rewrite numeric_char_lower, IH.
Qed.

Lemma numeric_text_free (t : str) :
  forallb numeric_char t = true -> free_of breaks_token t = true.
Proof.
  apply forallb_impl. intros c Hc. now rewrite numeric_char_not_break.
Qed.

Lemma numeric_text_not_literal (t : str) (lits : list str) :
  forallb numeric_char t = true ->
  Forall (fun lit => forallb numeric_char lit = false) lits ->
  str_in t lits = false.
Proof.
  intros Ht. induction 1 as [|lit lits Hl _ IH]; [reflexivity|].
  simpl. rewrite IH, orb_false_r. apply str_eqb_neq. intros ->. congruence.
Qed.

Lemma py_int_int_str (z : Z) : py_int (int_str z) = Some z.
Proof.
  destruct z as [|p|p]; [reflexivity|..].
  - rewrite int_str_pos. unfold py_int.
    pose proof (uint_text_digits (Pos.to_uint p)) as Hd.
    rewrite trimmed_strip.
    2:{ apply free_of_space_trimmed.
        eapply forallb_impl; [|exact Hd]. intros c Hc.
        now rewrite digit_not_space. }
    destruct (uint_text_pos_nonempty p) as (c & s & E & Hc).
    pose proof (uint_text_pos_value p) as Hv. rewrite E in *.
    pose proof (digit_not_mark c Hc) as Hm.
    repeat (apply orb_false_elim in Hm as [Hm ?]).
    simpl startswith. now rewrite H1, H0.
  - rewrite int_str_neg. unfold py_int.
    pose proof (uint_text_digits (Pos.to_uint p)) as Hd.
    rewrite trimmed_strip.
    2:{ apply free_of_space_trimmed. simpl.
        eapply forallb_impl; [|exact Hd]. intros c Hc.
        now rewrite digit_not_space. }
    simpl. now rewrite uint_text_pos_value.
Qed.

Lemma int_str_numeric (z : Z) :
  forallb numeric_char (int_str z) = true /\
  contains "." (int_str z) = false /\ contains "e" (int_str z) = false /\
  nonempty (int_str z) = true /\ int_str z <> L "-".
Proof.
  destruct (int_str_shape z) as (sign & digits & c & E & Hsign & Hd).
  rewrite E.
  assert (Hnum : forallb numeric_char (c :: digits) = true).
  { eapply forallb_impl; [|exact Hd]. apply digit_numeric. }
  assert (Hdot : forall m, (m = "." \/ m = "e") ->
                           contains m (c :: digits) = false).
  { intros m Hm. unfold contains.
    apply not_true_is_false. intros H. apply existsb_exists in H as (x & Hin & Hx).
    apply Ascii.eqb_eq in Hx. subst x.
    unfold digits_only in Hd. rewrite forallb_forall in Hd.
    specialize (Hd m Hin). destruct Hm as [-> | ->]; discriminate. }
  assert (Hc : is_digit c = true) by (simpl in Hd; now apply andb_prop in Hd).
  destruct Hsign as [-> | ->]; simpl app.
  - repeat split; auto. intros [= -> _]. discriminate.
  - repeat split.
    + exact Hnum.
    + exact (Hdot "." (or_introl eq_refl)).
    + exact (Hdot "e" (or_intror eq_refl)).
    + discriminate.
Qed.

Lemma join_cons_congr (sep x : str) (X X' : list str) :
  join sep X = join sep X' -> (X = [] <-> X' = []) ->
  join sep (x :: X) = join sep (x :: X').
Proof.
  intros E H. destruct X as [|a X], X' as [|a' X'].
  - reflexivity.
  - destruct H as [H _]. specialize (H eq_refl). discriminate.
  - destruct H as [_ H]. specialize (H eq_refl). discriminate.
  - change (x ++ sep ++ join sep (a :: X) = x ++ sep ++ join sep (a' :: X')).
    now rewrite E.
Qed.

Lemma join_app_congr (sep : str) (A X X' : list str) :
  join sep X = join sep X' -> (X = [] <-> X' = []) ->
  join sep (A ++ X) = join sep (A ++ X').
Proof.
  intros E H. induction A as [|a A IH]; [exact E|].
  simpl app. apply join_cons_congr; [exact IH|].
  destruct A; simpl; [exact H | split; discriminate].
Qed.

Lemma join_flatten (sep : str) (A X : list str) :
  A <> [] -> join sep (join sep A :: X) = join sep (A ++ X).
Proof.
  destruct A as [|a A]; [congruence|]. intros _. simpl app.
  rewrite !join_cons, map_app, concat_app. now rewrite app_assoc.
Qed.

(** ** The parser always returns *)

Section Properties.

Context {float : Type}.
Variable py_float : str -> option float.
Variable float_str : float -> str.

Lemma inline_pairs_returns (pairs : list str) (result : dict float) :
  returns (inline_pairs py_float pairs result).
Proof.
  revert result. induction pairs as [|p pairs IH]; intros result; simpl.
  - now eexists.
  - destruct (contains ":" p) eqn:E; simpl; [|apply IH].
    rewrite split_once_contains by assumption. apply IH.
Qed.

Lemma array_loop_returns (f : str -> outcome (list (Value float))) (b : nat) :
  (forall s, length s < b -> returns (f s)) ->
  forall chars depth item result,
    length item + length chars <= b ->
    returns (array_loop py_float f chars depth item result).
Proof.
  intros Hf. induction chars as [|c rest IH]; intros depth item result Hlen; simpl.
  - now eexists.
  - simpl in Hlen.
    destruct (Ascii.eqb c "[").
    { apply IH. rewrite length_app. simpl. lia. }
    destruct (Ascii.eqb c "]").
    { apply IH. rewrite length_app. simpl. lia. }
    destruct (Ascii.eqb c "," && (depth =? 0)%Z).
    + destruct (nonempty (strip item)); [|apply IH; simpl; lia].
      destruct (startswith "[" (strip item)); [|apply IH; simpl; lia].
      destruct (Hf (strip item)) as [a Ha].
      { pose proof (strip_length item). lia. }
      rewrite Ha. simpl. apply IH. simpl. lia.
    + apply IH. rewrite length_app. simpl. lia.
Qed.

Lemma _parse_array_returns (fuel : nat) (text : str) :
  length text < fuel -> returns (_parse_array py_float fuel text).
Proof.
  revert text. induction fuel as [|fuel IH]; intros text Hlen; [lia|].
  simpl. destruct (contains "[" (slice_1_m1 (strip text))) eqn:E.
  - apply array_loop_returns with (b := fuel); [exact IH|].
    rewrite length_app. simpl.
    pose proof (slice_1_m1_length (strip text)).
    pose proof (strip_length text).
    destruct (slice_1_m1 (strip text)) eqn:E'; [discriminate|].
    simpl in *. lia.
  - now eexists.
Qed.

Lemma _parse_value_returns (value : str) : returns (_parse_value py_float value).
Proof.
  unfold _parse_value.
  destruct (startswith "{" (strip value) && endswith "}" (strip value)).
  { destruct (inline_pairs_returns (split "," (slice_1_m1 (strip (strip value)))) [])
      as [d Hd].
    unfold _parse_inline_object. rewrite Hd. simpl. now eexists. }
  destruct (startswith "[" (strip value) && endswith "]" (strip value)).
  { destruct (_parse_array_returns (S (length (strip value))) (strip value))
      as [a Ha]; [lia|].
    rewrite Ha. simpl. now eexists. }
  destruct (contains "," (strip value)
            || contains " " (strip value) && negb (startswith dquote (strip value)));
    now eexists.
Qed.

Lemma multiline_loop_cursor (n : nat) (lines : list str) (i indent : nat)
    (acc : list str) :
  i <= snd (multiline_loop n lines i indent acc).
Proof.
  revert i acc. induction n as [|n IH]; intros i acc; simpl; [lia|].
  destruct (i <? length lines); [|simpl; lia].
  destruct ((_get_indent (nth i lines []) <=? indent)
            && nonempty (strip (nth i lines []))); [simpl; lia|].
  specialize (IH (i + 1) (acc ++
    [if indent + 2 <? length (nth i lines [])
     then slice_from (indent + 2) (nth i lines []) else []])). lia.
Qed.

Lemma nested_loop_bounds (n : nat) (lines : list str) (i indent : nat)
    (acc : list str) :
  i <= snd (nested_loop n lines i indent acc) /\
  length (fst (nested_loop n lines i indent acc)) <= length acc + n.
Proof.
  revert i acc. induction n as [|n IH]; intros i acc; simpl; [lia|].
  destruct (i <? length lines); [|simpl; lia].
  destruct (negb (nonempty (strip (nth i lines [])))
            || startswith "#" (strip (nth i lines []))).
  { specialize (IH (i + 1) acc). lia. }
  destruct (_get_indent (nth i lines []) <=? indent); [simpl; lia|].
  specialize (IH (i + 1) (acc ++ [nth i lines []])).
  rewrite length_app in IH. simpl in IH. lia.
Qed.

Lemma block_loop_returns (fuel : nat) :
  forall (lines : list str) (start_indent i : nat) (result : dict float),
    length lines - i < fuel ->
    returns (block_loop py_float fuel lines start_indent i result).
Proof.
  induction fuel as [|fuel IH]; intros lines start_indent i result Hlen; [lia|].
  simpl. destruct (i <? length lines) eqn:Hi; [|now eexists].
  apply Nat.ltb_lt in Hi.
  set (line := nth i lines []).
  destruct (negb (nonempty (strip line)) || startswith "#" (strip line)).
  { apply IH. lia. }
  destruct (_get_indent line <? start_indent); [now eexists|].
  destruct (start_indent <? _get_indent line).
  { apply IH. lia. }
  destruct (contains ":" (strip (_remove_inline_comment line))) eqn:Hc; simpl.
  2:{ apply IH. lia. }
  unfold _split_key_value. rewrite split_once_contains by assumption. simpl.
  set (key := strip (before ":" _)). set (value := strip (after ":" _)).
  destruct (str_eqb value _).
  { unfold _parse_multiline.
    pose proof (multiline_loop_cursor (length lines - (i + 1)) lines (i + 1)
                  (_get_indent line) []) as Hm.
    destruct (multiline_loop _ lines (i + 1) _ []) as [tl i'].
    simpl in Hm. apply IH. lia. }
  destruct (negb (nonempty value)).
  { unfold _parse_nested.
    pose proof (nested_loop_bounds (length lines - (i + 1)) lines (i + 1)
                  (_get_indent line) []) as [Hn1 Hn2].
    destruct (nested_loop _ lines (i + 1) _ []) as [nl i'].
    simpl in Hn1, Hn2. destruct nl as [|l nl].
    - simpl. apply IH. lia.
    - destruct (IH (l :: nl) (_get_indent line + 2) 0 []) as [[d j] Hd];
        [simpl in *; lia|].
      rewrite Hd. simpl. apply IH. lia. }
  destruct (_parse_value_returns value) as [v Hv]. rewrite Hv. simpl.
  apply IH. lia.
Qed.

(** The loops of [parse] come to an end on every text and none of the
    branches of the block loop raises: when nothing bounds the depth of
    the calls, [parse] returns. *)
Lemma parse_returns (text : str) : returns (parse py_float text).
Proof.
  unfold parse, _parse_block.
  destruct (block_loop_returns (S (length (split newline (strip text))))
              (split newline (strip text)) 0 0 []) as [[d j] H]; [lia|].
  rewrite H. simpl. now eexists.
Qed.

(** C9. Whitespace and line breaks around the text do not change the
    result of [parse]. *)
Theorem parse_surrounding_whitespace (p t s : str) :
  all_space p = true -> all_space s = true ->
  parse py_float (p ++ t ++ s) = parse py_float t.
Proof.
  intros Hp Hs. unfold parse. now rewrite strip_surround.
Qed.

(** ** The loops, seen from the cursor *)

Lemma is_content_negb (line : str) :
  negb (nonempty (strip line)) || startswith "#" (strip line)
  = negb (is_content line).
Proof.
  unfold is_content. now rewrite negb_andb, negb_involutive.
Qed.

Lemma multiline_loop_scan (rest pre : list str) (indent : nat) (acc : list str) :
  multiline_loop (length rest) (pre ++ rest) (length pre) indent acc
  = (acc ++ fst (multiline_scan indent rest),
     length pre + snd (multiline_scan indent rest)).
Proof.
  revert pre acc. induction rest as [|l rest IH]; intros pre acc; simpl.
  - now rewrite app_nil_r, Nat.add_0_r.
  - rewrite length_app. simpl.
    replace (length pre <? length pre + S (length rest)) with true
      by (symmetry; apply Nat.ltb_lt; lia).
    rewrite nth_middle.
    destruct ((_get_indent l <=? indent) && nonempty (strip l)); simpl.
    + now rewrite app_nil_r, Nat.add_0_r.
    + specialize (IH (pre ++ [l])). rewrite <- app_assoc in IH. simpl in IH.
      rewrite length_app in IH. simpl in IH. rewrite IH.
      destruct (multiline_scan indent rest) as [tl k]. simpl.
      rewrite <- app_assoc. simpl. f_equal. lia.
Qed.

Lemma nested_loop_scan (rest pre : list str) (indent : nat) (acc : list str) :
  nested_loop (length rest) (pre ++ rest) (length pre) indent acc
  = (acc ++ fst (nested_scan indent rest),
     length pre + snd (nested_scan indent rest)).
Proof.
  revert pre acc. induction rest as [|l rest IH]; intros pre acc; simpl.
  - now rewrite app_nil_r, Nat.add_0_r.
  - rewrite length_app. simpl.
    replace (length pre <? length pre + S (length rest)) with true
      by (symmetry; apply Nat.ltb_lt; lia).
    rewrite nth_middle, is_content_negb.
    pose proof (IH (pre ++ [l])) as IH'. rewrite <- app_assoc in IH'. simpl in IH'.
    rewrite length_app in IH'. simpl in IH'.
    destruct (negb (is_content l)); simpl.
    + rewrite IH'. destruct (nested_scan indent rest) as [nl k]. simpl.
      f_equal. lia.
    + destruct (_get_indent l <=? indent); simpl.
      * now rewrite app_nil_r, Nat.add_0_r.
      * rewrite IH'. destruct (nested_scan indent rest) as [nl k]. simpl.
        rewrite <- app_assoc. simpl. f_equal. lia.
Qed.

Lemma _parse_multiline_scan (pre rest : list str) (l : str) (indent : nat) :
  @_parse_multiline float (pre ++ l :: rest) (length pre) indent
  = (VStr (rstrip (join [newline] (fst (multiline_scan indent rest)))),
     length pre + 1 + snd (multiline_scan indent rest)).
Proof.
  unfold _parse_multiline.
  replace (length (pre ++ l :: rest) - (length pre + 1)) with (length rest)
    by (rewrite length_app; simpl; lia).
  pose proof (multiline_loop_scan rest (pre ++ [l]) indent []) as H.
  rewrite <- app_assoc, length_app in H. simpl in H. rewrite H. reflexivity.
Qed.

Lemma _parse_nested_scan (f : list str -> nat -> outcome (dict float * nat))
    (pre rest : list str) (l : str) (indent : nat) :
  _parse_nested f (pre ++ l :: rest) (length pre) indent
  = match fst (nested_scan indent rest) with
    | _ :: _ =>
        r <- f (fst (nested_scan indent rest)) (indent + 2) ;;
        Return (VDict (fst r), length pre + 1 + snd (nested_scan indent rest))
    | [] => Return (VNone, length pre + 1)
    end.
Proof.
  unfold _parse_nested.
  replace (length (pre ++ l :: rest) - (length pre + 1)) with (length rest)
    by (rewrite length_app; simpl; lia).
  pose proof (nested_loop_scan rest (pre ++ [l]) indent []) as H.
  rewrite <- app_assoc, length_app in H. simpl in H. rewrite H. reflexivity.
Qed.

Lemma shift_shift {A : Type} (a b : nat) (r : outcome (A * nat)) :
  shift a (shift b r) = shift (a + b) r.
Proof.
  destruct r as [[x j]| |]; simpl; [|reflexivity..]. f_equal. f_equal. lia.
Qed.

(** The block loop at cursor [length pre] of [pre ++ rest] is the block
    loop at cursor [0] of [rest], with the cursor moved. *)
Lemma block_loop_shift (fuel : nat) :
  forall (pre rest : list str) (start_indent : nat) (result : dict float),
    block_loop py_float fuel (pre ++ rest) start_indent (length pre) result
    = shift (length pre) (block_loop py_float fuel rest start_indent 0 result).
Proof.
  induction fuel as [|fuel IH]; intros pre rest start_indent result; [reflexivity|].
  destruct rest as [|l rest].
  { simpl. rewrite app_nil_r, Nat.ltb_irrefl, Nat.add_0_r. reflexivity. }
  assert (Hnext : forall r,
    block_loop py_float fuel (pre ++ l :: rest) start_indent (length pre + 1) r
    = shift (length pre)
        (block_loop py_float fuel (l :: rest) start_indent (0 + 1) r)).
  { intros r. pose proof (IH (pre ++ [l]) rest start_indent r) as H1.
    rewrite <- app_assoc, length_app in H1. simpl in H1. rewrite H1.
    pose proof (IH [l] rest start_indent r) as H2. simpl in H2.
    simpl. rewrite H2, shift_shift. reflexivity. }
  assert (Hjump : forall k r,
    block_loop py_float fuel (pre ++ l :: rest) start_indent (length pre + 1 + k) r
    = shift (length pre)
        (block_loop py_float fuel (l :: rest) start_indent (0 + 1 + k) r)).
  { intros k r.
    assert (Hk : k <= length rest \/ length rest < k) by lia.
    destruct Hk as [Hk|Hk].
    - pose proof (IH (pre ++ l :: firstn k rest) (skipn k rest) start_indent r) as H1.
      rewrite <- app_assoc in H1. simpl in H1. rewrite firstn_skipn in H1.
      rewrite length_app in H1. simpl in H1. rewrite firstn_length_le in H1 by lia.
      replace (length pre + 1 + k) with (length pre + S k) by lia. rewrite H1.
      pose proof (IH (l :: firstn k rest) (skipn k rest) start_indent r) as H2.
      simpl in H2. rewrite firstn_skipn in H2.
      rewrite firstn_length_le in H2 by lia.
      simpl. rewrite H2, shift_shift. reflexivity.
    - destruct fuel as [|fuel']; [reflexivity|]. simpl.
      replace (length pre + 1 + k <? length (pre ++ l :: rest)) with false
        by (symmetry; apply Nat.ltb_ge; rewrite length_app; simpl; lia).
      replace (S k <? S (length rest)) with false
        by (symmetry; apply Nat.ltb_ge; lia).
      simpl. f_equal. f_equal. lia. }
  cbn [block_loop].
  replace (length pre <? length (pre ++ l :: rest)) with true
    by (symmetry; apply Nat.ltb_lt; rewrite length_app; simpl; lia).
  rewrite nth_middle.
  change (0 <? length (l :: rest)) with true.
  change (nth 0 (l :: rest) []) with l. cbv iota.
  destruct (negb (nonempty (strip l)) || startswith "#" (strip l)).
  { apply Hnext. }
  destruct (_get_indent l <? start_indent).
  { simpl. now rewrite Nat.add_0_r. }
  destruct (start_indent <? _get_indent l).
  { apply Hnext. }
  destruct (negb (contains ":" (strip (_remove_inline_comment l)))).
  { apply Hnext. }
  destruct (_split_key_value (strip (_remove_inline_comment l))) as [[key value]| |];
    [|reflexivity..].
  cbn [bind].
  destruct (str_eqb value (L "|")).
  { rewrite _parse_multiline_scan.
    pose proof (@_parse_multiline_scan [] rest l (_get_indent l)) as H0.
    simpl app in H0. simpl length in H0. rewrite H0.
    apply Hjump. }
  destruct (negb (nonempty value)).
  { rewrite _parse_nested_scan.
    pose proof (_parse_nested_scan
                  (fun ls n => block_loop py_float fuel ls n 0 []) [] rest l
                  (_get_indent l)) as H0.
    simpl app in H0. simpl length in H0. rewrite H0.
    destruct (fst (nested_scan (_get_indent l) rest)) as [|x nl].
    - cbn [bind]. apply Hnext.
    - destruct (block_loop py_float fuel (x :: nl) (_get_indent l + 2) 0 [])
        as [[d j]| |]; [|reflexivity..].
      cbn [bind fst]. apply Hjump. }
  destruct (_parse_value py_float value) as [v| |]; [|reflexivity..].
  cbn [bind]. apply Hnext.
Qed.

Lemma multiline_scan_le (indent : nat) (rest : list str) :
  snd (multiline_scan indent rest) <= length rest.
Proof.
  induction rest as [|l rest IH]; simpl; [lia|].
  destruct ((_get_indent l <=? indent) && nonempty (strip l)); simpl; [lia|].
  destruct (multiline_scan indent rest). simpl in *. lia.
Qed.

Lemma nested_scan_le (indent : nat) (rest : list str) :
  snd (nested_scan indent rest) <= length rest.
Proof.
  induction rest as [|l rest IH]; simpl; [lia|].
  destruct (negb (is_content l)).
  { destruct (nested_scan indent rest). simpl in *. lia. }
  destruct (_get_indent l <=? indent); simpl; [lia|].
  destruct (nested_scan indent rest). simpl in *. lia.
Qed.

Lemma block_loop_jump (fuel k : nat) (l : str) (rest : list str)
    (start_indent : nat) (result : dict float) :
  k <= length rest ->
  block_loop py_float fuel (l :: rest) start_indent (1 + k) result
  = shift (1 + k) (block_loop py_float fuel (skipn k rest) start_indent 0 result).
Proof.
  intros Hk.
  pose proof (block_loop_shift fuel (l :: firstn k rest) (skipn k rest)
                start_indent result) as H.
  simpl in H. rewrite firstn_skipn, firstn_length_le in H by lia. exact H.
Qed.

(** One iteration of the block loop, on the lines from the cursor on. *)
Lemma block_loop_cons (fuel : nat) (l : str) (rest : list str)
    (start_indent : nat) (result : dict float) :
  block_loop py_float (S fuel) (l :: rest) start_indent 0 result
  = let continue := fun r =>
      shift 1 (block_loop py_float fuel rest start_indent 0 r) in
    if negb (is_content l) then continue result
    else if _get_indent l <? start_indent then Return (result, 0)
    else if start_indent <? _get_indent l then continue result
    else
      let line := strip (_remove_inline_comment l) in
      if negb (contains ":" line) then continue result
      else
        '(key, value) <- _split_key_value line ;;
        if str_eqb value (L "|") then
          let '(text_lines, k) := multiline_scan (_get_indent l) rest in
          shift (1 + k)
            (block_loop py_float fuel (skipn k rest) start_indent 0
               (dict_set result key (VStr (rstrip (join [newline] text_lines)))))
        else if negb (nonempty value) then
          match nested_scan (_get_indent l) rest with
          | ([], _) => continue (dict_set result key VNone)
          | (nested_lines, k) =>
              r <- block_loop py_float fuel nested_lines (_get_indent l + 2) 0 [] ;;
              shift (1 + k)
                (block_loop py_float fuel (skipn k rest) start_indent 0
                   (dict_set result key (VDict (fst r))))
          end
        else
          v <- _parse_value py_float value ;;
          continue (dict_set result key v).
Proof.
  assert (Hnext : forall r,
    block_loop py_float fuel (l :: rest) start_indent (0 + 1) r
    = shift 1 (block_loop py_float fuel rest start_indent 0 r)).
  { intros r. apply (block_loop_shift fuel [l] rest). }
  cbn [block_loop].
  change (0 <? length (l :: rest)) with true.
  change (nth 0 (l :: rest) []) with l. cbv iota zeta.
  rewrite is_content_negb.
  destruct (negb (is_content l)); [apply Hnext|].
  destruct (_get_indent l <? start_indent); [reflexivity|].
  destruct (start_indent <? _get_indent l); [apply Hnext|].
  destruct (negb (contains ":" (strip (_remove_inline_comment l)))); [apply Hnext|].
  destruct (_split_key_value (strip (_remove_inline_comment l))) as [[key value]| |];
    [|reflexivity..].
  cbn [bind].
  destruct (str_eqb value (L "|")).
  { pose proof (@_parse_multiline_scan [] rest l (_get_indent l)) as H0.
    simpl app in H0. simpl length in H0. rewrite H0.
    pose proof (multiline_scan_le (_get_indent l) rest) as Hle.
    destruct (multiline_scan (_get_indent l) rest) as [tl k]. simpl in Hle.
    cbn [fst snd]. now apply block_loop_jump. }
  destruct (negb (nonempty value)).
  { pose proof (_parse_nested_scan
                  (fun ls n => block_loop py_float fuel ls n 0 []) [] rest l
                  (_get_indent l)) as H0.
    simpl app in H0. simpl length in H0. rewrite H0.
    pose proof (nested_scan_le (_get_indent l) rest) as Hle.
    destruct (nested_scan (_get_indent l) rest) as [[|x nl] k]; simpl in Hle;
      cbn [fst snd bind].
    - apply Hnext.
    - destruct (block_loop py_float fuel (x :: nl) (_get_indent l + 2) 0 [])
        as [[d j]| |]; [|reflexivity..].
      cbn [bind fst]. now apply block_loop_jump. }
  destruct (_parse_value py_float value) as [v| |]; [|reflexivity..].
  cbn [bind]. apply Hnext.
Qed.

(** More fuel does not change a result. *)
Lemma block_loop_fuel_mono (fuel : nat) :
  forall (lines : list str) (start_indent i : nat) (result : dict float) r,
    block_loop py_float fuel lines start_indent i result = Return r ->
    forall fuel', fuel <= fuel' ->
      block_loop py_float fuel' lines start_indent i result = Return r.
Proof.
  induction fuel as [|fuel IH]; intros lines start_indent i result r H fuel' Hle;
    [discriminate|].
  destruct fuel' as [|fuel']; [lia|]. apply le_S_n in Hle.
  cbn [block_loop] in *.
  destruct (i <? length lines); [|exact H].
  destruct (negb (nonempty (strip (nth i lines [])))
            || startswith "#" (strip (nth i lines []))); [now apply IH with (1 := H)|].
  destruct (_get_indent (nth i lines []) <? start_indent); [exact H|].
  destruct (start_indent <? _get_indent (nth i lines []));
    [now apply IH with (1 := H)|].
  destruct (negb (contains ":" (strip (_remove_inline_comment (nth i lines [])))));
    [now apply IH with (1 := H)|].
  destruct (_split_key_value _) as [[key value]| |]; [|discriminate..].
  cbn [bind] in *.
  destruct (str_eqb value (L "|")).
  { destruct (_parse_multiline lines i _) as [v j]. now apply IH with (1 := H). }
  destruct (negb (nonempty value)).
  { unfold _parse_nested in *.
    destruct (nested_loop _ lines (i + 1) _ []) as [[|x nl] j]; cbn [bind] in *.
    - now apply IH with (1 := H).
    - destruct (block_loop py_float fuel (x :: nl) _ 0 []) as [[d j']| |] eqn:E;
        [|discriminate..].
      rewrite (IH _ _ _ _ _ E fuel' Hle). cbn [bind fst] in *.
      now apply IH with (1 := H). }
  destruct (_parse_value py_float value) as [v| |]; [|discriminate..].
  cbn [bind] in *. now apply IH with (1 := H).
Qed.

(** ** Lines that carry a key *)

Lemma safe_key_facts (k : str) :
  safe_key k = true ->
  contains ":" k = false /\ contains "#" k = false /\
  contains newline k = false /\ strip k = k /\
  (k = [] \/ (starts_nonspace k = true /\ ends_nonspace k = true)).
Proof.
  unfold safe_key. intros H. apply andb_prop in H as [Hf Ht].
  repeat split.
  - apply (free_of_contains _ _ _ Hf). reflexivity.
  - apply (free_of_contains _ _ _ Hf). reflexivity.
  - apply (free_of_contains _ _ _ Hf). reflexivity.
  - now apply trimmed_strip.
  - unfold trimmed in Ht. destruct k as [|c k]; [auto|].
    simpl orb in Ht. apply andb_prop in Ht. auto.
Qed.

Lemma startswith_contains (c : ascii) (s : str) :
  contains c s = false -> startswith c s = false.
Proof.
  destruct s as [|x s]; [reflexivity|]. simpl.
  rewrite Ascii.eqb_sym. now destruct (Ascii.eqb x c).
Qed.

(** The line made of [n] indentation steps, the key [k], a colon and the
    tail [u] is read at level [2 * n] as [k] with the value text
    [strip u]. *)
Lemma key_line_make (n : nat) (k u : str) :
  safe_key k = true ->
  contains "#" u = false ->
  u = [] \/ ends_nonspace u = true ->
  key_line (2 * n) (str_mul (L "  ") n ++ k ++ ":" :: u) = Some (k, strip u).
Proof.
  intros Hk Hu Hend.
  destruct (safe_key_facts k Hk) as (Hcol & Hhash & _ & Hstrip & Hshape).
  set (body := k ++ ":" :: u).
  assert (Hs : starts_nonspace body = true).
  { unfold body. destruct Hshape as [->|[H _]]; [reflexivity|].
    now apply starts_nonspace_app. }
  assert (He : ends_nonspace body = true).
  { unfold body. destruct Hend as [->|H].
    - now rewrite ends_nonspace_snoc.
    - change (k ++ ":" :: u) with (k ++ [":"] ++ u). rewrite app_assoc.
      now apply ends_nonspace_app. }
  assert (Hb : contains "#" body = false).
  { unfold body. rewrite contains_app, Hhash. simpl. exact Hu. }
  pose proof (all_space_str_mul n) as Hind.
  unfold key_line, is_content, _remove_inline_comment.
  rewrite contains_app, Hb, orb_false_r.
  replace (contains "#" (str_mul (L "  ") n)) with false.
  2:{ symmetry. clear. induction n; [reflexivity | exact IHn]. }
  rewrite indented_strip, indented_indent by assumption.
  rewrite str_mul_length, Nat.eqb_refl.
  rewrite (startswith_contains _ _ Hb).
  replace (nonempty body) with true by (unfold body; now destruct k).
  simpl andb. cbv iota.
  unfold split_once, body. rewrite contains_middle.
  rewrite before_app_sep, after_app_sep by assumption.
  now rewrite Hstrip.
Qed.

(** ** Lines deeper than the block *)

Lemma nested_scan_all_deeper (indent : nat) (children : list str) :
  Forall (fun l => is_content l = true -> indent < _get_indent l) children ->
  nested_scan indent children = (filter is_content children, length children).
Proof.
  induction 1 as [|l children Hl _ IH]; [reflexivity|].
  simpl. destruct (is_content l) eqn:E; simpl; rewrite IH; [|reflexivity].
  specialize (Hl eq_refl).
  replace (_get_indent l <=? indent) with false
    by (symmetry; apply Nat.leb_gt; lia).
  reflexivity.
Qed.

Lemma block_loop_skip_deeper (fuel : nat) (lines : list str) (start_indent : nat)
    (result : dict float) :
  Forall (fun l => is_content l = true -> start_indent < _get_indent l) lines ->
  length lines < fuel ->
  block_loop py_float fuel lines start_indent 0 result
  = Return (result, length lines).
Proof.
  intros H. revert fuel. induction H as [|l lines Hl _ IH]; intros fuel Hf.
  - destruct fuel; [lia|]. reflexivity.
  - destruct fuel as [|fuel]; [lia|]. simpl in Hf.
    rewrite block_loop_cons. cbv beta zeta.
    rewrite IH by lia. simpl.
    destruct (is_content l) eqn:E; simpl; [|reflexivity].
    specialize (Hl eq_refl).
    replace (_get_indent l <? start_indent) with false
      by (symmetry; apply Nat.ltb_ge; lia).
    replace (start_indent <? _get_indent l) with true
      by (symmetry; apply Nat.ltb_lt; lia).
    reflexivity.
Qed.

Lemma key_line_inv (start_indent : nat) (l key value : str) :
  key_line start_indent l = Some (key, value) ->
  is_content l = true /\ _get_indent l = start_indent /\
  contains ":" (strip (_remove_inline_comment l)) = true /\
  _split_key_value (strip (_remove_inline_comment l)) = Return (key, value).
Proof.
  unfold key_line, _split_key_value, split_once.
  destruct (is_content l); [|discriminate].
  destruct (_get_indent l =? start_indent) eqn:E; [|discriminate].
  apply Nat.eqb_eq in E. simpl.
  destruct (contains ":" (strip (_remove_inline_comment l))); [|discriminate].
  intros [= <- <-]. auto.
Qed.

(** One iteration of the block loop on a line that it reads as a key with
    a value. *)
Lemma block_loop_key_line (fuel : nat) (l key value : str) (rest : list str)
    (start_indent : nat) (result : dict float) :
  key_line start_indent l = Some (key, value) ->
  block_loop py_float (S fuel) (l :: rest) start_indent 0 result
  = if str_eqb value (L "|") then
      let '(text_lines, k) := multiline_scan start_indent rest in
      shift (1 + k)
        (block_loop py_float fuel (skipn k rest) start_indent 0
           (dict_set result key (VStr (rstrip (join [newline] text_lines)))))
    else if negb (nonempty value) then
      match nested_scan start_indent rest with
      | ([], _) =>
          shift 1 (block_loop py_float fuel rest start_indent 0
                     (dict_set result key VNone))
      | (nested_lines, k) =>
          r <- block_loop py_float fuel nested_lines (start_indent + 2) 0 [] ;;
          shift (1 + k)
            (block_loop py_float fuel (skipn k rest) start_indent 0
               (dict_set result key (VDict (fst r))))
      end
    else
      v <- _parse_value py_float value ;;
      shift 1 (block_loop py_float fuel rest start_indent 0
                 (dict_set result key v)).
Proof.
  intros H. apply key_line_inv in H as (Hc & Hi & Hcol & Hsplit).
  rewrite block_loop_cons. cbv beta zeta. rewrite Hc, Hi, Nat.ltb_irrefl, Hcol, Hsplit.
  reflexivity.
Qed.

(** C2, as the code has it.  A key whose children are all indented by more
    than 2 beyond it (a 4-space step, say) is bound to an empty dictionary:
    the children are collected, the nested block is parsed at the level of
    the key plus 2, and there every one of them is deeper than the block
    and is skipped. *)
Theorem deeper_children_are_skipped (fuel : nat) (header key : str)
    (children : list str) (start_indent : nat) :
  key_line start_indent header = Some (key, []) ->
  Forall (fun l => is_content l = true -> start_indent + 2 < _get_indent l)
    children ->
  Exists (fun l => is_content l = true) children ->
  length children + 1 < fuel ->
  _parse_block py_float fuel (header :: children) start_indent
  = Return ([(key, VDict [])], S (length children)).
Proof.
  intros Hk Hdeep Hex Hfuel. unfold _parse_block.
  destruct fuel as [|fuel]; [lia|].
  rewrite (block_loop_key_line _ _ _ _ _ _ _ Hk). simpl negb. cbv iota.
  rewrite nested_scan_all_deeper.
  2:{ eapply Forall_impl; [|exact Hdeep]. simpl. intros l H Hc.
      specialize (H Hc). lia. }
  assert (Hne : filter is_content children <> []).
  { apply Exists_exists in Hex as (l & Hin & Hc).
    intros E. assert (Hin' : In l (filter is_content children))
      by (apply filter_In; auto).
    rewrite E in Hin'. destruct Hin'. }
  destruct (filter is_content children) as [|x nl] eqn:E; [congruence|].
  rewrite <- E. rewrite block_loop_skip_deeper.
  - cbn [bind fst]. rewrite skipn_all. destruct fuel; [lia|]. simpl.
    now rewrite Nat.add_0_r.
  - apply Forall_forall. intros l Hin Hc. apply filter_In in Hin as [Hin _].
    rewrite Forall_forall in Hdeep. now apply Hdeep.
  - pose proof (filter_length_le is_content children). lia.
Qed.

(** ** Repeated keys *)

Lemma dict_get_set_same (d : dict float) (k : str) (v : Value float) :
  dict_get (dict_set d k v) k = Some v.
Proof.
  induction d as [|[k' v'] d IH]; simpl.
  - now rewrite str_eqb_refl.
  - destruct (str_eqb k' k) eqn:E; simpl; rewrite E; [reflexivity | exact IH].
Qed.

Lemma dict_set_keys_in (d : dict float) (k k0 : str) (v : Value float) :
  In k0 (keys (dict_set d k v)) -> k0 = k \/ In k0 (keys d).
Proof.
  induction d as [|[k' v'] d IH]; simpl.
  - intros [H|[]]; auto.
  - destruct (str_eqb k' k) eqn:E; simpl.
    + intros [H|H]; auto.
    + intros [H|H]; auto. destruct (IH H); auto.
Qed.

Lemma dict_set_keys_nodup (d : dict float) (k : str) (v : Value float) :
  NoDup (keys d) -> NoDup (keys (dict_set d k v)).
Proof.
  induction d as [|[k' v'] d IH]; simpl; intros H.
  - constructor; [intros []|constructor].
  - inversion H as [|? ? Hnin Hnd]; subst.
    destruct (str_eqb k' k) eqn:E; simpl.
    + now constructor.
    + constructor; [|auto]. intros Hin.
      apply dict_set_keys_in in Hin as [->|Hin]; [|contradiction].
      now rewrite str_eqb_refl in E.
Qed.

(** The keys of a parsed block are pairwise distinct. *)
Lemma block_loop_keys_nodup (fuel : nat) :
  forall (lines : list str) (start_indent i : nat) (result d : dict float) j,
    NoDup (keys result) ->
    block_loop py_float fuel lines start_indent i result = Return (d, j) ->
    NoDup (keys d).
Proof.
  induction fuel as [|fuel IH]; intros lines start_indent i result d j Hnd H;
    [discriminate|].
  cbn [block_loop] in H.
  destruct (i <? length lines); [|now injection H as <- <-].
  destruct (negb (nonempty (strip (nth i lines [])))
            || startswith "#" (strip (nth i lines []))); [now eapply IH; eauto|].
  destruct (_get_indent (nth i lines []) <? start_indent);
    [now injection H as <- <-|].
  destruct (start_indent <? _get_indent (nth i lines [])); [now eapply IH; eauto|].
  destruct (negb (contains ":" (strip (_remove_inline_comment (nth i lines [])))));
    [now eapply IH; eauto|].
  destruct (_split_key_value _) as [[key value]| |]; [|discriminate..].
  cbn [bind] in H.
  destruct (str_eqb value (L "|")).
  { destruct (_parse_multiline lines i _) as [v i'].
    eapply IH; [|exact H]. now apply dict_set_keys_nodup. }
  destruct (negb (nonempty value)).
  { destruct (_parse_nested _ lines i _) as [[v i']| |]; [|discriminate..].
    cbn [bind] in H. eapply IH; [|exact H]. now apply dict_set_keys_nodup. }
  destruct (_parse_value py_float value) as [v| |]; [|discriminate..].
  cbn [bind] in H. eapply IH; [|exact H]. now apply dict_set_keys_nodup.
Qed.

(** A content line at the level of the header, or above it, ends both
    scans: lines put after it do not matter. *)
Lemma multiline_scan_stop (indent : nat) (ls : list str) (l : str) (post : list str) :
  is_content l = true -> _get_indent l <= indent ->
  multiline_scan indent (ls ++ l :: post) = multiline_scan indent ls.
Proof.
  intros Hc Hi. induction ls as [|x ls IH]; simpl.
  - replace (_get_indent l <=? indent) with true
      by (symmetry; apply Nat.leb_le; lia).
    unfold is_content in Hc. apply andb_prop in Hc as [-> _]. reflexivity.
  - now rewrite IH.
Qed.

Lemma nested_scan_stop (indent : nat) (ls : list str) (l : str) (post : list str) :
  is_content l = true -> _get_indent l <= indent ->
  nested_scan indent (ls ++ l :: post) = nested_scan indent ls.
Proof.
  intros Hc Hi. induction ls as [|x ls IH]; simpl.
  - rewrite Hc. simpl.
    replace (_get_indent l <=? indent) with true
      by (symmetry; apply Nat.leb_le; lia).
    reflexivity.
  - now rewrite IH.
Qed.

Lemma Forall_skipn {A : Type} (P : A -> Prop) (k : nat) (l : list A) :
  Forall P l -> Forall P (skipn k l).
Proof.
  intros H. rewrite <- (firstn_skipn k l) in H.
  now apply Forall_app in H as [_ H].
Qed.

Lemma skipn_app_le {A : Type} (k : nat) (l1 l2 : list A) :
  k <= length l1 -> skipn k (l1 ++ l2) = skipn k l1 ++ l2.
Proof.
  intros H. rewrite skipn_app. replace (k - length l1) with 0 by lia.
  reflexivity.
Qed.

Lemma shift_return {A : Type} (k : nat) (m : outcome (A * nat)) (r : A * nat) :
  shift k m = Return r -> m = Return (fst r, snd r - k).
Proof.
  destruct m as [[a j]| |]; simpl; [|discriminate..].
  intros [= <-]. simpl. do 2 f_equal. lia.
Qed.

Lemma dict_get_set_other (d : dict float) (k k' : str) (v : Value float) :
  k' <> k -> dict_get (dict_set d k' v) k = dict_get d k.
Proof.
  intros Hne. induction d as [|[k0 v0] d IH]; simpl.
  - now rewrite (proj2 (str_eqb_neq k' k)).
  - destruct (str_eqb k0 k') eqn:E; simpl.
    + apply str_eqb_eq in E. subst k0.
      now rewrite (proj2 (str_eqb_neq k' k)).
    + now rewrite IH.
Qed.

Lemma key_line_intro (start_indent : nat) (l : str) :
  is_content l = true -> _get_indent l = start_indent ->
  contains ":" (strip (_remove_inline_comment l)) = true ->
  key_line start_indent l
  = Some (strip (before ":" (strip (_remove_inline_comment l))),
          strip (after ":" (strip (_remove_inline_comment l)))).
Proof.
  intros Hc Hi Hcol. unfold key_line.
  now rewrite Hc, Hi, Nat.eqb_refl, (split_once_contains _ _ Hcol).
Qed.

(** The block loop over lines none of which binds [key] at the level of
    the block leaves the value of [key] as it was. *)
Lemma block_loop_preserves (key : str) (fuel : nat) :
  forall (rest : list str) (start_indent : nat) (result : dict float) r,
    Forall (fun x => forall v, key_line start_indent x <> Some (key, v)) rest ->
    block_loop py_float fuel rest start_indent 0 result = Return r ->
    dict_get (fst r) key = dict_get result key.
Proof.
  induction fuel as [|fuel IH]; intros rest start_indent result r Hrest H;
    [discriminate|].
  destruct rest as [|x rest]; [now injection H as <-|].
  inversion Hrest as [|? ? Hx Hrest']; subst.
  assert (Hcont : forall res k,
    shift (1 + k) (block_loop py_float fuel (skipn k rest) start_indent 0 res)
    = Return r -> dict_get (fst r) key = dict_get res key).
  { intros res k Hs. apply shift_return in Hs.
    apply IH in Hs; [exact Hs | now apply Forall_skipn]. }
  rewrite block_loop_cons in H. cbv beta zeta in H.
  destruct (negb (is_content x)) eqn:Hc; [apply (Hcont result 0 H)|].
  apply negb_false_iff in Hc.
  destruct (_get_indent x <? start_indent) eqn:Hlt; [now injection H as <-|].
  destruct (start_indent <? _get_indent x) eqn:Hgt; [apply (Hcont result 0 H)|].
  apply Nat.ltb_ge in Hlt, Hgt.
  destruct (contains ":" (strip (_remove_inline_comment x))) eqn:Hcol;
    simpl negb in H; cbv iota in H; [|apply (Hcont result 0 H)].
  pose proof (key_line_intro start_indent x Hc ltac:(lia) Hcol) as Hkl.
  unfold _split_key_value in H. rewrite (split_once_contains _ _ Hcol) in H.
  cbn [bind] in H.
  set (key' := strip (before ":" _)) in *. set (value' := strip (after ":" _)) in *.
  assert (Hne : key' <> key) by (intros ->; now apply (Hx value')).
  destruct (str_eqb value' (L "|")).
  { destruct (multiline_scan (_get_indent x) rest) as [tl k].
    rewrite (Hcont _ _ H). now apply dict_get_set_other. }
  destruct (negb (nonempty value')).
  { destruct (nested_scan (_get_indent x) rest) as [[|y nl] k].
    - rewrite (Hcont _ 0 H). now apply dict_get_set_other.
    - destruct (block_loop py_float fuel (y :: nl) _ 0 []) as [[d0 j0]| |];
        [|discriminate..].
      cbn [bind] in H. rewrite (Hcont _ _ H). now apply dict_get_set_other. }
  destruct (_parse_value py_float value') as [v'| |]; [|discriminate..].
  cbn [bind] in H. rewrite (Hcont _ 0 H). now apply dict_get_set_other.
Qed.

(** The block loop over lines none of which is shallower than the block
    comes to the next line of the block that follows them. *)
Lemma block_loop_reach (fuel : nat) :
  forall (ls : list str) (l : str) (post : list str) (start_indent : nat)
         (result : dict float) r,
    Forall (fun x => is_content x = true -> start_indent <= _get_indent x) ls ->
    is_content l = true -> _get_indent l = start_indent ->
    block_loop py_float fuel (ls ++ l :: post) start_indent 0 result = Return r ->
    exists d f,
      f <= fuel /\
      block_loop py_float f (l :: post) start_indent 0 d
      = Return (fst r, snd r - length ls).
Proof.
  induction fuel as [|fuel IH];
    intros ls l post start_indent result r Hls Hc Hi H; [discriminate|].
  destruct ls as [|x ls].
  { exists result, (S fuel). split; [lia|]. simpl app in H. rewrite H.
    destruct r. simpl. now rewrite Nat.sub_0_r. }
  inversion Hls as [|? ? Hx Hls']; subst.
  assert (Hcont : forall res k, k <= length ls ->
    shift (1 + k)
      (block_loop py_float fuel (skipn k ls ++ l :: post) (_get_indent l) 0 res)
    = Return r ->
    exists d f,
      f <= S fuel /\
      block_loop py_float f (l :: post) (_get_indent l) 0 d
      = Return (fst r, snd r - length (x :: ls))).
  { intros res k Hk Hs. apply shift_return in Hs.
    apply IH in Hs; [|now apply Forall_skipn | assumption | reflexivity].
    destruct Hs as (d & f & Hf & Hs). exists d, f. split; [lia|].
    rewrite Hs. simpl fst. simpl snd. rewrite length_skipn. simpl length.
    do 2 f_equal. lia. }
  simpl app in H. rewrite block_loop_cons in H. cbv beta zeta in H.
  destruct (negb (is_content x)) eqn:Hcx; [exact (Hcont result 0 (Nat.le_0_l _) H)|].
  apply negb_false_iff in Hcx. specialize (Hx Hcx).
  replace (_get_indent x <? _get_indent l) with false in H
    by (symmetry; apply Nat.ltb_ge; lia).
  destruct (_get_indent l <? _get_indent x) eqn:Hdeep;
    [exact (Hcont result 0 (Nat.le_0_l _) H)|].
  apply Nat.ltb_ge in Hdeep.
  destruct (contains ":" (strip (_remove_inline_comment x))) eqn:Hcol;
    simpl negb in H; cbv iota in H; [|exact (Hcont result 0 (Nat.le_0_l _) H)].
  unfold _split_key_value in H. rewrite (split_once_contains _ _ Hcol) in H.
  cbn [bind] in H.
  set (key' := strip (before ":" _)) in *. set (value' := strip (after ":" _)) in *.
  destruct (str_eqb value' (L "|")).
  { rewrite multiline_scan_stop in H by (try assumption; lia).
    pose proof (multiline_scan_le (_get_indent x) ls) as Hle.
    destruct (multiline_scan (_get_indent x) ls) as [tl k]. simpl in Hle.
    rewrite skipn_app_le in H by lia. exact (Hcont _ k Hle H). }
  destruct (negb (nonempty value')).
  { rewrite nested_scan_stop in H by (try assumption; lia).
    pose proof (nested_scan_le (_get_indent x) ls) as Hle.
    destruct (nested_scan (_get_indent x) ls) as [[|y nl] k]; simpl in Hle.
    - exact (Hcont _ 0 (Nat.le_0_l _) H).
    - destruct (block_loop py_float fuel (y :: nl) _ 0 []) as [[d0 j0]| |];
        [|discriminate..].
      cbn [bind] in H. rewrite skipn_app_le in H by lia.
      exact (Hcont _ k Hle H). }
  destruct (_parse_value py_float value') as [v'| |]; [|discriminate..].
  cbn [bind] in H. exact (Hcont _ 0 (Nat.le_0_l _) H).
Qed.

(** The value read at a line, seen from the cursor. *)
Lemma line_value_scan (fuel : nat) (pre post : list str) (l value : str)
    (indent : nat) :
  line_value py_float fuel (pre ++ l :: post) (length pre) indent value
  = if str_eqb value (L "|") then
      Return (VStr (rstrip (join [newline] (fst (multiline_scan indent post)))),
              length pre + 1 + snd (multiline_scan indent post))
    else if negb (nonempty value) then
      match fst (nested_scan indent post) with
      | _ :: _ =>
          r <- block_loop py_float fuel (fst (nested_scan indent post))
                 (indent + 2) 0 [] ;;
          Return (VDict (fst r), length pre + 1 + snd (nested_scan indent post))
      | [] => Return (VNone, length pre + 1)
      end
    else v <- _parse_value py_float value ;; Return (v, length pre + 1).
Proof.
  unfold line_value. rewrite _parse_multiline_scan, _parse_nested_scan.
  reflexivity.
Qed.


(** ** Multi-line text *)

(** C3, as the code has it.  After the line [key: |], a text line indented
    by 2 and then a blank line indented by 2 give the one-line string made
    of the text line, right-trimmed: the blank line at the end is trimmed
    away, and the string holds no line break. *)
Theorem multiline_trailing_blank_trimmed (k s : str) :
  safe_key k = true -> starts_nonspace s = true -> contains newline s = false ->
  parse py_float
    (k ++ L ": |" ++ [newline] ++ L "  " ++ s ++ [newline] ++ L "  ")
  = Return [(k, VStr (rstrip s))] /\
  contains newline (rstrip s) = false.
Proof.
  intros Hk Hs Hnl.
  destruct (safe_key_facts k Hk) as (_ & _ & Hknl & _ & Hshape).
  destruct (rstrip_starts_nonspace s Hs) as (Hrs & Hre & Hrapp & Hrc).
  split; [|now apply Hrc].
  set (rs := rstrip s) in *.
  assert (Hstrip : strip (k ++ L ": |" ++ [newline] ++ L "  " ++ s ++ [newline] ++ L "  ")
                   = (k ++ L ": |") ++ newline :: (L "  " ++ rs)).
  { unfold strip. rewrite starts_nonspace_lstrip.
    2:{ destruct Hshape as [->|[H _]]; [reflexivity|].
        now apply starts_nonspace_app. }
    replace (k ++ L ": |" ++ [newline] ++ L "  " ++ s ++ [newline] ++ L "  ")
      with (((k ++ L ": |" ++ [newline] ++ L "  ") ++ s) ++ [newline] ++ L "  ")
      by (now rewrite <- !app_assoc).
    rewrite rstrip_app_space by reflexivity. rewrite Hrapp.
    now rewrite <- !app_assoc. }
  unfold parse. rewrite Hstrip.
  rewrite split_app_sep.
  2:{ rewrite contains_app, Hknl. reflexivity. }
  rewrite split_no_sep.
  2:{ rewrite contains_app. simpl. now apply Hrc. }
  unfold _parse_block. cbn [length].
  assert (Hkl : key_line 0 (k ++ L ": |") = Some (k, L "|")).
  { apply (key_line_make 0 k (L " |")); [assumption | reflexivity | now right]. }
  rewrite (block_loop_key_line _ _ _ _ _ _ _ Hkl).
  change (str_eqb (L "|") (L "|")) with true. cbv iota.
  match goal with
  | |- context [multiline_scan 0 ?x] =>
      assert (Hscan : multiline_scan 0 x = ([rs], 1))
  end.
  { cbn [multiline_scan].
    rewrite (indented_indent (L "  ") rs) by (try reflexivity; assumption).
    simpl. destruct rs as [|c r]; [discriminate|]. reflexivity. }
  rewrite Hscan. cbn [join]. unfold rs. rewrite rstrip_idem. reflexivity.
Qed.

(** ** The serializer *)

Lemma dumps_eq (data : dict float) (indent : nat) :
  dumps float_str data indent
  = join [newline] (dumps_items float_str indent data).
Proof.
  unfold dumps. simpl. f_equal.
  induction data as [|[k v] data IH]; [reflexivity|].
  simpl. rewrite IH. destruct v; reflexivity.
Qed.

Lemma dumps_items_app (indent : nat) (a b : dict float) :
  dumps_items float_str indent (a ++ b)
  = dumps_items float_str indent a ++ dumps_items float_str indent b.
Proof.
  induction a as [|[k v] a IH]; [reflexivity|].
  simpl. rewrite IH. now rewrite app_assoc.
Qed.

(** C4, as the code has it.  A key bound to [None] is rendered as the
    line [key: None]; a key bound to an empty dictionary is rendered as the
    bare line [key:] followed by an empty line; the two outputs differ. *)
Theorem null_and_empty_map_rendering (pre post : dict float) (k : str) (indent : nat) :
  let indent_str := str_mul (L "  ") indent in
  dumps float_str (pre ++ (k, VNone) :: post) indent
  = join [newline]
      (dumps_items float_str indent pre ++ (indent_str ++ k ++ L ": None")
       :: dumps_items float_str indent post) /\
  dumps float_str (pre ++ (k, VDict []) :: post) indent
  = join [newline]
      (dumps_items float_str indent pre ++ (indent_str ++ k ++ L ":") :: []
       :: dumps_items float_str indent post) /\
  dumps float_str (pre ++ (k, VNone) :: post) indent
  <> dumps float_str (pre ++ (k, VDict []) :: post) indent.
Proof.
  intros indent_str.
  assert (H1 : dumps float_str (pre ++ (k, VNone) :: post) indent
               = join [newline]
                   (dumps_items float_str indent pre ++ (indent_str ++ k ++ L ": None")
                    :: dumps_items float_str indent post)).
  { rewrite dumps_eq, dumps_items_app. reflexivity. }
  assert (H2 : dumps float_str (pre ++ (k, VDict []) :: post) indent
               = join [newline]
                   (dumps_items float_str indent pre ++ (indent_str ++ k ++ L ":") :: []
                    :: dumps_items float_str indent post)).
  { rewrite dumps_eq, dumps_items_app. reflexivity. }
  repeat split; [exact H1 | exact H2 |].
  rewrite H1, H2, !join_middle. intros E.
  apply app_inv_head in E. rewrite <- !app_assoc in E.
  apply app_inv_head in E. apply app_inv_head in E.
  simpl in E. discriminate E.
Qed.

(** ** Values and their text *)

Lemma numeric_token (t : str) (v : Value float) :
  forallb numeric_char t = true -> nonempty t = true -> t <> L "-" ->
  (if contains "." t || contains "e" t
   then match py_float t with Some f => VFloat f | None => VStr t end
   else match py_int t with Some z => VInt z | None => VStr t end) = v ->
  token py_float t v.
Proof.
  intros Hnum Hne Hminus Hv.
  pose proof (numeric_text_free t Hnum) as Hfree.
  destruct (breaks_token_free t Hfree) as (Hsp & _).
  destruct t as [|c t']; [discriminate|].
  assert (Hc : numeric_char c = true) by (simpl in Hnum; now apply andb_prop in Hnum).
  pose proof (numeric_char_not_opener c Hc) as Hop.
  repeat (apply orb_false_elim in Hop as [Hop ?]).
  repeat split; try assumption.
  - apply str_eqb_neq. intros [= -> _]. discriminate.
  - unfold _parse_simple_value.
    rewrite trimmed_strip by now apply free_of_space_trimmed.
    rewrite numeric_text_lower by assumption.
    simpl startswith. rewrite Hop, H2. simpl orb.
    replace (str_in (c :: t') [L "null"; L "none"; L "-"]) with false.
    + rewrite !numeric_text_not_literal;
        try assumption; try (repeat constructor).
    + symmetry. rewrite !str_in_cons.
      rewrite (proj2 (str_eqb_neq (c :: t') (L "-")) Hminus).
      simpl orb. change (str_in (c :: t') [L "null"; L "none"] = false).
      apply numeric_text_not_literal; [assumption | repeat constructor].
Qed.

Lemma token_int (z : Z) : token py_float (int_str z) (VInt z).
Proof.
  destruct (int_str_numeric z) as (Hnum & Hdot & He & Hne & Hminus).
  apply numeric_token; try assumption.
  now rewrite Hdot, He, py_int_int_str.
Qed.

Lemma token_float (f : float) :
  plain_float py_float float_str f -> token py_float (float_str f) (VFloat f).
Proof.
  intros (Hnum & Hmark & Hrt).
  apply numeric_token; try assumption.
  - now destruct (float_str f).
  - intros E. rewrite E in Hmark. discriminate.
  - now rewrite Hmark, Hrt.
Qed.

Lemma token_str (s : str) : plain_str py_float s = true -> token py_float s (VStr s).
Proof.
  unfold plain_str. intros H.
  repeat (apply andb_prop in H as [H ?]).
  apply negb_true_iff in H1, H2, H3.
  repeat (apply orb_false_elim in H3 as [H3 ?]).
  destruct (breaks_token_free s H4) as (Hsp & _).
  repeat split; try assumption.
  unfold _parse_simple_value.
  rewrite trimmed_strip by now apply free_of_space_trimmed.
  rewrite H3, H7. simpl orb. cbv iota.
  unfold str_in in *. simpl existsb in *.
  repeat (apply orb_false_elim in H1 as [? H1]).
  rewrite H8, H9, H10, H11, H12, H13, H14. simpl orb. cbv iota.
  destruct (contains "." s || contains "e" (lower s)).
  - now destruct (py_float s).
  - now destruct (py_int s).
Qed.

Lemma token_scalar (x : Value float) :
  safe_scalar py_float float_str x -> token py_float (py_str float_str x) x.
Proof.
  destruct x as [| [|] | z | f | s | l | d]; simpl; try contradiction; intros H.
  - repeat split.
  - repeat split.
  - apply token_int.
  - now apply token_float.
  - now apply token_str.
Qed.

Lemma token_text_facts (t : str) (v : Value float) :
  token py_float t v ->
  t <> [] /\ free_of is_sep t = true /\ free_of isspace t = true /\
  contains "#" t = false /\ contains newline t = false /\
  contains "," t = false /\ contains " " t = false /\
  starts_nonspace t = true /\ ends_nonspace t = true /\ strip t = t.
Proof.
  intros (Hne & Hfree & _).
  destruct (breaks_token_free t Hfree) as (Hsp & Hsep & Hcomma & Hspace & Hhash & Hnl).
  pose proof (free_of_space_trimmed t Hsp) as Htr.
  pose proof (trimmed_strip t Htr) as Hstrip.
  unfold trimmed in Htr. rewrite Hne in Htr. simpl in Htr.
  apply andb_prop in Htr as [Hs He].
  repeat split; try assumption. now destruct t.
Qed.

Lemma token_value_text (t : str) (v : Value float) :
  token py_float t v -> value_text_ok py_float t v.
Proof.
  intros Htok.
  destruct (token_text_facts t v Htok)
    as (Hne & _ & _ & Hhash & Hnl & Hcomma & Hspace & Hs & He & Hstrip).
  destruct Htok as (_ & _ & Hbrace & Hbracket & Hbar & Hv).
  repeat split; try assumption.
  unfold _parse_value. rewrite Hstrip, Hbrace, Hbracket, Hcomma, Hspace.
  simpl. now rewrite Hv.
Qed.

Lemma list_value_text (l : list (Value float)) :
  2 <= length l -> Forall (safe_scalar py_float float_str) l ->
  value_text_ok py_float (join (L ", ") (map (py_str float_str) l)) (VList l).
Proof.
  intros Hlen Hl.
  set (toks := map (py_str float_str) l).
  assert (Htoks : Forall (fun tok => exists x, token py_float tok x) toks).
  { unfold toks. apply Forall_map. eapply Forall_impl; [|exact Hl].
    intros x Hx. exists x. now apply token_scalar. }
  assert (Hfacts : forall (P : str -> Prop),
            (forall tok x, token py_float tok x -> P tok) -> Forall P toks).
  { intros P HP. eapply Forall_impl; [|exact Htoks]. intros tok [x Hx]. eauto. }
  assert (Hback : map (_parse_simple_value py_float) toks = l).
  { unfold toks. clear -Hl. induction Hl as [|x l Hx _ IH]; [reflexivity|].
    simpl. rewrite IH. f_equal. now destruct (token_scalar x Hx) as (_&_&_&_&_&E). }
  destruct l as [|x1 [|x2 l]]; simpl in Hlen; try lia.
  assert (Hne : toks <> []) by discriminate.
  set (t := join (L ", ") toks).
  assert (Hhash : contains "#" t = false).
  { apply contains_join; [reflexivity|]. apply Hfacts. intros tok x Hx.
    now destruct (token_text_facts tok x Hx) as (_&_&_&?&_). }
  assert (Hnl : contains newline t = false).
  { apply contains_join; [reflexivity|]. apply Hfacts. intros tok x Hx.
    now destruct (token_text_facts tok x Hx) as (_&_&_&_&?&_). }
  assert (He : ends_nonspace t = true).
  { apply ends_nonspace_join; [assumption|]. apply Hfacts. intros tok x Hx.
    now destruct (token_text_facts tok x Hx) as (_&_&_&_&_&_&_&_&?&_). }
  pose proof (token_scalar x1 (Forall_inv Hl)) as Hx1.
  destruct (token_text_facts _ _ Hx1) as (Hne1 & _ & _ & _ & _ & _ & _ & Hs1 & _).
  destruct Hx1 as (_ & _ & Hbrace & Hbracket & _).
  assert (Et : t = py_str float_str x1 ++ L ", " ++ join (L ", ") (tl toks))
    by reflexivity.
  assert (Hs : starts_nonspace t = true).
  { rewrite Et. now apply starts_nonspace_app. }
  assert (Hcomma : contains "," t = true).
  { rewrite Et, contains_app. apply orb_true_iff. now right. }
  repeat split; try assumption.
  - apply str_eqb_neq. intros E. rewrite E in Hcomma. discriminate.
  - unfold _parse_value. fold toks. fold t.
    assert (Hstrip : strip t = t).
    { apply trimmed_strip. unfold trimmed. now rewrite Hs, He, orb_true_r. }
    rewrite Hstrip, Hcomma.
    replace (startswith "{" t) with false
      by (rewrite Et, startswith_app by assumption; now rewrite Hbrace).
    replace (startswith "[" t) with false
      by (rewrite Et, startswith_app by assumption; now rewrite Hbracket).
    simpl. unfold t. rewrite re_split_join; [|  |assumption].
    + rewrite stripped_items_tokens; [now rewrite Hback|].
      apply Hfacts. intros tok x Hx.
      now destruct (token_text_facts tok x Hx) as (?&_&?&_).
    + apply Hfacts. intros tok x Hx.
      now destruct (token_text_facts tok x Hx) as (?&?&_).
Qed.

(** ** Safe documents and their lines *)

Lemma Value_nested_ind (P : Value float -> Prop) :
  P VNone -> (forall b, P (VBool b)) -> (forall z, P (VInt z)) ->
  (forall f, P (VFloat f)) -> (forall s, P (VStr s)) ->
  (forall l, Forall P l -> P (VList l)) ->
  (forall d, Forall (fun kv => P (snd kv)) d -> P (VDict d)) ->
  forall v, P v.
Proof.
  intros HN HB HI HF HS HL HD. fix IH 1. intros [| b | z | f | s | l | d].
  - exact HN.
  - apply HB.
  - apply HI.
  - apply HF.
  - apply HS.
  - apply HL. induction l as [|x l IHl]; constructor; [apply IH | exact IHl].
  - apply HD. induction d as [|[k x] d IHd]; constructor; [apply IH | exact IHd].
Qed.

Lemma safe_value_dict (d : dict float) :
  safe_value py_float float_str (VDict d)
  <-> d <> [] /\ distinct (keys d) = true /\ safe_entries py_float float_str d.
Proof.
  simpl. unfold safe_entries.
  assert (E : forall d : dict float,
    (fix entries (d : list (str * Value float)) : Prop :=
       match d with
       | [] => True
       | (k, v') :: rest =>
           safe_key k = true /\ safe_value py_float float_str v' /\ entries rest
       end) d
    <-> Forall (fun kv => safe_key (fst kv) = true
                          /\ safe_value py_float float_str (snd kv)) d).
  { clear. induction d as [|[k v] d IH]; split; intros H.
    - constructor.
    - exact I.
    - destruct H as (Hk & Hv & Hr). constructor; [auto | now apply IH].
    - inversion H as [|? ? [Hk Hv] Hr]; subst. repeat split; auto. now apply IH. }
  rewrite E. tauto.
Qed.

Lemma entry_lines_dict (n : nat) (k : str) (d : dict float) :
  entry_lines float_str n k (VDict d)
  = (str_mul (L "  ") n ++ k ++ L ":") :: doc_lines float_str (n + 1) d.
Proof.
  simpl. f_equal. induction d as [|[k' v'] d IH]; [reflexivity|].
  simpl. now rewrite IH.
Qed.

Lemma distinct_cons (x : str) (l : list str) :
  distinct (x :: l) = true <-> ~ In x l /\ distinct l = true.
Proof.
  simpl. rewrite andb_true_iff, negb_true_iff. unfold str_in.
  split; intros [H1 H2]; split; auto.
  - intros Hin. assert (E : existsb (str_eqb x) l = true).
    { apply existsb_exists. exists x. split; [assumption | apply str_eqb_refl]. }
    congruence.
  - apply not_true_is_false. intros E. apply existsb_exists in E as (y & Hin & Hy).
    apply str_eqb_eq in Hy. now subst.
Qed.

(** The value of a safe entry that is not a dictionary: one line, with a
    text that the value parser reads back. *)
Lemma entry_lines_flat (n : nat) (k : str) (v : Value float) :
  safe_value py_float float_str v -> (forall d, v <> VDict d) ->
  entry_lines float_str n k v
  = [str_mul (L "  ") n ++ k ++ L ": " ++ value_text float_str v]
  /\ value_text_ok py_float (value_text float_str v) v.
Proof.
  intros Hv Hnd. destruct v as [| b | z | f | s | l | d].
  - split; [reflexivity|]. apply token_value_text. repeat split.
  - split; [reflexivity|]. apply token_value_text.
    apply (token_scalar (VBool b)). exact I.
  - split; [reflexivity|]. apply token_value_text. apply token_int.
  - split; [reflexivity|]. apply token_value_text. now apply token_float.
  - pose proof (token_str s Hv) as Htok.
    destruct (token_text_facts _ _ Htok) as (_&_&_&_&Hnl&_).
    split; [|now apply token_value_text].
    simpl. now rewrite Hnl.
  - destruct Hv as [Hlen Hl]. split; [|now apply list_value_text].
    simpl. unfold _format_list.
    replace (forallb is_scalar l) with true; [reflexivity|].
    symmetry. apply forallb_forall. intros x Hin.
    rewrite Forall_forall in Hl. specialize (Hl x Hin). now destruct x.
  - now destruct (Hnd d).
Qed.

Lemma key_line_entry (n : nat) (k t : str) (v : Value float) :
  safe_key k = true -> value_text_ok py_float t v ->
  key_line (2 * n) (str_mul (L "  ") n ++ k ++ L ": " ++ t) = Some (k, t) /\
  line_ok n (str_mul (L "  ") n ++ k ++ L ": " ++ t).
Proof.
  intros Hk (Hhash & Hnl & Hs & He & _).
  destruct (safe_key_facts k Hk) as (_ & _ & Hknl & _).
  assert (Hkl : key_line (2 * n) (str_mul (L "  ") n ++ k ++ L ": " ++ t)
                = Some (k, t)).
  { change (k ++ L ": " ++ t) with (k ++ ":" :: (" " :: t)).
    rewrite key_line_make; [|assumption|exact Hhash|].
    + f_equal. f_equal. unfold strip. simpl lstrip.
      rewrite starts_nonspace_lstrip by assumption.
      now apply ends_nonspace_rstrip.
    + right. change (" " :: t) with ([" "] ++ t). now apply ends_nonspace_app. }
  split; [exact Hkl|].
  apply key_line_inv in Hkl as (Hc & Hi & _).
  repeat split; [assumption | lia | |].
  - rewrite !contains_app, Hknl, Hnl.
    replace (contains newline (str_mul (L "  ") n)) with false; [reflexivity|].
    symmetry. clear. induction n; [reflexivity | exact IHn].
  - rewrite !app_assoc. now apply ends_nonspace_app.
Qed.

Lemma key_line_header (n : nat) (k : str) :
  safe_key k = true ->
  key_line (2 * n) (str_mul (L "  ") n ++ k ++ L ":") = Some (k, []) /\
  line_ok n (str_mul (L "  ") n ++ k ++ L ":").
Proof.
  intros Hk. destruct (safe_key_facts k Hk) as (_ & _ & Hknl & _).
  assert (Hkl : key_line (2 * n) (str_mul (L "  ") n ++ k ++ L ":") = Some (k, [])).
  { change (k ++ L ":") with (k ++ ":" :: []).
    rewrite key_line_make; [reflexivity | assumption | reflexivity | now left]. }
  split; [exact Hkl|].
  apply key_line_inv in Hkl as (Hc & Hi & _).
  repeat split; [assumption | lia | |].
  - rewrite !contains_app, Hknl.
    replace (contains newline (str_mul (L "  ") n)) with false; [reflexivity|].
    symmetry. clear. induction n; [reflexivity | exact IHn].
  - rewrite !app_assoc. now apply ends_nonspace_app.
Qed.

Lemma line_ok_deeper (n : nat) (l : str) : line_ok (n + 1) l -> line_ok n l.
Proof.
  intros (H1 & H2 & H3 & H4). repeat split; [assumption | lia | assumption..].
Qed.

(** The lines of a safe entry: all of them lines of the block or deeper,
    the first one at the level of the block. *)
Lemma entry_lines_ok (v : Value float) :
  forall n k, safe_key k = true -> safe_value py_float float_str v ->
    Forall (line_ok n) (entry_lines float_str n k v) /\
    exists l0 rest, entry_lines float_str n k v = l0 :: rest /\
                    is_content l0 = true /\ _get_indent l0 = 2 * n.
Proof.
  induction v as [| b | z | f | s | l _ | d IHd] using Value_nested_ind;
    intros n k Hk Hv.
  1-6: destruct (entry_lines_flat n k _ Hv) as [E Hok]; [discriminate|];
       rewrite E;
       destruct (key_line_entry n k _ _ Hk Hok) as [Hkl Hok'];
       pose proof (key_line_inv _ _ _ _ Hkl) as (Hc & Hi & _);
       split; [constructor; [exact Hok' | constructor] | eauto].
  rewrite entry_lines_dict.
  destruct (key_line_header n k Hk) as [Hkl Hok'].
  pose proof (key_line_inv _ _ _ _ Hkl) as (Hc & Hi & _).
  split; [|eauto].
  constructor; [exact Hok'|].
  apply safe_value_dict in Hv as (_ & _ & Hent).
  clear -IHd Hent. induction d as [|[k' v'] d IH]; [constructor|].
  inversion IHd as [|? ? Hv' Hd']; subst.
  inversion Hent as [|? ? [Hk' Hsv'] Hent']; subst.
  simpl. apply Forall_app. split; [|now apply IH].
  destruct (Hv' (n + 1) k' Hk' Hsv') as [Hall _].
  eapply Forall_impl; [|exact Hall]. apply line_ok_deeper.
Qed.

Lemma doc_lines_ok (n : nat) (d : dict float) :
  safe_entries py_float float_str d ->
  Forall (line_ok n) (doc_lines float_str n d) /\
  (d = [] \/ exists l0 rest, doc_lines float_str n d = l0 :: rest /\
                             is_content l0 = true /\ _get_indent l0 = 2 * n).
Proof.
  intros Hent. split.
  - induction Hent as [|[k v] d [Hk Hv] _ IH]; [constructor|].
    simpl. apply Forall_app. split; [|assumption].
    now apply entry_lines_ok.
  - destruct Hent as [|[k v] d [Hk Hv] _]; [now left|]. right.
    destruct (entry_lines_ok v n k Hk Hv) as [_ (l0 & rest & E & Hc & Hi)].
    simpl. rewrite E. simpl. eauto.
Qed.

(** ** Reading back what was written *)

Lemma nested_scan_collect (indent : nat) (A B : list str) :
  Forall (fun l => is_content l = true /\ indent < _get_indent l) A ->
  (B = [] \/ exists b B', B = b :: B' /\ is_content b = true
                          /\ _get_indent b <= indent) ->
  nested_scan indent (A ++ B) = (A, length A).
Proof.
  intros HA HB. induction HA as [|a A [Hc Hi] _ IH]; simpl.
  - destruct HB as [-> | (b & B' & -> & Hc & Hi)]; [reflexivity|].
    simpl. rewrite Hc. simpl.
    now replace (_get_indent b <=? indent) with true
      by (symmetry; apply Nat.leb_le; lia).
  - rewrite Hc, IH. simpl.
    now replace (_get_indent a <=? indent) with false
      by (symmetry; apply Nat.leb_gt; lia).
Qed.

Lemma dict_set_fresh (d : dict float) (k : str) (v : Value float) :
  ~ In k (keys d) -> dict_set d k v = d ++ [(k, v)].
Proof.
  induction d as [|[k' v'] d IH]; simpl; intros H; [reflexivity|].
  destruct (str_eqb k' k) eqn:E.
  - apply str_eqb_eq in E. tauto.
  - rewrite IH; tauto.
Qed.

Lemma distinct_app_cons (a : list str) (k : str) (b : list str) :
  distinct (a ++ k :: b) = true ->
  ~ In k a /\ distinct ((a ++ [k]) ++ b) = true.
Proof.
  rewrite <- app_assoc. simpl. intros H. split; [|exact H].
  induction a as [|x a IH]; [tauto|].
  simpl app in H. apply distinct_cons in H as [Hx Ha].
  intros [->|Hin]; [|now apply IH].
  apply Hx. apply in_or_app. right. now left.
Qed.

(** The block loop over the lines written for the entries [d], at their
    level, appends [d] to the entries read before. *)
Lemma block_roundtrip_value (v : Value float) :
  match v with
  | VDict d =>
      forall n result fuel,
        safe_entries py_float float_str d ->
        distinct (keys result ++ keys d) = true ->
        length (doc_lines float_str n d) < fuel ->
        block_loop py_float fuel (doc_lines float_str n d) (2 * n) 0 result
        = Return (result ++ d, length (doc_lines float_str n d))
  | _ => True
  end.
Proof.
  induction v as [| b | z | f | s | l _ | d IHd] using Value_nested_ind;
    try exact I.
  induction d as [|[k v] d IH]; intros n result fuel Hent Hdist Hfuel.
  { destruct fuel; [simpl in Hfuel; lia|]. simpl. now rewrite app_nil_r. }
  inversion IHd as [|? ? Hv IHd']; subst. simpl snd in Hv.
  inversion Hent as [|? ? [Hk Hsv] Hent']; subst. simpl fst in Hk. simpl snd in Hsv.
  specialize (IH IHd').
  simpl keys in Hdist. apply distinct_app_cons in Hdist as [Hfresh Hdist].
  assert (Hkeys : forall x, keys (result ++ [(k, x)]) = keys result ++ [k])
    by (intros x; unfold keys; now rewrite map_app).
  assert (Hrest : forall x f, length (doc_lines float_str n d) < f ->
            block_loop py_float f (doc_lines float_str n d) (2 * n) 0
              (dict_set result k x)
            = Return (result ++ (k, x) :: d, length (doc_lines float_str n d))).
  { intros x f Hf. rewrite dict_set_fresh by assumption.
    rewrite IH; [now rewrite <- app_assoc | assumption | now rewrite Hkeys
                | assumption]. }
  destruct fuel as [|fuel]; [lia|].
  cbn [doc_lines] in *. rewrite length_app in *.
  assert (Hflat : (forall d0, v <> VDict d0) ->
            block_loop py_float (S fuel)
              (entry_lines float_str n k v ++ doc_lines float_str n d)
              (2 * n) 0 result
            = Return (result ++ (k, v) :: d,
                      length (entry_lines float_str n k v)
                      + length (doc_lines float_str n d))).
  { intros Hnd. destruct (entry_lines_flat n k v Hsv Hnd) as [E Hok].
    rewrite E in *. simpl app. simpl length in *.
    destruct (key_line_entry n k _ _ Hk Hok) as [Hkl _].
    rewrite (block_loop_key_line _ _ _ _ _ _ _ Hkl).
    destruct Hok as (_ & _ & Hs & _ & Hbar & Hpv).
    rewrite Hbar, Hpv.
    replace (negb (nonempty (value_text float_str v))) with false
      by (now destruct (value_text float_str v)).
    cbn [bind]. rewrite Hrest by lia. reflexivity. }
  destruct v as [| b | z | f | s | l | sub]; try (apply Hflat; discriminate).
  clear Hflat. rewrite entry_lines_dict in *. simpl app. simpl length in *.
  destruct (key_line_header n k Hk) as [Hkl _].
  rewrite (block_loop_key_line _ _ _ _ _ _ _ Hkl). simpl negb. cbv iota.
  apply safe_value_dict in Hsv as (Hne & Hdsub & Hesub).
  destruct (doc_lines_ok (n + 1) sub Hesub) as [Hall [->|(l0 & rest & E & _)]];
    [congruence|].
  destruct (doc_lines_ok n d Hent') as [_ Hhead].
  rewrite nested_scan_collect.
  - rewrite E. rewrite <- E.
    replace (2 * n + 2) with (2 * (n + 1)) by lia.
    rewrite (Hv (n + 1) [] fuel Hesub Hdsub) by lia.
    cbn [bind fst app].
    rewrite skipn_app_le by lia. rewrite skipn_all. simpl app.
    rewrite Hrest by lia. reflexivity.
  - eapply Forall_impl; [|exact Hall]. intros a (Hc & Hi & _). split; [assumption|lia].
  - destruct Hhead as [->|(b & B' & Eb & Hc & Hi)]; [now left|].
    right. exists b, B'. repeat split; [assumption.. | lia].
Qed.

Lemma dumps_entry_nonnil (n : nat) (k : str) (v : Value float) :
  dumps_entry float_str n k v <> [].
Proof.
  destruct v; simpl; try discriminate.
  destruct (contains newline s); discriminate.
Qed.

Lemma entry_lines_nonnil (n : nat) (k : str) (v : Value float) :
  entry_lines float_str n k v <> [].
Proof.
  destruct v; try apply dumps_entry_nonnil. rewrite entry_lines_dict. discriminate.
Qed.

(** What [dumps] writes for safe entries is their physical lines joined by
    line breaks. *)
Lemma dumps_doc_lines_value (v : Value float) :
  match v with
  | VDict d =>
      forall n, safe_entries py_float float_str d ->
        join [newline] (dumps_items float_str n d)
        = join [newline] (doc_lines float_str n d)
  | _ => True
  end.
Proof.
  induction v as [| b | z | f | s | l _ | d IHd] using Value_nested_ind;
    try exact I.
  intros n Hent. induction d as [|[k v] d IH]; [reflexivity|].
  inversion IHd as [|? ? Hv IHd']; subst. simpl snd in Hv.
  inversion Hent as [|? ? [Hk Hsv] Hent']; subst. simpl snd in Hsv.
  specialize (IH IHd' Hent').
  assert (Hnil : dumps_items float_str n d = [] <-> doc_lines float_str n d = []).
  { destruct d as [|[k' v'] d]; [tauto|]. simpl. split; intros H.
    - apply app_eq_nil in H as [H _]. now apply dumps_entry_nonnil in H.
    - apply app_eq_nil in H as [H _]. now apply entry_lines_nonnil in H. }
  cbn [dumps_items doc_lines].
  destruct v as [| b | z | f | s | l | sub];
    try (apply (join_app_congr [newline] (dumps_entry float_str n k _));
         assumption).
  rewrite entry_lines_dict. apply safe_value_dict in Hsv as (Hne & _ & Hesub).
  change (dumps_entry float_str n k (VDict sub))
    with [str_mul (L "  ") n ++ k ++ L ":"; dumps float_str sub (n + 1)].
  pose proof (Hv (n + 1) Hesub) as Hsub.
  simpl app. rewrite dumps_eq, Hsub.
  assert (Hsubne : doc_lines float_str (n + 1) sub <> []).
  { destruct sub as [|[k' v'] sub]; [congruence|]. simpl.
    intros H. apply app_eq_nil in H as [H _]. now apply entry_lines_nonnil in H. }
  apply join_cons_congr.
  - rewrite join_flatten by assumption. now apply join_app_congr.
  - split; intros H; [discriminate H|].
    apply app_eq_nil in H as [H _]. contradiction.
Qed.

Lemma indent0_starts (l : str) :
  is_content l = true -> _get_indent l = 0 -> starts_nonspace l = true.
Proof.
  unfold is_content, _get_indent. destruct l as [|c l]; [discriminate|].
  intros _. cbn [lstrip starts_nonspace]. destruct (isspace c); [|reflexivity].
  intros H. pose proof (lstrip_length l). simpl length in H. lia.
Qed.

(** The lines that [dumps] writes for a safe document are read back as
    the document by the loops of [parse]. *)
Lemma safe_doc_read_back (d : dict float) :
  safe_doc py_float float_str d ->
  parse py_float (dumps float_str d 0) = Return d.
Proof.
  intros [Hdist Hent].
  destruct d as [|[k v] d]; [reflexivity|].
  rewrite dumps_eq.
  rewrite (dumps_doc_lines_value (VDict ((k, v) :: d)) 0 Hent).
  destruct (doc_lines_ok 0 _ Hent) as [Hall [E|(l0 & rest & E & Hc & Hi)]];
    [discriminate|].
  set (lines := doc_lines float_str 0 ((k, v) :: d)) in *.
  assert (Hstrip : strip (join [newline] lines) = join [newline] lines).
  { apply trimmed_strip. unfold trimmed.
    replace (starts_nonspace (join [newline] lines)) with true.
    - rewrite ends_nonspace_join; [apply orb_true_r | rewrite E; discriminate |].
      eapply Forall_impl; [|exact Hall]. now intros a (_ & _ & _ & He).
    - symmetry. rewrite E. pose proof (indent0_starts l0 Hc Hi) as Hs.
      destruct rest; [exact Hs|]. now apply starts_nonspace_app. }
  unfold parse. rewrite Hstrip, split_join.
  - unfold _parse_block.
    pose proof (block_roundtrip_value (VDict ((k, v) :: d)) 0 []
                  (S (length lines)) Hent Hdist) as H.
    fold lines in H. simpl Nat.mul in H. rewrite H by lia. reflexivity.
  - eapply Forall_impl; [|exact Hall]. now intros a (_ & _ & Hnl & _).
  - rewrite E. discriminate.
Qed.

(** ** Literals of the scalar parser *)

Lemma lower_char_quote :
  forall c, Ascii.eqb (lower_char c) dquote = Ascii.eqb c dquote /\
            Ascii.eqb (lower_char c) squote = Ascii.eqb c squote.
Proof.
  intros c; destruct c as [[] [] [] [] [] [] [] []]; vm_compute; split; reflexivity.
Qed.

Lemma startswith_lower_quote (s : str) :
  startswith dquote (lower s) = startswith dquote s /\
  startswith squote (lower s) = startswith squote s.
Proof.
  destruct s as [|c s]; [split; reflexivity|]. simpl. apply lower_char_quote.
Qed.

(** C8.  The boolean and null literals are recognised whatever the case of
    their letters: the scalar parser compares the lower-case form of the
    stripped value with [yes], [true], [no], [false], [null], [none] and
    [-], so a value whose lower-case form is one of these seven words is
    read as [True], [False] or [None] accordingly.  [yes], [YES] and [Yes]
    all have the lower-case form [yes]; [null] and [NONE] have the forms
    [null] and [none]. *)
Theorem literals_case_insensitive (v lit : str) (r : Value float) :
  In (lit, r)
    [(L "yes", VBool true); (L "true", VBool true); (L "no", VBool false);
     (L "false", VBool false); (L "null", VNone); (L "none", VNone);
     (L "-", VNone)] ->
  lower (strip v) = lit -> _parse_simple_value py_float v = r.
Proof.
  intros Hin E. unfold _parse_simple_value.
  destruct (startswith_lower_quote (strip v)) as [Hd Hs].
  rewrite <- Hd, <- Hs, E.
  simpl in Hin.
  repeat (destruct Hin as [[= <- <-]|Hin]; [reflexivity|]).
  destruct Hin.
Qed.

(** A value that starts and ends with the same quote is read as what is
    between the two ends, whatever its length. *)
Lemma quoted_value_stripped (v : str) (q : ascii) :
  q = dquote \/ q = squote ->
  startswith q (strip v) = true -> endswith q (strip v) = true ->
  _parse_simple_value py_float v = VStr (slice_1_m1 (strip v)).
Proof.
  intros Hq Hs He. unfold _parse_simple_value.
  destruct Hq as [-> | ->]; rewrite Hs, He; [reflexivity|].
  now rewrite orb_true_r.
Qed.

(** A value with a comma, not wrapped in braces or brackets, is read as a
    list, quoted or not. *)
Lemma comma_value_is_list (v : str) :
  contains "," (strip v) = true ->
  startswith "{" (strip v) && endswith "}" (strip v) = false ->
  startswith "[" (strip v) && endswith "]" (strip v) = false ->
  _parse_value py_float v
  = Return (VList (map (_parse_simple_value py_float)
                     (stripped_items (re_split (strip v))))).
Proof.
  intros Hc Hb1 Hb2. unfold _parse_value. now rewrite Hb1, Hb2, Hc.
Qed.

(** C10. A value that is one quote character starts and ends with that
    quote, so the scalar parser strips it to the empty string; [parse] of
    the line made of [a: ] and one double quote binds [a] to the empty
    string. *)
Theorem lone_quote_is_empty_string :
  _parse_simple_value py_float [dquote] = VStr [] /\
  _parse_simple_value py_float [squote] = VStr [] /\
  parse py_float (L "a: " ++ [dquote]) = Return [(L "a", VStr [])].
Proof. repeat split; reflexivity. Qed.

(** C7, as the code has it.  The value [x, y] in double quotes contains
    a comma, so it is split like any implicit list and the quotes stay on
    the two pieces; without the quotes [x, y] gives the list of [x] and
    [y]. *)
Theorem quoted_comma_is_split :
  parse py_float (L "a: " ++ [dquote] ++ L "x, y" ++ [dquote])
    = Return [(L "a", VList [VStr (dquote :: L "x"); VStr (L "y" ++ [dquote])])] /\
  parse py_float (L "a: x, y")
    = Return [(L "a", VList [VStr (L "x"); VStr (L "y")])].
Proof. split; reflexivity. Qed.

(** ** Further properties of the block parser *)

Lemma dict_set_keys_keep (d : dict float) (k k0 : str) (v : Value float) :
  In k0 (keys d) -> In k0 (keys (dict_set d k v)).
Proof.
  induction d as [|[k' v'] d IH]; simpl; [tauto|].
  destruct (str_eqb k' k); simpl; tauto.
Qed.

Lemma dict_set_keys_new (d : dict float) (k : str) (v : Value float) :
  In k (keys (dict_set d k v)).
Proof.
  induction d as [|[k' v'] d IH]; simpl; [now left|].
  destruct (str_eqb k' k) eqn:E; simpl; [left; now apply str_eqb_eq | now right].
Qed.

(** The block loop never unbinds a key. *)
Lemma block_loop_keys_keep (fuel : nat) :
  forall (lines : list str) (start_indent i : nat) (result d : dict float) j k,
    In k (keys result) ->
    block_loop py_float fuel lines start_indent i result = Return (d, j) ->
    In k (keys d).
Proof.
  induction fuel as [|fuel IH]; intros lines start_indent i result d j k Hin H;
    [discriminate|].
  cbn [block_loop] in H.
  destruct (i <? length lines); [|now injection H as <- <-].
  destruct (negb (nonempty (strip (nth i lines [])))
            || startswith "#" (strip (nth i lines []))); [now eapply IH; eauto|].
  destruct (_get_indent (nth i lines []) <? start_indent);
    [now injection H as <- <-|].
  destruct (start_indent <? _get_indent (nth i lines [])); [now eapply IH; eauto|].
  destruct (negb (contains ":" (strip (_remove_inline_comment (nth i lines [])))));
    [now eapply IH; eauto|].
  destruct (_split_key_value _) as [[key value]| |]; [|discriminate..].
  cbn [bind] in H.
  destruct (str_eqb value (L "|")).
  { destruct (_parse_multiline lines i _) as [v i'].
    eapply IH; [|exact H]. now apply dict_set_keys_keep. }
  destruct (negb (nonempty value)).
  { destruct (_parse_nested _ lines i _) as [[v i']| |]; [|discriminate..].
    cbn [bind] in H. eapply IH; [|exact H]. now apply dict_set_keys_keep. }
  destruct (_parse_value py_float value) as [v| |]; [|discriminate..].
  cbn [bind] in H. eapply IH; [|exact H]. now apply dict_set_keys_keep.
Qed.

(** A line is not read as a key line of the level when it is blank or a
    comment, when it is at another level, or when no [:] is left once its
    comment is removed. *)
Lemma key_line_none (start_indent : nat) (l : str) :
  key_line start_indent l = None <->
  is_content l = false \/ _get_indent l <> start_indent \/
  contains ":" (strip (_remove_inline_comment l)) = false.
Proof.
  unfold key_line, split_once.
  destruct (is_content l); simpl andb.
  - destruct (Nat.eqb_spec (_get_indent l) start_indent) as [E|E].
    + destruct (contains ":" (strip (_remove_inline_comment l))).
      * split; [discriminate|]. intros [H|[H|H]]; [discriminate|tauto|discriminate].
      * split; auto.
    + split; auto.
  - split; auto.
Qed.

(** Lines that are not key lines of the block, none of them shallower than
    the block, are passed over. *)
Lemma block_loop_no_key_lines (fuel : nat) :
  forall (lines : list str) (start_indent : nat) (result : dict float),
    Forall (fun l => key_line start_indent l = None /\
                     (is_content l = true -> start_indent <= _get_indent l)) lines ->
    length lines < fuel ->
    block_loop py_float fuel lines start_indent 0 result
    = Return (result, length lines).
Proof.
  induction fuel as [|fuel IH]; intros lines start_indent result Hall Hfuel; [lia|].
  destruct lines as [|l rest]; [reflexivity|].
  inversion Hall as [|? ? [Hk Hd] Hall']; subst. simpl length in Hfuel.
  rewrite block_loop_cons. cbv beta zeta.
  rewrite (IH rest start_indent result Hall') by lia. simpl shift.
  destruct (is_content l) eqn:Hc; simpl negb; cbv iota; [|reflexivity].
  specialize (Hd eq_refl).
  replace (_get_indent l <? start_indent) with false
    by (symmetry; apply Nat.ltb_ge; lia).
  destruct (start_indent <? _get_indent l) eqn:Hgt; [reflexivity|].
  apply Nat.ltb_ge in Hgt.
  apply key_line_none in Hk as [Hk|[Hk|Hk]]; [congruence | lia |].
  now rewrite Hk.
Qed.

(** When the block loop at level 0 returns no entry, it has met no key
    line. *)
Lemma block_loop_empty_inv (fuel : nat) :
  forall (lines : list str) (result : dict float) j,
    block_loop py_float fuel lines 0 0 result = Return ([], j) ->
    Forall (fun l => key_line 0 l = None) lines.
Proof.
  induction fuel as [|fuel IH]; intros lines result j H; [discriminate|].
  destruct lines as [|l rest]; [constructor|].
  assert (Hcont : forall res k,
    shift (1 + k) (block_loop py_float fuel (skipn k rest) 0 0 res)
    = Return ([], j) -> k = 0 -> Forall (fun l => key_line 0 l = None) rest).
  { intros res k Hs ->. apply shift_return in Hs. now apply IH in Hs. }
  assert (Hset : forall res key v k,
    shift (1 + k) (block_loop py_float fuel (skipn k rest) 0 0
                     (dict_set res key v))
    <> Return ([], j)).
  { intros res key v k Hs. apply shift_return in Hs. simpl fst in Hs.
    destruct (block_loop_keys_keep _ _ _ _ _ _ _ key
                (dict_set_keys_new res key v) Hs). }
  rewrite block_loop_cons in H. cbv beta zeta in H.
  destruct (is_content l) eqn:Hc; simpl negb in H; cbv iota in H.
  2:{ constructor; [apply key_line_none; now left | exact (Hcont _ 0 H eq_refl)]. }
  change (_get_indent l <? 0) with false in H. cbv iota in H.
  destruct (0 <? _get_indent l) eqn:Hgt.
  { constructor; [|exact (Hcont _ 0 H eq_refl)].
    apply key_line_none. right. left. apply Nat.ltb_lt in Hgt. lia. }
  destruct (contains ":" (strip (_remove_inline_comment l))) eqn:Hcol;
    simpl negb in H; cbv iota in H.
  2:{ constructor; [apply key_line_none; now right; right
                   | exact (Hcont _ 0 H eq_refl)]. }
  exfalso.
  unfold _split_key_value in H. rewrite (split_once_contains _ _ Hcol) in H.
  cbn [bind] in H.
  destruct (str_eqb _ (L "|")).
  { destruct (multiline_scan (_get_indent l) rest) as [tl k].
    exact (Hset _ _ _ _ H). }
  destruct (negb (nonempty _)).
  { destruct (nested_scan (_get_indent l) rest) as [[|y nl] k].
    - exact (Hset _ _ _ 0 H).
    - destruct (block_loop py_float fuel (y :: nl) _ 0 []) as [[d0 j0]| |];
        [|discriminate..].
      cbn [bind] in H. exact (Hset _ _ _ _ H). }
  destruct (_parse_value py_float _) as [v'| |]; [|discriminate..].
  cbn [bind] in H. exact (Hset _ _ _ 0 H).
Qed.

(** X1.  [parse] returns the empty document exactly when no line of the
    stripped text is a key line at level 0: every line is blank, a
    comment, indented, or without a [:] before its [#]. *)
Theorem parse_empty_iff (text : str) :
  parse py_float text = Return [] <->
  Forall (fun l => key_line 0 l = None) (split newline (strip text)).
Proof.
  unfold parse, _parse_block. split.
  - intros H.
    destruct (block_loop py_float _ _ 0 0 []) as [[d j]| |] eqn:E;
      [|discriminate..].
    cbn [bind fst] in H. injection H as ->.
    exact (block_loop_empty_inv _ _ _ _ E).
  - intros H. rewrite block_loop_no_key_lines; [reflexivity | | lia].
    eapply Forall_impl; [|exact H]. intros l Hl. split; [exact Hl | lia].
Qed.

(** ** One line with a key and a value *)

Lemma parse_key_value_line (k t : str) (v : Value float) :
  safe_key k = true -> value_text_ok py_float t v ->
  parse py_float (k ++ L ": " ++ t) = Return [(k, v)].
Proof.
  intros Hk Hok.
  destruct (key_line_entry 0 k t v Hk Hok) as [Hkl (Hc & _ & Hnl & He)].
  change (str_mul (L "  ") 0 ++ k ++ L ": " ++ t) with (k ++ L ": " ++ t) in *.
  simpl Nat.mul in Hkl. set (line := k ++ L ": " ++ t) in *.
  destruct (key_line_inv _ _ _ _ Hkl) as (_ & Hi & _).
  pose proof (indent0_starts _ Hc Hi) as Hs.
  unfold parse, _parse_block.
  pose proof (indented_strip [] _ eq_refl Hs He) as Hstrip.
  change ([] ++ line) with line in Hstrip. rewrite Hstrip.
  rewrite (split_no_sep _ _ Hnl). simpl length.
  rewrite (block_loop_key_line _ _ _ _ _ _ _ Hkl).
  destruct Hok as (_ & _ & Hst & _ & Hbar & Hpv).
  rewrite Hbar, Hpv.
  replace (negb (nonempty t)) with false by (now destruct t).
  reflexivity.
Qed.

Lemma slice_1_m1_quoted (q : ascii) (s : str) : slice_1_m1 (q :: s ++ [q]) = s.
Proof. unfold slice_1_m1. simpl tl. apply removelast_last. Qed.

Lemma endswith_snoc (c q : ascii) (s : str) :
  endswith c (s ++ [q]) = Ascii.eqb q c.
Proof. unfold endswith. now rewrite rev_app_distr. Qed.

(** X2.  A value in quotes is read as the text between the quotes, with
    its spaces and whatever it spells, when that text has no comma, no [#]
    and no line break; in single quotes it must have no space either. *)
Theorem quoted_value_verbatim (k s : str) (q : ascii) :
  safe_key k = true ->
  free_of (fun c => is_char "," c || is_char "#" c || is_char newline c) s = true ->
  q = dquote \/ (q = squote /\ contains " " s = false) ->
  parse py_float (k ++ L ": " ++ [q] ++ s ++ [q]) = Return [(k, VStr s)].
Proof.
  intros Hk Hs Hq. apply parse_key_value_line; [exact Hk|].
  assert (Hcomma : contains "," s = false)
    by (apply (free_of_contains _ _ _ Hs); reflexivity).
  assert (Hhash : contains "#" s = false)
    by (apply (free_of_contains _ _ _ Hs); reflexivity).
  assert (Hnl : contains newline s = false)
    by (apply (free_of_contains _ _ _ Hs); reflexivity).
  assert (Hqq : q = dquote \/ q = squote) by tauto.
  change ([q] ++ s ++ [q]) with (q :: s ++ [q]).
  assert (Hin : forall c, c <> q -> contains c s = false ->
                          contains c (q :: s ++ [q]) = false).
  { intros c Hc Hcs. simpl contains. rewrite contains_app, Hcs. simpl.
    replace (Ascii.eqb c q) with false; [reflexivity|].
    symmetry. now apply Ascii.eqb_neq. }
  assert (Hst : starts_nonspace (q :: s ++ [q]) = true)
    by (destruct Hqq as [-> | ->]; reflexivity).
  assert (He : ends_nonspace (q :: s ++ [q]) = true).
  { change (q :: s ++ [q]) with ((q :: s) ++ [q]). rewrite ends_nonspace_snoc.
    destruct Hqq as [-> | ->]; reflexivity. }
  assert (Hstrip : strip (q :: s ++ [q]) = q :: s ++ [q])
    by exact (indented_strip [] _ eq_refl Hst He).
  assert (Hend : endswith q (q :: s ++ [q]) = true).
  { change (q :: s ++ [q]) with ((q :: s) ++ [q]). rewrite endswith_snoc.
    apply Ascii.eqb_refl. }
  assert (Hsimple : _parse_simple_value py_float (q :: s ++ [q]) = VStr s).
  { rewrite (quoted_value_stripped _ q Hqq); rewrite Hstrip;
      [now rewrite slice_1_m1_quoted | simpl; apply Ascii.eqb_refl | exact Hend]. }
  unfold value_text_ok.
  split; [|split; [|split; [|split; [|split]]]]; try assumption.
  - apply Hin; [destruct Hqq as [-> | ->]; discriminate | exact Hhash].
  - apply Hin; [destruct Hqq as [-> | ->]; discriminate | exact Hnl].
  - apply str_eqb_neq. destruct Hqq as [-> | ->]; discriminate.
  - assert (H1 : startswith "{" (q :: s ++ [q]) = false)
      by (destruct Hqq as [-> | ->]; reflexivity).
    assert (H2 : startswith "[" (q :: s ++ [q]) = false)
      by (destruct Hqq as [-> | ->]; reflexivity).
    assert (H3 : contains "," (q :: s ++ [q]) = false)
      by (apply Hin; [destruct Hqq as [-> | ->]; discriminate | exact Hcomma]).
    assert (H4 : contains " " (q :: s ++ [q])
                 && negb (startswith dquote (q :: s ++ [q])) = false).
    { destruct Hq as [-> | [-> Hsp]]; [simpl; now rewrite andb_false_r|].
      rewrite (Hin " " ltac:(discriminate) Hsp). reflexivity. }
    set (t := q :: s ++ [q]) in *.
    unfold _parse_value. rewrite Hstrip, H1, H2, H3, H4. simpl. now rewrite Hsimple.
Qed.

(** ** Where a block ends *)

Lemma shift_return_inv {A : Type} (k : nat) (m : outcome (A * nat)) (a : A) (j : nat) :
  shift k m = Return (a, j) -> exists j', m = Return (a, j') /\ j = k + j'.
Proof.
  destruct m as [[a' j']| |]; simpl; [|discriminate..].
  intros H. injection H as <- <-. now exists j'.
Qed.

Lemma nth_skipn_add {A : Type} (k j : nat) (l : list A) (d : A) :
  nth j (skipn k l) d = nth (k + j) l d.
Proof.
  revert l. induction k as [|k IH]; intros l; [reflexivity|].
  destruct l as [|x l]; [now destruct j | apply IH].
Qed.

Lemma block_loop_stop (fuel : nat) :
  forall (lines : list str) (start_indent : nat) (result d : dict float) j,
    block_loop py_float fuel lines start_indent 0 result = Return (d, j) ->
    j <= length lines /\
    (j < length lines ->
     is_content (nth j lines []) = true /\
     _get_indent (nth j lines []) < start_indent).
Proof.
  induction fuel as [|fuel IH]; intros lines start_indent result d j H;
    [discriminate|].
  destruct lines as [|l rest].
  { injection H as <- <-. split; [reflexivity | simpl; lia]. }
  assert (Hcont : forall res k, k <= length rest ->
    shift (1 + k) (block_loop py_float fuel (skipn k rest) start_indent 0 res)
    = Return (d, j) ->
    j <= length (l :: rest) /\
    (j < length (l :: rest) ->
     is_content (nth j (l :: rest) []) = true /\
     _get_indent (nth j (l :: rest) []) < start_indent)).
  { intros res k Hk Hs. apply shift_return_inv in Hs as (j' & Hs & ->).
    apply IH in Hs as [Hle Hlt]. rewrite length_skipn in Hle, Hlt.
    rewrite nth_skipn_add in Hlt. simpl length. split; [lia|].
    intros Hj. change (nth (1 + k + j') (l :: rest) []) with (nth (k + j') rest []).
    apply Hlt. lia. }
  rewrite block_loop_cons in H. cbv beta zeta in H.
  destruct (negb (is_content l)) eqn:Hc; [exact (Hcont _ 0 (Nat.le_0_l _) H)|].
  apply negb_false_iff in Hc.
  destruct (_get_indent l <? start_indent) eqn:Hlt.
  { injection H as <- <-. apply Nat.ltb_lt in Hlt. simpl. split; [lia | auto]. }
  destruct (start_indent <? _get_indent l); [exact (Hcont _ 0 (Nat.le_0_l _) H)|].
  destruct (negb (contains ":" (strip (_remove_inline_comment l))));
    [exact (Hcont _ 0 (Nat.le_0_l _) H)|].
  destruct (_split_key_value _) as [[key value]| |]; [|discriminate..].
  cbn [bind] in H.
  destruct (str_eqb value (L "|")).
  { pose proof (multiline_scan_le (_get_indent l) rest) as Hle.
    destruct (multiline_scan (_get_indent l) rest) as [tl k].
    exact (Hcont _ k Hle H). }
  destruct (negb (nonempty value)).
  { pose proof (nested_scan_le (_get_indent l) rest) as Hle.
    destruct (nested_scan (_get_indent l) rest) as [[|y nl] k].
    - exact (Hcont _ 0 (Nat.le_0_l _) H).
    - destruct (block_loop py_float fuel (y :: nl) _ 0 []) as [[d0 j0]| |];
        [|discriminate..].
      cbn [bind] in H. exact (Hcont _ k Hle H). }
  destruct (_parse_value py_float value) as [v'| |]; [|discriminate..].
  cbn [bind] in H. exact (Hcont _ 0 (Nat.le_0_l _) H).
Qed.

(** X3.  The cursor that [_parse_block] returns is within the lines; when
    it is not at their end, it is at a content line shallower than the
    block.  At level 0 it is always at the end: every line is visited. *)
Theorem block_stops_at_dedent (fuel : nat) (lines : list str) (start_indent : nat)
    (d : dict float) (j : nat) :
  _parse_block py_float fuel lines start_indent = Return (d, j) ->
  j <= length lines /\
  (j < length lines ->
   is_content (nth j lines []) = true /\
   _get_indent (nth j lines []) < start_indent) /\
  (start_indent = 0 -> j = length lines).
Proof.
  intros H. apply block_loop_stop in H as [Hle Hlt].
  split; [exact Hle|]. split; [exact Hlt|].
  intros ->. destruct (Nat.eq_dec j (length lines)) as [E|E]; [exact E|].
  destruct Hlt as [_ Hlt]; lia.
Qed.

(** The block loop stops at a content line shallower than the block: the
    lines from it on change nothing. *)
Lemma block_loop_dedent (fuel : nat) :
  forall (A : list str) (c : str) (B : list str) (start_indent : nat)
         (result : dict float) r,
    Forall (fun x => is_content x = true -> start_indent <= _get_indent x) A ->
    is_content c = true -> _get_indent c < start_indent ->
    block_loop py_float fuel A start_indent 0 result = Return r ->
    block_loop py_float fuel (A ++ c :: B) start_indent 0 result
    = Return (fst r, length A).
Proof.
  induction fuel as [|fuel IH]; intros A c B start_indent result r HA Hc Hi H;
    [discriminate|].
  destruct A as [|x A].
  { injection H as <-. simpl app. rewrite block_loop_cons. cbv beta zeta.
    rewrite Hc. simpl negb. cbv iota.
    now replace (_get_indent c <? start_indent) with true
      by (symmetry; apply Nat.ltb_lt; lia). }
  inversion HA as [|? ? Hx HA']; subst.
  assert (Hcont : forall res k, k <= length A ->
    shift (1 + k) (block_loop py_float fuel (skipn k A) start_indent 0 res)
    = Return r ->
    shift (1 + k)
      (block_loop py_float fuel (skipn k A ++ c :: B) start_indent 0 res)
    = Return (fst r, length (x :: A))).
  { intros res k Hk Hs. destruct r as [d j].
    apply shift_return_inv in Hs as (j' & Hs & ->).
    rewrite (IH _ c B _ _ _ (Forall_skipn _ k _ HA') Hc Hi Hs).
    simpl. rewrite length_skipn. do 2 f_equal. lia. }
  simpl app. rewrite block_loop_cons in H |- *. cbv beta zeta in H |- *.
  destruct (negb (is_content x)) eqn:Hcx; [exact (Hcont _ 0 (Nat.le_0_l _) H)|].
  apply negb_false_iff in Hcx. specialize (Hx Hcx).
  replace (_get_indent x <? start_indent) with false in H |- *
    by (symmetry; apply Nat.ltb_ge; lia).
  destruct (start_indent <? _get_indent x); [exact (Hcont _ 0 (Nat.le_0_l _) H)|].
  destruct (negb (contains ":" (strip (_remove_inline_comment x))));
    [exact (Hcont _ 0 (Nat.le_0_l _) H)|].
  destruct (_split_key_value _) as [[key value]| |]; [|discriminate..].
  cbn [bind] in H |- *.
  destruct (str_eqb value (L "|")).
  { rewrite multiline_scan_stop by (try assumption; lia).
    pose proof (multiline_scan_le (_get_indent x) A) as Hle.
    destruct (multiline_scan (_get_indent x) A) as [tl k]. simpl in Hle.
    rewrite skipn_app_le by lia. exact (Hcont _ k Hle H). }
  destruct (negb (nonempty value)).
  { rewrite nested_scan_stop by (try assumption; lia).
    pose proof (nested_scan_le (_get_indent x) A) as Hle.
    destruct (nested_scan (_get_indent x) A) as [[|y nl] k]; simpl in Hle.
    - exact (Hcont _ 0 (Nat.le_0_l _) H).
    - destruct (block_loop py_float fuel (y :: nl) _ 0 []) as [[d0 j0]| |];
        [|discriminate..].
      cbn [bind] in H |- *. rewrite skipn_app_le by lia.
      exact (Hcont _ k Hle H). }
  destruct (_parse_value py_float value) as [v'| |]; [|discriminate..].
  cbn [bind] in H |- *. exact (Hcont _ 0 (Nat.le_0_l _) H).
Qed.

(** X4.  A block ends at the first content line shallower than its level:
    whatever follows that line, the block read is the one of the lines
    before it, and the cursor is left at that line. *)
Theorem dedent_ends_block (fuel : nat) (A : list str) (c : str) (B : list str)
    (start_indent : nat) (d : dict float) (j : nat) :
  Forall (fun x => is_content x = true -> start_indent <= _get_indent x) A ->
  is_content c = true -> _get_indent c < start_indent ->
  _parse_block py_float fuel A start_indent = Return (d, j) ->
  _parse_block py_float fuel (A ++ c :: B) start_indent = Return (d, length A).
Proof.
  intros HA Hc Hi H. exact (block_loop_dedent _ _ _ _ _ _ _ HA Hc Hi H).
Qed.

(** ** A key with no value *)

Lemma nested_scan_length (indent : nat) (rest : list str) :
  length (fst (nested_scan indent rest)) <= snd (nested_scan indent rest).
Proof.
  induction rest as [|x rest IH]; simpl; [lia|].
  destruct (nested_scan indent rest) as [nl k]. simpl in IH.
  destruct (negb (is_content x)); [simpl; lia|].
  destruct (_get_indent x <=? indent); simpl; lia.
Qed.

Lemma nested_scan_first (indent : nat) (rest : list str) :
  fst (nested_scan indent rest) = [] <-> first_content_deeper indent rest = false.
Proof.
  unfold first_content_deeper.
  induction rest as [|x rest IH]; simpl; [tauto|].
  destruct (nested_scan indent rest) as [nl k]. simpl in IH.
  destruct (is_content x); simpl negb; cbv iota; [|exact IH].
  destruct (Nat.leb_spec (_get_indent x) indent) as [Hle|Hgt]; simpl.
  - split; [intros _; apply Nat.ltb_ge; lia | reflexivity].
  - split; [discriminate|]. intros H. apply Nat.ltb_ge in H. lia.
Qed.


(** X6.  Under a line [key:], a child indented by one more than the line
    ends the nested block: the key is bound to what the children before it
    give, and the children after it are dropped, whatever they are. *)
Theorem shallow_child_cuts_nested_block (fuel : nat) (header key : str)
    (A : list str) (c : str) (B : list str) (start_indent : nat)
    (dA : dict float) (jA : nat) :
  key_line start_indent header = Some (key, []) ->
  Forall (fun x => is_content x = true -> start_indent + 2 <= _get_indent x) A ->
  is_content c = true -> _get_indent c = start_indent + 1 ->
  Forall (fun x => is_content x = true -> start_indent < _get_indent x) B ->
  _parse_block py_float fuel (filter is_content A) (start_indent + 2)
  = Return (dA, jA) ->
  _parse_block py_float (S fuel) (header :: A ++ c :: B) start_indent
  = Return ([(key, VDict dA)], S (length (A ++ c :: B))).
Proof.
  intros Hkl HA Hc Hi HB H.
  unfold _parse_block in *. rewrite (block_loop_key_line _ _ _ _ _ _ _ Hkl).
  change (str_eqb [] (L "|")) with false. simpl negb. cbv iota.
  rewrite nested_scan_all_deeper.
  2:{ apply Forall_app. split; [|constructor; [intros _; lia | exact HB]].
      eapply Forall_impl; [|exact HA]. intros a Ha Hca. specialize (Ha Hca). lia. }
  rewrite filter_app. simpl filter. rewrite Hc.
  assert (E : block_loop py_float fuel
                (filter is_content A ++ c :: filter is_content B)
                (start_indent + 2) 0 []
              = Return (dA, length (filter is_content A))).
  { apply (block_loop_dedent fuel _ c _ _ _ (dA, jA)); [|exact Hc|lia|exact H].
    apply Forall_forall. intros x Hx. apply filter_In in Hx as [Hx _].
    rewrite Forall_forall in HA. now apply HA. }
  destruct fuel as [|fuel]; [discriminate|].
  destruct (filter is_content A ++ c :: filter is_content B) eqn:El;
    [now destruct (filter is_content A)|].
  rewrite E. cbn [bind fst]. rewrite skipn_all.
  change (block_loop py_float (S fuel) [] start_indent 0
            (dict_set [] key (VDict dA)))
    with (Return (dict_set [] key (VDict dA), 0)).
  simpl. now rewrite Nat.add_0_r.
Qed.

(** ** The shape of a parsed document *)

Lemma distinct_NoDup (l : list str) : distinct l = true <-> NoDup l.
Proof.
  induction l as [|x l IH]; [split; [constructor | reflexivity]|].
  rewrite distinct_cons, IH. split.
  - intros [H1 H2]. now constructor.
  - intros H. inversion H; subst. tauto.
Qed.

Lemma contains_false_iff (c : ascii) (s : str) :
  contains c s = false <-> ~ In c s.
Proof.
  unfold contains. split.
  - intros H Hin. assert (existsb (Ascii.eqb c) s = true); [|congruence].
    apply existsb_exists. exists c. split; [exact Hin | apply Ascii.eqb_refl].
  - intros H. destruct (existsb (Ascii.eqb c) s) eqn:E; [|reflexivity].
    apply existsb_exists in E as (x & Hx & Ex). apply Ascii.eqb_eq in Ex.
    subst. contradiction.
Qed.

Lemma contains_strip (c : ascii) (s : str) :
  contains c s = false -> contains c (strip s) = false.
Proof.
  intros H. unfold strip.
  destruct (lstrip_decomp s) as (w & E & _).
  destruct (rstrip_decomp (lstrip s)) as (w' & E' & _).
  rewrite E, contains_app in H. apply orb_false_elim in H as [_ H].
  rewrite E', contains_app in H. now apply orb_false_elim in H as [H _].
Qed.

Lemma contains_before (c sep : ascii) (s : str) :
  contains c s = false -> contains c (before sep s) = false.
Proof.
  induction s as [|x s IH]; [reflexivity|]. simpl. intros H.
  apply orb_false_elim in H as [H1 H2].
  destruct (Ascii.eqb x sep); [reflexivity|]. simpl. now rewrite H1, IH.
Qed.

Lemma contains_before_sep (sep : ascii) (s : str) :
  contains sep (before sep s) = false.
Proof.
  induction s as [|x s IH]; [reflexivity|]. simpl.
  destruct (Ascii.eqb x sep) eqn:E; [reflexivity|]. simpl.
  rewrite IH, orb_false_r. now rewrite Ascii.eqb_sym.
Qed.

Lemma contains_after (c sep : ascii) (s : str) :
  contains c s = false -> contains c (after sep s) = false.
Proof.
  induction s as [|x s IH]; [reflexivity|]. simpl. intros H.
  apply orb_false_elim in H as [H1 H2].
  destruct (Ascii.eqb x sep); [exact H2 | now apply IH].
Qed.

Lemma contains_slice_1_m1 (c : ascii) (s : str) :
  contains c s = false -> contains c (slice_1_m1 s) = false.
Proof.
  rewrite !contains_false_iff. intros H Hin. apply H. unfold slice_1_m1 in Hin.
  destruct s as [|x s]; [exact Hin|]. simpl tl in Hin. right.
  destruct s as [|y s]; [exact Hin|].
  rewrite (app_removelast_last y (l := y :: s)) by discriminate.
  apply in_or_app. now left.
Qed.

Lemma split_pieces (c sep : ascii) (s : str) :
  contains c s = false -> Forall (fun p => contains c p = false) (split sep s).
Proof.
  induction s as [|x s IH]; [now repeat constructor|]. simpl. intros H.
  apply orb_false_elim in H as [H1 H2]. specialize (IH H2).
  destruct (Ascii.eqb x sep); [now constructor|].
  destruct (split sep s) as [|w ws]; [now repeat constructor; simpl; rewrite H1|].
  inversion IH; subst. constructor; [simpl; rewrite H1; assumption | assumption].
Qed.

Lemma split_no_sep_pieces (sep : ascii) (s : str) :
  Forall (fun p => contains sep p = false) (split sep s).
Proof.
  induction s as [|x s IH]; [now repeat constructor|]. simpl.
  destruct (Ascii.eqb x sep) eqn:E; [now constructor|].
  destruct (split sep s) as [|w ws]; [repeat constructor; simpl;
    now rewrite Ascii.eqb_sym, E|].
  inversion IH; subst. constructor; [|assumption]. simpl.
  now rewrite Ascii.eqb_sym, E.
Qed.

Lemma trimmed_strip_self (s : str) : trimmed (strip s) = true.
Proof.
  unfold strip, trimmed.
  destruct (lstrip_decomp s) as (_ & _ & _ & [E|Hs]).
  - rewrite E. reflexivity.
  - destruct (rstrip_starts_nonspace _ Hs) as (H1 & H2 & _).
    rewrite H1, H2. apply orb_true_r.
Qed.

(** A stripped piece of a text without [:], [#] and line break is a key
    that a line can carry. *)
Lemma safe_key_strip (k : str) :
  contains ":" k = false -> contains "#" k = false ->
  contains newline k = false -> safe_key (strip k) = true.
Proof.
  intros H1 H2 H3. unfold safe_key. rewrite trimmed_strip_self, andb_true_r.
  apply contains_strip in H1, H2, H3. rewrite contains_false_iff in H1, H2, H3.
  unfold free_of. apply forallb_forall. intros x Hx. unfold is_char.
  destruct (Ascii.eqb_spec x ":") as [->|_]; [contradiction|].
  destruct (Ascii.eqb_spec x "#") as [->|_]; [contradiction|].
  destruct (Ascii.eqb_spec x newline) as [->|_]; [contradiction|].
  reflexivity.
Qed.

Lemma _parse_simple_value_shape (v : str) :
  no_dict (_parse_simple_value py_float v) = true /\
  parsed_shape (_parse_simple_value py_float v) = true.
Proof.
  unfold _parse_simple_value.
  destruct (_ || _); [now split|].
  destruct (str_in _ _); [now split|].
  destruct (str_in _ _); [now split|].
  destruct (str_in _ _); [now split|].
  destruct (_ || _); [destruct (py_float _) | destruct (py_int _)]; now split.
Qed.

Lemma forallb_map_simple (items : list str) :
  forallb no_dict (map (_parse_simple_value py_float) items) = true.
Proof.
  induction items as [|x items IH]; [reflexivity|]. simpl.
  now rewrite (proj1 (_parse_simple_value_shape x)), IH.
Qed.

Lemma array_loop_no_dict (f : str -> outcome (list (Value float))) :
  (forall s a, f s = Return a -> forallb no_dict a = true) ->
  forall chars depth item result a,
    forallb no_dict result = true ->
    array_loop py_float f chars depth item result = Return a ->
    forallb no_dict a = true.
Proof.
  intros Hf. induction chars as [|char rest IH]; intros depth item result a Hr H.
  { now injection H as <-. }
  simpl in H.
  destruct (Ascii.eqb char "["); [now apply IH in H|].
  destruct (Ascii.eqb char "]"); [now apply IH in H|].
  destruct (Ascii.eqb char "," && (depth =? 0)%Z); [|now apply IH in H].
  destruct (nonempty (strip item)); [|now apply IH in H].
  destruct (startswith "[" (strip item)).
  - destruct (f (strip item)) as [a0| |] eqn:E; [|discriminate..].
    cbn [bind] in H. apply IH in H; [exact H|].
    rewrite forallb_app, Hr. simpl. now rewrite (Hf _ _ E).
  - apply IH in H; [exact H|].
    rewrite forallb_app, Hr. simpl.
    now rewrite (proj1 (_parse_simple_value_shape _)).
Qed.

Lemma _parse_array_no_dict (fuel : nat) :
  forall text a,
    _parse_array py_float fuel text = Return a -> forallb no_dict a = true.
Proof.
  induction fuel as [|fuel IH]; intros text a H; [discriminate|].
  simpl in H. destruct (contains "[" _).
  - now apply (array_loop_no_dict _ IH) in H.
  - injection H as <-. apply forallb_map_simple.
Qed.

(** The entries of a dictionary of the parsed shape. *)
Lemma parsed_shape_dict (d : dict float) :
  parsed_shape (VDict d) = true <->
  NoDup (keys d) /\
  Forall (fun kv => safe_key (fst kv) = true /\ parsed_shape (snd kv) = true) d.
Proof.
  cbn [parsed_shape]. rewrite andb_true_iff, distinct_NoDup, forallb_forall,
    Forall_forall.
  split; intros [H1 H2]; (split; [exact H1|]); intros x Hx; specialize (H2 x Hx).
  - now apply andb_true_iff in H2.
  - now apply andb_true_iff.
Qed.

Lemma dict_set_Forall (P : str * Value float -> Prop) (d : dict float) (k : str)
    (v : Value float) :
  Forall P d -> P (k, v) -> Forall P (dict_set d k v).
Proof.
  intros Hd Hkv. induction d as [|[k' v'] d IH]; [now repeat constructor|].
  inversion Hd; subst. simpl.
  destruct (str_eqb k' k) eqn:E.
  - apply str_eqb_eq in E. subst. now constructor.
  - constructor; [assumption | now apply IH].
Qed.

Lemma parsed_shape_set (d : dict float) (k : str) (v : Value float) :
  parsed_shape (VDict d) = true -> safe_key k = true -> parsed_shape v = true ->
  parsed_shape (VDict (dict_set d k v)) = true.
Proof.
  rewrite !parsed_shape_dict. intros [H1 H2] Hk Hv. split.
  - now apply dict_set_keys_nodup.
  - now apply dict_set_Forall.
Qed.

Lemma inline_pairs_shape (pairs : list str) :
  forall (result d : dict float),
    Forall (fun p => contains "#" p = false /\ contains newline p = false) pairs ->
    parsed_shape (VDict result) = true ->
    inline_pairs py_float pairs result = Return d ->
    parsed_shape (VDict d) = true.
Proof.
  induction pairs as [|p pairs IH]; intros result d Hp Hr H.
  { now injection H as <-. }
  inversion Hp as [|? ? [Hh Hn] Hp']; subst. simpl in H.
  destruct (contains ":" p) eqn:Hc; simpl negb in H; cbv iota in H;
    [|now apply (IH _ _ Hp' Hr)].
  rewrite (split_once_contains _ _ Hc) in H.
  apply (IH _ _ Hp') in H; [exact H|].
  apply parsed_shape_set; [exact Hr | | apply _parse_simple_value_shape].
  apply safe_key_strip;
    [apply contains_before_sep | now apply contains_before..].
Qed.

Lemma _parse_value_shape (value : str) (v : Value float) :
  contains "#" value = false -> contains newline value = false ->
  _parse_value py_float value = Return v -> parsed_shape v = true.
Proof.
  intros Hh Hn. unfold _parse_value.
  destruct (_ && _).
  { destruct (_parse_inline_object py_float (strip value)) as [d| |] eqn:E;
      [|discriminate..].
    cbn [bind]. intros H. injection H as <-.
    unfold _parse_inline_object in E.
    apply inline_pairs_shape in E; [exact E | | reflexivity].
    pose proof (split_pieces "#" "," _
      (contains_slice_1_m1 _ _ (contains_strip _ _
         (contains_strip _ _ Hh)))) as F1.
    pose proof (split_pieces newline "," _
      (contains_slice_1_m1 _ _ (contains_strip _ _
         (contains_strip _ _ Hn)))) as F2.
    rewrite Forall_forall in *. intros x Hx. split; [now apply F1 | now apply F2]. }
  destruct (_ && _).
  { destruct (_parse_array py_float _ (strip value)) as [a| |] eqn:E;
      [|discriminate..].
    cbn [bind]. intros H. injection H as <-.
    exact (_parse_array_no_dict _ _ _ E). }
  destruct (_ || _); intros H; injection H as <-.
  - apply forallb_map_simple.
  - apply _parse_simple_value_shape.
Qed.

Lemma nested_scan_incl (indent : nat) (rest : list str) :
  incl (fst (nested_scan indent rest)) rest.
Proof.
  induction rest as [|x rest IH]; simpl; [easy|].
  destruct (nested_scan indent rest) as [nl k]. simpl in IH.
  destruct (negb (is_content x)); [now apply incl_tl|].
  destruct (_get_indent x <=? indent); simpl; [easy|].
  now apply incl_cons; [left | apply incl_tl].
Qed.

Lemma block_loop_shape (fuel : nat) :
  forall (lines : list str) (start_indent : nat) (result : dict float) r,
    Forall (fun l => contains newline l = false) lines ->
    parsed_shape (VDict result) = true ->
    block_loop py_float fuel lines start_indent 0 result = Return r ->
    parsed_shape (VDict (fst r)) = true.
Proof.
  induction fuel as [|fuel IH]; intros lines start_indent result r Hl Hr H;
    [discriminate|].
  destruct lines as [|l rest]; [now injection H as <-|].
  inversion Hl as [|? ? Hnl Hrest]; subst.
  assert (Hcont : forall res k,
    parsed_shape (VDict res) = true ->
    shift (1 + k) (block_loop py_float fuel (skipn k rest) start_indent 0 res)
    = Return r -> parsed_shape (VDict (fst r)) = true).
  { intros res k Hres Hs. apply shift_return in Hs.
    apply IH in Hs; [exact Hs | now apply Forall_skipn | exact Hres]. }
  rewrite block_loop_cons in H. cbv beta zeta in H.
  destruct (negb (is_content l)); [exact (Hcont _ 0 Hr H)|].
  destruct (_get_indent l <? start_indent); [now injection H as <-|].
  destruct (start_indent <? _get_indent l); [exact (Hcont _ 0 Hr H)|].
  destruct (contains ":" (strip (_remove_inline_comment l))) eqn:Hcol;
    simpl negb in H; cbv iota in H; [|exact (Hcont _ 0 Hr H)].
  unfold _split_key_value in H. rewrite (split_once_contains _ _ Hcol) in H.
  cbn [bind] in H.
  assert (Hclean : contains "#" (strip (_remove_inline_comment l)) = false /\
                   contains newline (strip (_remove_inline_comment l)) = false).
  { unfold _remove_inline_comment. destruct (contains "#" l) eqn:Hh.
    - split; apply contains_strip;
        [apply contains_before_sep | now apply contains_before].
    - split; now apply contains_strip. }
  destruct Hclean as [Hh Hn].
  set (cleaned := strip (_remove_inline_comment l)) in *.
  assert (Hkey : safe_key (strip (before ":" cleaned)) = true).
  { apply safe_key_strip;
      [apply contains_before_sep | now apply contains_before..]. }
  destruct (str_eqb _ (L "|")).
  { destruct (multiline_scan (_get_indent l) rest) as [tl k].
    apply (Hcont _ _ (parsed_shape_set _ _ (VStr _) Hr Hkey eq_refl) H). }
  destruct (negb (nonempty _)).
  { pose proof (nested_scan_incl (_get_indent l) rest) as Hincl.
    destruct (nested_scan (_get_indent l) rest) as [[|y nl] k].
    - apply (Hcont _ 0 (parsed_shape_set _ _ VNone Hr Hkey eq_refl) H).
    - destruct (block_loop py_float fuel (y :: nl) _ 0 []) as [[d0 j0]| |] eqn:E;
        [|discriminate..].
      cbn [bind fst] in H. apply IH in E; [|now apply (incl_Forall Hincl)|reflexivity].
      apply (Hcont _ _ (parsed_shape_set _ _ _ Hr Hkey E) H). }
  destruct (_parse_value py_float _) as [v'| |] eqn:E; [|discriminate..].
  cbn [bind] in H.
  apply _parse_value_shape in E;
    [|now apply contains_strip, contains_after..].
  apply (Hcont _ 0 (parsed_shape_set _ _ _ Hr Hkey E) H).
Qed.

(** X7.  Whatever the text, the document that [parse] returns has the
    parsed shape: at every level the keys of a dictionary are distinct,
    have no [:], no [#], no line break and no whitespace at either end, and
    no list holds a dictionary. *)
Theorem parse_result_shape (text : str) (d : dict float) :
  parse py_float text = Return d -> parsed_shape (VDict d) = true.
Proof.
  unfold parse, _parse_block. intros H.
  destruct (block_loop py_float _ _ 0 0 []) as [r| |] eqn:E; [|discriminate..].
  cbn [bind] in H. injection H as <-.
  apply block_loop_shape in E; [exact E | | reflexivity].
  apply split_no_sep_pieces.
Qed.

(** ** Inline comments *)

Lemma lstrip_head (s : str) (c : ascii) (s' : str) :
  lstrip s = c :: s' -> isspace c = false.
Proof.
  induction s as [|x s IH]; [discriminate|]. simpl.
  destruct (isspace x) eqn:E; [exact IH|]. intros H. injection H as <- _. exact E.
Qed.

Lemma rstrip_cons (c : ascii) (s : str) :
  isspace c = false -> rstrip (c :: s) = c :: rstrip s.
Proof.
  intros Hc. unfold rstrip. simpl rev.
  destruct (lstrip (rev s)) as [|y t] eqn:E.
  - rewrite lstrip_space_app by now apply lstrip_nil_all_space.
    simpl. now rewrite Hc.
  - rewrite lstrip_app_keep by (rewrite E; discriminate).
    rewrite E, rev_app_distr. reflexivity.
Qed.

(** What a content line keeps when text is put after it: that it is a
    content line, and its indentation. *)
Lemma is_content_app (l x : str) :
  is_content l = true ->
  is_content (l ++ x) = true /\ _get_indent (l ++ x) = _get_indent l.
Proof.
  unfold is_content, strip, _get_indent. intros H.
  destruct (lstrip l) as [|c s] eqn:E; [discriminate|].
  pose proof (lstrip_head _ _ _ E) as Hc.
  pose proof (lstrip_length l) as Hlen.
  rewrite lstrip_app_keep by (rewrite E; discriminate).
  rewrite E in *. simpl app. rewrite rstrip_cons in * by assumption.
  split; [exact H|]. rewrite !length_app. simpl length in *. rewrite length_app. lia.
Qed.

Lemma _remove_inline_comment_app (l c : str) :
  contains "#" l = false ->
  _remove_inline_comment (l ++ "#" :: c) = l /\ _remove_inline_comment l = l.
Proof.
  intros H. unfold _remove_inline_comment.
  now rewrite contains_middle, before_app_sep, H.
Qed.

(** X8.  A comment put after a content line that has no [#] changes
    nothing in what the block loop does at that line, whatever the line
    and whatever the comment: the text from the first [#] on is cut off
    before the line is read. *)
Theorem inline_comment_ignored (fuel : nat) (l c : str) (rest : list str)
    (start_indent : nat) :
  is_content l = true -> contains "#" l = false ->
  _parse_block py_float fuel ((l ++ "#" :: c) :: rest) start_indent
  = _parse_block py_float fuel (l :: rest) start_indent.
Proof.
  intros Hc Hh. unfold _parse_block.
  destruct fuel as [|fuel]; [reflexivity|].
  destruct (is_content_app l ("#" :: c) Hc) as [Hc' Hi'].
  destruct (_remove_inline_comment_app l c Hh) as [Hr' Hr].
  assert (Hc2 : is_content (l ++ "#" :: c) = is_content l) by congruence.
  assert (Hr2 : _remove_inline_comment (l ++ "#" :: c) = _remove_inline_comment l)
    by congruence.
  rewrite !block_loop_cons. cbv beta zeta.
  revert Hc2 Hi' Hr2.
  generalize (is_content (l ++ "#" :: c)), (_get_indent (l ++ "#" :: c)),
    (_remove_inline_comment (l ++ "#" :: c)).
  now intros c1 i1 r1 -> -> ->.
Qed.

(** ** Lists of dictionaries in the serializer *)

Lemma dumps_items_nonnil (n : nat) (d : dict float) :
  d <> [] -> dumps_items float_str n d <> [].
Proof.
  destruct d as [|[k v] d]; [congruence|]. intros _ H. simpl in H.
  apply app_eq_nil in H as [H _]. now apply dumps_entry_nonnil in H.
Qed.

Lemma dumps_items_concat (n : nat) (ds : list (dict float)) :
  dumps_items float_str n (concat ds)
  = concat (map (dumps_items float_str n) ds).
Proof.
  induction ds as [|d ds IH]; [reflexivity|].
  simpl. now rewrite dumps_items_app, IH.
Qed.

Lemma join_flatten_all (sep : str) (Xs : list (list str)) (post : list str) :
  Forall (fun X => X <> []) Xs ->
  join sep (map (join sep) Xs ++ post) = join sep (concat Xs ++ post).
Proof.
  induction 1 as [|X Xs HX HXs IH]; [reflexivity|].
  simpl map. simpl concat. simpl app. rewrite join_flatten by assumption.
  rewrite <- app_assoc. apply join_app_congr; [exact IH|].
  destruct HXs as [|Y Xs HY _]; [reflexivity|].
  destruct Y; [congruence|]. simpl. split; discriminate.
Qed.

(** X9.  [dumps] writes a list of non-empty dictionaries exactly as it
    writes the single dictionary of all their entries: the key line,
    then the entries of every item one level deeper, with nothing between
    the items.  The two documents have the same text. *)
Theorem list_of_dicts_written_as_one_dict (pre post : dict float) (k : str)
    (ds : list (dict float)) (indent : nat) :
  ds <> [] -> Forall (fun d => d <> []) ds ->
  dumps float_str (pre ++ (k, VList (map VDict ds)) :: post) indent
  = dumps float_str (pre ++ (k, VDict (concat ds)) :: post) indent.
Proof.
  intros Hne Hall. rewrite !dumps_eq, !dumps_items_app.
  set (hdr := str_mul (L "  ") indent ++ k ++ L ":").
  assert (E1 : dumps_items float_str indent ((k, VList (map VDict ds)) :: post)
               = join [newline]
                   (hdr :: map (fun d => join [newline]
                                           (dumps_items float_str (indent + 1) d)) ds)
                 :: dumps_items float_str indent post).
  { cbn [dumps_items dumps_entry app]. f_equal. unfold _format_list.
    replace (forallb is_scalar (map VDict ds)) with false
      by (now destruct ds).
    fold hdr. do 2 f_equal. rewrite map_map. apply map_ext. intros d.
    rewrite str_mul_length, Nat.mul_comm, Nat.div_mul by discriminate.
    apply (dumps_eq d (indent + 1)). }
  assert (E2 : dumps_items float_str indent ((k, VDict (concat ds)) :: post)
               = hdr :: join [newline] (dumps_items float_str (indent + 1) (concat ds))
                 :: dumps_items float_str indent post).
  { cbn [dumps_items dumps_entry app]. fold hdr. do 2 f_equal.
    apply (dumps_eq (concat ds) (indent + 1)). }
  rewrite E1, E2. apply join_app_congr; [|split; discriminate].
  rewrite join_flatten by discriminate. simpl app.
  apply (join_app_congr _ [hdr]); simpl app.
  - rewrite <- (map_map (dumps_items float_str (indent + 1)) (join [newline])).
    rewrite join_flatten_all.
    + rewrite join_flatten; [now rewrite dumps_items_concat|].
      apply dumps_items_nonnil. destruct ds as [|d ds]; [congruence|].
      inversion Hall; subst. simpl. intros H. now apply app_eq_nil in H as [H _].
    + apply Forall_map. eapply Forall_impl; [|exact Hall].
      intros d Hd. now apply dumps_items_nonnil.
  - destruct ds; [congruence|]. split; discriminate.
Qed.

(** ** Text blocks written and read back *)

(** The result of the block loop does not depend on the fuel, once there
    is more of it than lines. *)
Lemma block_loop_enough (fuel F : nat) (lines : list str) (start_indent : nat)
    (result : dict float) r :
  length lines < fuel ->
  block_loop py_float F lines start_indent 0 result = Return r ->
  block_loop py_float fuel lines start_indent 0 result = Return r.
Proof.
  intros Hfuel H.
  destruct (Nat.le_ge_cases F fuel) as [Hle|Hge].
  - exact (block_loop_fuel_mono _ _ _ _ _ _ H _ Hle).
  - destruct (block_loop_returns fuel lines start_indent 0 result ltac:(lia))
      as [r' E].
    pose proof (block_loop_fuel_mono _ _ _ _ _ _ E _ Hge) as E'.
    congruence.
Qed.

(** The block loop over lines followed by a line of the block, or by
    nothing: it reads the lines, then goes on from that line. *)
Lemma block_loop_then (f1 : nat) :
  forall (A tail : list str) (start_indent : nat) (result d : dict float)
         (f2 : nat) r,
    Forall (fun x => is_content x = true -> start_indent <= _get_indent x) A ->
    match tail with
    | [] => True
    | c :: _ => is_content c = true /\ _get_indent c <= start_indent
    end ->
    block_loop py_float f1 A start_indent 0 result = Return (d, length A) ->
    block_loop py_float f2 tail start_indent 0 d = Return r ->
    block_loop py_float (f1 + f2) (A ++ tail) start_indent 0 result
    = Return (fst r, length A + snd r).
Proof.
  induction f1 as [|f1 IH]; intros A tail start_indent result d f2 r HA Ht H H2;
    [discriminate|].
  destruct A as [|x A].
  { injection H as <-. simpl app. destruct r as [d' j'].
    cbn [fst snd length Nat.add].
    apply (block_loop_fuel_mono _ _ _ _ _ _ H2). lia. }
  inversion HA as [|? ? Hx HA']; subst.
  assert (Hcont : forall res k, k <= length A ->
    shift (1 + k) (block_loop py_float f1 (skipn k A) start_indent 0 res)
    = Return (d, length (x :: A)) ->
    shift (1 + k)
      (block_loop py_float (f1 + f2) (skipn k A ++ tail) start_indent 0 res)
    = Return (fst r, length (x :: A) + snd r)).
  { intros res k Hk Hs. apply shift_return_inv in Hs as (j' & Hs & Hj).
    assert (Hj' : j' = length (skipn k A))
      by (rewrite length_skipn; simpl length in Hj; lia).
    subst j'.
    rewrite (IH _ tail _ _ _ f2 r (Forall_skipn _ k _ HA') Ht Hs H2).
    simpl. rewrite length_skipn. do 2 f_equal. lia. }
  assert (Hstop : forall y, is_content y = true -> _get_indent y = start_indent ->
            match tail with
            | [] => True
            | c :: _ => is_content c = true /\ _get_indent c <= _get_indent y
            end).
  { intros y _ Hy. destruct tail as [|c B]; [exact I|]. now rewrite Hy. }
  simpl app. change (S f1 + f2) with (S (f1 + f2)).
  rewrite block_loop_cons in H |- *. cbv beta zeta in H |- *.
  destruct (negb (is_content x)) eqn:Hcx; [exact (Hcont _ 0 (Nat.le_0_l _) H)|].
  apply negb_false_iff in Hcx. specialize (Hx Hcx).
  replace (_get_indent x <? start_indent) with false in H |- *
    by (symmetry; apply Nat.ltb_ge; lia).
  destruct (start_indent <? _get_indent x) eqn:Hgt;
    [exact (Hcont _ 0 (Nat.le_0_l _) H)|].
  apply Nat.ltb_ge in Hgt.
  specialize (Hstop x Hcx ltac:(lia)).
  destruct (negb (contains ":" (strip (_remove_inline_comment x))));
    [exact (Hcont _ 0 (Nat.le_0_l _) H)|].
  destruct (_split_key_value _) as [[key value]| |]; [|discriminate..].
  cbn [bind] in H |- *.
  destruct (str_eqb value (L "|")).
  { assert (E : multiline_scan (_get_indent x) (A ++ tail)
                = multiline_scan (_get_indent x) A).
    { destruct tail as [|c B]; [now rewrite app_nil_r|].
      now apply multiline_scan_stop. }
    rewrite E. pose proof (multiline_scan_le (_get_indent x) A) as Hle.
    destruct (multiline_scan (_get_indent x) A) as [tl k]. simpl in Hle.
    rewrite skipn_app_le by lia. exact (Hcont _ k Hle H). }
  destruct (negb (nonempty value)).
  { assert (E : nested_scan (_get_indent x) (A ++ tail)
                = nested_scan (_get_indent x) A).
    { destruct tail as [|c B]; [now rewrite app_nil_r|].
      now apply nested_scan_stop. }
    rewrite E. pose proof (nested_scan_le (_get_indent x) A) as Hle.
    destruct (nested_scan (_get_indent x) A) as [[|y nl] k]; simpl in Hle.
    - exact (Hcont _ 0 (Nat.le_0_l _) H).
    - destruct (block_loop py_float f1 (y :: nl) _ 0 []) as [[d0 j0]| |] eqn:E0;
        [|discriminate..].
      rewrite (block_loop_fuel_mono _ _ _ _ _ _ E0 (f1 + f2)) by lia.
      cbn [bind] in H |- *. rewrite skipn_app_le by lia.
      exact (Hcont _ k Hle H). }
  destruct (_parse_value py_float value) as [v'| |]; [|discriminate..].
  cbn [bind] in H |- *. exact (Hcont _ 0 (Nat.le_0_l _) H).
Qed.

Lemma join_split (sep : ascii) (s : str) : join [sep] (split sep s) = s.
Proof.
  induction s as [|c s IH]; [reflexivity|]. simpl.
  destruct (Ascii.eqb_spec c sep) as [->|Hne].
  - destruct (split sep s) as [|w ws] eqn:E; [now destruct s|].
    simpl. simpl in IH. now rewrite IH.
  - destruct (split sep s) as [|w ws] eqn:E; [now destruct s|].
    destruct ws; simpl in *; now rewrite <- IH.
Qed.

Lemma split_nonnil (sep : ascii) (s : str) : split sep s <> [].
Proof.
  destruct s as [|c s]; [discriminate|]. simpl.
  destruct (Ascii.eqb c sep); [discriminate|].
  destruct (split sep s); discriminate.
Qed.

(** The scan of [_parse_multiline] over the lines of a text written at
    level 0 takes them all and gives the lines of the text back. *)
Lemma multiline_scan_text (ls tail : list str) :
  match tail with
  | [] => True
  | c :: _ => is_content c = true /\ _get_indent c <= 0
  end ->
  multiline_scan 0 (map (fun line => L "  " ++ line) ls ++ tail)
  = (ls, length ls).
Proof.
  intros Ht. induction ls as [|x ls IH].
  - destruct tail as [|c B]; [reflexivity|]. destruct Ht as [Hc Hi].
    simpl. unfold is_content in Hc. apply andb_true_iff in Hc as [Hc _].
    rewrite Hc. now replace (_get_indent c <=? 0) with true
      by (symmetry; apply Nat.leb_le; lia).
  - cbn [map app multiline_scan]. rewrite IH.
    replace (_get_indent (L "  " ++ x) <=? 0) with false.
    2:{ symmetry. apply Nat.leb_gt.
        change (_get_indent (L "  " ++ x))
          with (S (S (length x)) - length (lstrip x)).
        pose proof (lstrip_length x). lia. }
    simpl andb. cbv iota. f_equal. f_equal.
    destruct x as [|c x]; reflexivity.
Qed.

Lemma ends_nonspace_app_ne (a b : str) :
  b <> [] -> ends_nonspace (a ++ b) = ends_nonspace b.
Proof.
  intros Hb. unfold ends_nonspace. rewrite rev_app_distr.
  destruct (rev b) as [|c r] eqn:E; [|reflexivity].
  apply (f_equal (@rev ascii)) in E. rewrite rev_involutive in E. contradiction.
Qed.

Lemma ends_join_last (ls : list str) :
  ls <> [] ->
  ends_nonspace (join [newline] ls) = ends_nonspace (last ls []).
Proof.
  induction ls as [|x ls IH]; [congruence|]. intros _.
  destruct ls as [|y ls]; [reflexivity|].
  specialize (IH ltac:(discriminate)).
  change (join [newline] (x :: y :: ls))
    with (x ++ newline :: join [newline] (y :: ls)).
  change (last (x :: y :: ls) []) with (last (y :: ls) []).
  rewrite ends_nonspace_app_ne by discriminate. rewrite <- IH.
  destruct (join [newline] (y :: ls)) as [|c t]; [reflexivity|].
  change (newline :: c :: t) with ([newline] ++ c :: t).
  now rewrite ends_nonspace_app_ne.
Qed.

Lemma last_app_ne {A : Type} (a b : list A) (d : A) :
  b <> [] -> last (a ++ b) d = last b d.
Proof.
  intros Hb. induction a as [|x a IH]; [reflexivity|].
  simpl app. destruct (a ++ b) eqn:E; [|exact IH].
  apply app_eq_nil in E as [_ E]. contradiction.
Qed.

(** The lines written for a text block. *)
Lemma text_lines_facts (k s : str) :
  safe_key k = true -> text_block s = true ->
  key_line 0 (k ++ L ": |") = Some (k, L "|") /\
  Forall (fun l => contains newline l = false) (text_lines k s) /\
  ends_nonspace (last (text_lines k s) []) = true.
Proof.
  intros Hk Hs. apply andb_true_iff in Hs as [Hnl He].
  destruct (safe_key_facts k Hk) as (_ & _ & Hknl & _).
  split; [exact (key_line_make 0 k (L " |") Hk eq_refl (or_intror eq_refl))|].
  split.
  - constructor; [now rewrite contains_app, Hknl|].
    apply Forall_map. eapply Forall_impl; [|apply (split_no_sep_pieces newline s)].
    intros a Ha. exact Ha.
  - unfold text_lines.
    pose proof (split_nonnil newline s) as Hne.
    rewrite <- (join_split newline s), ends_join_last in He by assumption.
    destruct (split newline s) as [|x ls]; [congruence|].
    change (last ((k ++ L ": |") :: map (fun line => L "  " ++ line) (x :: ls)) [])
      with (last (map (fun line => L "  " ++ line) (x :: ls)) []).
    clear Hne. revert x He. induction ls as [|y ls IH]; intros x He.
    + simpl last in *. destruct x as [|c x]; [discriminate|].
      change (" " :: " " :: c :: x)%char with (L "  " ++ c :: x).
      now rewrite ends_nonspace_app_ne.
    + exact (IH y He).
Qed.

(** The lines written for an entry at the top level: the first one is a
    content line at level 0, none has a line break, and the last one ends
    with no whitespace. *)
Lemma top_entry_lines_facts (k : str) (v : Value float) :
  safe_key k = true -> top_value py_float float_str v ->
  (exists c B, top_entry_lines float_str k v = c :: B /\
               is_content c = true /\ _get_indent c = 0) /\
  Forall (fun l => contains newline l = false) (top_entry_lines float_str k v) /\
  ends_nonspace (last (top_entry_lines float_str k v) []) = true.
Proof.
  intros Hk [Hv|(s & -> & Hs)].
  - assert (E : top_entry_lines float_str k v = entry_lines float_str 0 k v).
    { destruct v as [| | | |s| |]; try reflexivity. simpl in Hv |- *.
      unfold plain_str in Hv.
      repeat (apply andb_true_iff in Hv as [Hv ?]).
      destruct (breaks_token_free s) as (_ & _ & _ & _ & _ & Hnl); [assumption|].
      now rewrite Hnl. }
    rewrite E. destruct (entry_lines_ok v 0 k Hk Hv) as [Hall (l0 & rest & E0 & Hc & Hi)].
    split; [now exists l0, rest|]. split.
    + eapply Forall_impl; [|exact Hall]. now intros a (_ & _ & Hnl & _).
    + rewrite Forall_forall in Hall.
      destruct (Hall (last (entry_lines float_str 0 k v) [])) as (_ & _ & _ & He);
        [|exact He].
      rewrite E0. clear. revert l0. induction rest as [|y rest IH]; intros l0;
        [now left | right; apply IH].
  - destruct (text_lines_facts k s Hk Hs) as (Hkl & Hall & He).
    pose proof Hs as Hs'. apply andb_true_iff in Hs' as [Hnl _].
    simpl top_entry_lines. rewrite Hnl.
    split; [|now split].
    destruct (key_line_inv _ _ _ _ Hkl) as (Hc & Hi & _).
    now exists (k ++ L ": |"), (map (fun line => L "  " ++ line) (split newline s)).
Qed.

Lemma top_lines_facts (d : dict float) :
  Forall (fun kv => safe_key (fst kv) = true /\ top_value py_float float_str (snd kv)) d ->
  d <> [] ->
  (exists c B, top_lines float_str d = c :: B /\
               is_content c = true /\ _get_indent c = 0) /\
  Forall (fun l => contains newline l = false) (top_lines float_str d) /\
  ends_nonspace (last (top_lines float_str d) []) = true.
Proof.
  induction 1 as [|[k v] d [Hk Hv] Hd IH]; [congruence|]. intros _.
  simpl fst in Hk. simpl snd in Hv.
  destruct (top_entry_lines_facts k v Hk Hv) as ((c & B & E & Hc & Hi) & Hall & He).
  cbn [top_lines]. split; [|split].
  - rewrite E. now exists c, (B ++ top_lines float_str d).
  - apply Forall_app. split; [exact Hall|].
    destruct d as [|kv d]; [constructor|]. now apply IH.
  - destruct d as [|kv d]; [simpl top_lines; now rewrite app_nil_r|].
    destruct IH as ((c' & B' & E' & _) & _ & He'); [discriminate|].
    rewrite last_app_ne by (rewrite E'; discriminate). exact He'.
Qed.

(** What the lines that follow an entry at the top level begin with. *)
Lemma top_lines_tail (d : dict float) :
  Forall (fun kv => safe_key (fst kv) = true /\ top_value py_float float_str (snd kv)) d ->
  match top_lines float_str d with
  | [] => True
  | c :: _ => is_content c = true /\ _get_indent c <= 0
  end.
Proof.
  intros Hd. destruct d as [|kv d]; [exact I|].
  destruct (top_lines_facts _ Hd) as ((c & B & E & Hc & Hi) & _); [discriminate|].
  rewrite E. split; [exact Hc | lia].
Qed.

(** The block loop over the lines written for the entries [d] at the top
    level appends [d] to the entries read before. *)
Lemma block_loop_top_lines (d : dict float) :
  forall result,
    Forall (fun kv => safe_key (fst kv) = true /\ top_value py_float float_str (snd kv)) d ->
    distinct (keys result ++ keys d) = true ->
    exists F,
      block_loop py_float F (top_lines float_str d) 0 0 result
      = Return (result ++ d, length (top_lines float_str d)).
Proof.
  induction d as [|[k v] d IH]; intros result Hent Hdist.
  { exists 1. simpl. now rewrite app_nil_r. }
  inversion Hent as [|? ? [Hk Hv] Hent']; subst. simpl fst in Hk. simpl snd in Hv.
  simpl keys in Hdist. pose proof Hdist as Hdist0.
  apply distinct_app_cons in Hdist as [Hfresh Hdist].
  assert (Hkeys : keys (result ++ [(k, v)]) = keys result ++ [k])
    by (unfold keys; now rewrite map_app).
  destruct (IH (result ++ [(k, v)]) Hent' ltac:(now rewrite Hkeys)) as [F2 E2].
  rewrite <- app_assoc in E2. simpl app in E2.
  pose proof (top_lines_tail d Hent') as Htail.
  cbn [top_lines]. rewrite length_app.
  destruct Hv as [Hv|(s & -> & Hs)].
  - assert (E : top_entry_lines float_str k v = entry_lines float_str 0 k v).
    { destruct v as [| | | |s| |]; try reflexivity. simpl in Hv |- *.
      unfold plain_str in Hv.
      repeat (apply andb_true_iff in Hv as [Hv ?]).
      destruct (breaks_token_free s) as (_ & _ & _ & _ & _ & Hnl); [assumption|].
      now rewrite Hnl. }
    rewrite E.
    pose proof (block_roundtrip_value (VDict [(k, v)]) 0 result
                  (S (length (entry_lines float_str 0 k v)))) as H1.
    cbn [doc_lines] in H1. rewrite app_nil_r in H1. simpl Nat.mul in H1.
    specialize (H1 ltac:(now repeat constructor)).
    assert (Hd1 : distinct (keys result ++ keys [(k, v)]) = true).
    { simpl keys. clear -Hdist0. induction (keys result) as [|x xs IHx];
        [reflexivity|].
      simpl app in *. apply distinct_cons in Hdist0 as [Hx Hxs].
      apply distinct_cons. split; [|now apply IHx].
      intros Hin. apply Hx. apply in_app_or in Hin as [Hin|[<-|[]]];
        apply in_or_app; [now left | right; now left]. }
    specialize (H1 Hd1 ltac:(lia)).
    exists (S (length (entry_lines float_str 0 k v)) + F2).
    assert (HA0 : Forall (fun x => is_content x = true -> 0 <= _get_indent x)
                    (entry_lines float_str 0 k v))
      by (apply Forall_forall; intros; lia).
    rewrite (block_loop_then _ _ _ _ _ _ _ _ HA0 Htail H1 E2).
    reflexivity.
  - pose proof Hs as Hs'. apply andb_true_iff in Hs' as [Hnl He].
    destruct (text_lines_facts k s Hk Hs) as (Hkl & _).
    simpl top_entry_lines. rewrite Hnl. unfold text_lines.
    exists (S F2). simpl app.
    rewrite (block_loop_key_line _ _ _ _ _ _ _ Hkl).
    change (str_eqb (L "|") (L "|")) with true. cbv iota.
    rewrite (multiline_scan_text _ _ Htail).
    rewrite join_split, (ends_nonspace_rstrip _ He).
    rewrite skipn_app_le by (rewrite length_map; apply Nat.le_refl).
    rewrite skipn_all2 by (rewrite length_map; apply Nat.le_refl).
    simpl app. rewrite dict_set_fresh by assumption. rewrite E2.
    simpl. rewrite length_map. reflexivity.
Qed.

Lemma join_app_both (sep : str) (A A' X X' : list str) :
  A <> [] -> A' <> [] -> join sep A = join sep A' ->
  join sep X = join sep X' -> (X = [] <-> X' = []) ->
  join sep (A ++ X) = join sep (A' ++ X').
Proof.
  intros HA HA' EA EX Hnil.
  rewrite <- (join_flatten sep A X) by assumption. rewrite EA.
  rewrite join_flatten by assumption. now apply join_app_congr.
Qed.

(** The text that [dumps] gives is that of the lines. *)
Lemma dumps_top_lines (d : dict float) :
  Forall (fun kv => safe_key (fst kv) = true /\ top_value py_float float_str (snd kv)) d ->
  join [newline] (dumps_items float_str 0 d)
  = join [newline] (top_lines float_str d).
Proof.
  induction 1 as [|[k v] d [Hk Hv] Hd IH]; [reflexivity|].
  simpl fst in Hk. simpl snd in Hv. cbn [dumps_items top_lines].
  destruct (top_entry_lines_facts k v Hk Hv) as ((c & B & E & _) & _).
  apply join_app_both.
  - apply dumps_entry_nonnil.
  - rewrite E. discriminate.
  - destruct Hv as [Hv|(s & -> & Hs)].
    + assert (E' : top_entry_lines float_str k v = entry_lines float_str 0 k v).
      { destruct v as [| | | |s| |]; try reflexivity. simpl in Hv |- *.
        unfold plain_str in Hv.
        repeat (apply andb_true_iff in Hv as [Hv ?]).
        destruct (breaks_token_free s) as (_ & _ & _ & _ & _ & Hnl); [assumption|].
        now rewrite Hnl. }
      rewrite E'.
      pose proof (dumps_doc_lines_value (VDict [(k, v)]) 0
                    ltac:(now repeat constructor)) as H1.
      cbn [dumps_items doc_lines] in H1. now rewrite !app_nil_r in H1.
    + apply andb_true_iff in Hs as [Hnl _].
      simpl. rewrite Hnl. reflexivity.
  - exact IH.
  - destruct d as [|[k' v'] d]; [tauto|]. inversion Hd as [|? ? [Hk' Hv'] _]; subst.
    destruct (top_entry_lines_facts k' v' Hk' Hv') as ((c' & B' & E' & _) & _).
    cbn [dumps_items top_lines]. rewrite E'. split; intros H0.
    + apply app_eq_nil in H0 as [H0 _]. now apply dumps_entry_nonnil in H0.
    + discriminate.
Qed.

(** The lines that [dumps] writes for a document with text blocks at the
    top level are read back as the document by the loops of [parse]. *)
Lemma top_doc_read_back (d : dict float) :
  top_doc py_float float_str d ->
  parse py_float (dumps float_str d 0) = Return d.
Proof.
  intros [Hdist Hent].
  destruct d as [|kv d]; [reflexivity|].
  rewrite dumps_eq, (dumps_top_lines _ Hent).
  destruct (top_lines_facts _ Hent ltac:(discriminate))
    as ((c & B & E & Hc & Hi) & Hall & He).
  destruct (block_loop_top_lines _ [] Hent Hdist) as [F HF].
  set (lines := top_lines float_str (kv :: d)) in *.
  assert (Hstrip : strip (join [newline] lines) = join [newline] lines).
  { apply (indented_strip [] _ eq_refl).
    - rewrite E. pose proof (indent0_starts c Hc Hi) as Hs.
      destruct B; [exact Hs|]. now apply starts_nonspace_app.
    - rewrite ends_join_last; [exact He | rewrite E; discriminate]. }
  unfold parse, _parse_block. rewrite Hstrip, split_join;
    [|exact Hall | rewrite E; discriminate].
  rewrite (block_loop_enough _ F _ _ _ _ (Nat.lt_succ_diag_r _) HF).
  reflexivity.
Qed.

(** ** Inline objects *)

Lemma strip_bracketed (o c : ascii) (body : str) :
  isspace o = false -> isspace c = false ->
  strip (o :: body ++ [c]) = o :: body ++ [c] /\
  endswith c (o :: body ++ [c]) = true /\
  slice_1_m1 (o :: body ++ [c]) = body.
Proof.
  intros Ho Hc. split; [|split].
  - apply (indented_strip [] _ eq_refl); [simpl; now rewrite Ho|].
    change (o :: body ++ [c]) with ((o :: body) ++ [c]).
    rewrite ends_nonspace_snoc. now rewrite Hc.
  - change (o :: body ++ [c]) with ((o :: body) ++ [c]).
    rewrite endswith_snoc. apply Ascii.eqb_refl.
  - unfold slice_1_m1. simpl tl. apply removelast_last.
Qed.

Lemma strip_idem (s : str) : strip (strip s) = strip s.
Proof. apply trimmed_strip, trimmed_strip_self. Qed.

Lemma _parse_simple_value_strip (v : str) :
  _parse_simple_value py_float (strip v) = _parse_simple_value py_float v.
Proof. unfold _parse_simple_value. now rewrite strip_idem. Qed.

Lemma _parse_simple_value_flat (v : str) :
  is_container (_parse_simple_value py_float v) = false.
Proof.
  unfold _parse_simple_value.
  destruct (_ || _); [reflexivity|].
  destruct (str_in _ _); [reflexivity|].
  destruct (str_in _ _); [reflexivity|].
  destruct (str_in _ _); [reflexivity|].
  destruct (_ || _); [destruct (py_float _) | destruct (py_int _)]; reflexivity.
Qed.

Lemma inline_pairs_flat (pairs : list str) :
  forall (result d : dict float),
    NoDup (keys result) ->
    Forall (fun kv => is_container (snd kv) = false) result ->
    inline_pairs py_float pairs result = Return d ->
    NoDup (keys d) /\ Forall (fun kv => is_container (snd kv) = false) d.
Proof.
  induction pairs as [|p pairs IH]; intros result d Hnd Hr H.
  { injection H as <-. now split. }
  simpl in H.
  destruct (contains ":" p) eqn:Hc; simpl negb in H; cbv iota in H;
    [|now apply (IH _ _ Hnd Hr)].
  rewrite (split_once_contains _ _ Hc) in H.
  apply IH in H; [exact H | now apply dict_set_keys_nodup |].
  apply dict_set_Forall; [exact Hr | apply _parse_simple_value_flat].
Qed.

(** X11.  [_parse_inline_object] returns for every text, and what it
    returns is flat: the keys are distinct and no value is a list or a
    dictionary (a brace or a bracket inside an inline object is text). *)
Theorem inline_object_is_flat (text : str) :
  exists d : dict float,
    _parse_inline_object py_float text = Return d /\
    NoDup (keys d) /\
    Forall (fun kv => is_container (snd kv) = false) d.
Proof.
  unfold _parse_inline_object.
  destruct (inline_pairs_returns (split "," (slice_1_m1 (strip text))) [])
    as [d E].
  exists d. split; [exact E|].
  eapply inline_pairs_flat; [| |exact E]; constructor.
Qed.

Lemma inline_pairs_map (ps : list (str * str)) :
  forall result : dict float,
    Forall (fun kt => contains ":" (fst kt) = false) ps ->
    inline_pairs py_float (map (fun kt => fst kt ++ L ":" ++ snd kt) ps) result
    = Return (fold_left
                (fun d kt => dict_set d (strip (fst kt))
                               (_parse_simple_value py_float (snd kt)))
                ps result).
Proof.
  induction ps as [|[k t] ps IH]; intros result Hps; [reflexivity|].
  inversion Hps as [|? ? Hk Hps']; subst. simpl fst in *. simpl snd in *.
  cbn [map inline_pairs fold_left fst snd].
  change (k ++ L ":" ++ t) with (k ++ ":" :: t).
  rewrite contains_middle. simpl negb. cbv iota.
  rewrite (split_once_contains _ _ (contains_middle _ _ _)).
  rewrite before_app_sep, after_app_sep by assumption.
  rewrite _parse_simple_value_strip. now apply IH.
Qed.

(** X12.  The value [{k1:t1,k2:t2,...}], where the key texts have no
    comma and no [:] and the value texts have no comma, is read as the
    dictionary built by assigning, from left to right, to each stripped
    key text what the scalar parser makes of its value text. *)
Theorem inline_object_read (ps : list (str * str)) :
  Forall (fun kt => contains "," (fst kt) = false /\
                    contains ":" (fst kt) = false /\
                    contains "," (snd kt) = false) ps ->
  _parse_value py_float (inline_text ps)
  = Return (VDict (fold_left
                     (fun d kt => dict_set d (strip (fst kt))
                                    (_parse_simple_value py_float (snd kt)))
                     ps [])).
Proof.
  intros Hps. unfold inline_text.
  set (body := join (L ",") (map (fun kt => fst kt ++ L ":" ++ snd kt) ps)).
  change (L "{" ++ body ++ L "}") with ("{" :: body ++ ["}"]).
  destruct (strip_bracketed "{" "}" body eq_refl eq_refl)
    as (Hstrip & Hend & Hslice).
  unfold _parse_value. rewrite Hstrip, Hend.
  change (startswith "{" ("{" :: body ++ ["}"])) with true.
  simpl andb. cbv iota.
  unfold _parse_inline_object. rewrite Hstrip, Hslice.
  destruct ps as [|kt ps]; [reflexivity|].
  unfold body. change (L ",") with [","%char]. rewrite split_join.
  - rewrite inline_pairs_map; [reflexivity|].
    eapply Forall_impl; [|exact Hps]. now intros a (_ & H & _).
  - apply Forall_map. eapply Forall_impl; [|exact Hps].
    intros [k t] (H1 & _ & H3). simpl in *.
    rewrite contains_app, H1. simpl. exact H3.
  - discriminate.
Qed.

(** ** Arrays *)

Lemma atree_nested_ind (P : atree -> Prop) :
  (forall t, P (ALeaf t)) -> (forall l, Forall P l -> P (ANode l)) ->
  forall a, P a.
Proof.
  intros HL HN. fix IH 1. intros [t | l]; [apply HL|].
  apply HN. induction l as [|x l IHl]; constructor; [apply IH | exact IHl].
Qed.

Lemma plain_char (c : ascii) :
  negb (is_char "," c || is_char "[" c || is_char "]" c) = true ->
  Ascii.eqb c "[" = false /\ Ascii.eqb c "]" = false /\ Ascii.eqb c "," = false.
Proof.
  unfold is_char. destruct (Ascii.eqb c ","), (Ascii.eqb c "["), (Ascii.eqb c "]");
    simpl; intros H; try discriminate; auto.
Qed.

(** The character loop puts a text without comma and bracket on the
    current item. *)
Lemma array_loop_plain (f : str -> outcome (list (Value float))) (t : str) :
  forall rest depth item result,
    free_of (fun c => is_char "," c || is_char "[" c || is_char "]" c) t = true ->
    array_loop py_float f (t ++ rest) depth item result
    = array_loop py_float f rest depth (item ++ t) result.
Proof.
  induction t as [|c t IH]; intros rest depth item result Ht.
  { now rewrite app_nil_r. }
  simpl in Ht. apply andb_true_iff in Ht as [Hc Ht].
  apply plain_char in Hc as (H1 & H2 & H3).
  simpl app. cbn [array_loop]. rewrite H1, H2, H3. simpl andb. cbv iota.
  rewrite IH by assumption. now rewrite <- app_assoc.
Qed.

Lemma array_loop_open (f : str -> outcome (list (Value float))) (rest : str)
    (depth : Z) (item : str) (result : list (Value float)) :
  array_loop py_float f ("[" :: rest) depth item result
  = array_loop py_float f rest (depth + 1)%Z (item ++ ["["]) result.
Proof. reflexivity. Qed.

Lemma array_loop_close (f : str -> outcome (list (Value float))) (rest : str)
    (depth : Z) (item : str) (result : list (Value float)) :
  array_loop py_float f ("]" :: rest) depth item result
  = array_loop py_float f rest (depth - 1)%Z (item ++ ["]"]) result.
Proof. reflexivity. Qed.

Lemma array_loop_comma_inside (f : str -> outcome (list (Value float)))
    (rest : str) (depth : Z) (item : str) (result : list (Value float)) :
  (0 < depth)%Z ->
  array_loop py_float f ("," :: rest) depth item result
  = array_loop py_float f rest depth (item ++ [","]) result.
Proof.
  intros Hd. cbn [array_loop].
  change (Ascii.eqb "," "[") with false. change (Ascii.eqb "," "]") with false.
  cbv iota. now replace (depth =? 0)%Z with false by (symmetry; lia).
Qed.

(** It puts a whole array on the current item, coming back to the depth
    it was at. *)
Lemma array_loop_skip (f : str -> outcome (list (Value float))) (a : atree) :
  leaves_ok a = true ->
  forall rest depth item result,
    (0 <= depth)%Z ->
    array_loop py_float f (render a ++ rest) depth item result
    = array_loop py_float f rest depth (item ++ render a) result.
Proof.
  induction a as [t | l IHl] using atree_nested_ind; intros Hok.
  { intros rest depth item result _. apply array_loop_plain.
    simpl in Hok. now apply andb_true_iff in Hok as [Hok _]. }
  intros rest depth item result Hd.
  assert (Hlist : forall rest' item,
    array_loop py_float f (join (L ",") (map render l) ++ rest')
      (depth + 1)%Z item result
    = array_loop py_float f rest' (depth + 1)%Z
        (item ++ join (L ",") (map render l)) result).
  { simpl in Hok. clear -IHl Hok Hd. intros rest'.
    induction l as [|x l IH]; intros item; [now rewrite app_nil_r|].
    inversion IHl as [|? ? Hx Hl]; subst.
    simpl in Hok. apply andb_true_iff in Hok as [Hokx Hokl].
    destruct l as [|y l].
    - simpl map. simpl join. now apply Hx; [|lia].
    - specialize (IH Hl Hokl).
      change (join (L ",") (map render (x :: y :: l)))
        with (render x ++ "," :: join (L ",") (map render (y :: l))).
      set (J := join (L ",") (map render (y :: l))) in *.
      rewrite <- app_assoc. rewrite Hx by (assumption || lia).
      change (("," :: J) ++ rest') with ("," :: (J ++ rest')).
      rewrite array_loop_comma_inside by lia.
      rewrite IH. f_equal. rewrite <- !app_assoc. reflexivity. }
  cbn [render]. change (L "[" ++ join (L ",") (map render l) ++ L "]")
    with ("[" :: join (L ",") (map render l) ++ ["]"]).
  set (J := join (L ",") (map render l)) in *.
  change (("[" :: J ++ ["]"]) ++ rest) with ("[" :: ((J ++ ["]"]) ++ rest)).
  rewrite array_loop_open, <- app_assoc, Hlist.
  change (["]"] ++ rest) with ("]" :: rest). rewrite array_loop_close.
  replace (depth + 1 - 1)%Z with depth by lia.
  f_equal. change ("[" :: J ++ ["]"]) with (["["] ++ J ++ ["]"]).
  now rewrite <- !app_assoc.
Qed.

Lemma render_node_strip (l : list atree) :
  strip (render (ANode l)) = render (ANode l) /\
  endswith "]" (render (ANode l)) = true /\
  slice_1_m1 (render (ANode l)) = join (L ",") (map render l).
Proof. exact (strip_bracketed "[" "]" _ eq_refl eq_refl). Qed.

Lemma leaf_facts (t : str) :
  leaves_ok (ALeaf t) = true ->
  nonempty (strip t) = true /\ startswith "[" (strip t) = false /\
  contains "," t = false /\ contains "[" t = false.
Proof.
  simpl. intros H. apply andb_true_iff in H as [Hf Hn].
  assert (Hb : contains "[" t = false)
    by (apply (free_of_contains _ _ _ Hf); reflexivity).
  assert (Hc : contains "," t = false)
    by (apply (free_of_contains _ _ _ Hf); reflexivity).
  repeat split; try assumption.
  now apply startswith_contains, contains_strip.
Qed.

(** The character loop over items that are each followed by a comma
    appends the value of every item to the result. *)
Lemma array_loop_items (f : str -> outcome (list (Value float)))
    (items : list atree) :
  forall result,
    Forall (fun a => leaves_ok a = true /\
                     match a with
                     | ALeaf _ => True
                     | ANode l => f (render a) = Return (map (array_value py_float) l)
                     end) items ->
    array_loop py_float f (concat (map (fun a => render a ++ L ",") items))
      0%Z [] result
    = Return (result ++ map (array_value py_float) items).
Proof.
  induction items as [|a items IH]; intros result Hall.
  { simpl. now rewrite app_nil_r. }
  inversion Hall as [|? ? [Hok Hdone] Hall']; subst.
  cbn [map concat]. rewrite <- app_assoc.
  rewrite array_loop_skip by (assumption || lia).
  simpl app. cbn [array_loop].
  change (Ascii.eqb "," "[") with false. change (Ascii.eqb "," "]") with false.
  change (Ascii.eqb "," "," && (0 =? 0)%Z) with true. cbv iota.
  destruct a as [t | l].
  - destruct (leaf_facts t Hok) as (Hn & Hs & _).
    cbn [render]. rewrite Hn, Hs. rewrite IH by assumption.
    rewrite <- app_assoc. simpl. now rewrite _parse_simple_value_strip.
  - destruct (render_node_strip l) as (Hstrip & _).
    rewrite Hstrip. change (nonempty (render (ANode l))) with true.
    change (startswith "[" (render (ANode l))) with true. cbv iota.
    rewrite Hdone. cbn [bind]. rewrite IH by assumption.
    now rewrite <- app_assoc.
Qed.

Lemma join_concat_sep (sep : str) (ls : list str) :
  ls <> [] -> join sep ls ++ sep = concat (map (fun a => a ++ sep) ls).
Proof.
  induction ls as [|x ls IH]; [congruence|]. intros _.
  destruct ls as [|y ls]; [simpl; now rewrite app_nil_r|].
  change (join sep (x :: y :: ls)) with (x ++ sep ++ join sep (y :: ls)).
  change (concat (map (fun a => a ++ sep) (x :: y :: ls)))
    with ((x ++ sep) ++ concat (map (fun a => a ++ sep) (y :: ls))).
  rewrite <- IH by discriminate. now rewrite <- !app_assoc.
Qed.

Lemma join_length_in (sep x : str) (ls : list str) :
  In x ls -> length x <= length (join sep ls).
Proof.
  induction ls as [|y ls IH]; [easy|]. intros [->|Hin].
  - destruct ls; simpl; [lia | rewrite length_app; lia].
  - specialize (IH Hin). destruct ls as [|z ls]; [easy|].
    change (join sep (y :: z :: ls)) with (y ++ sep ++ join sep (z :: ls)).
    rewrite !length_app. lia.
Qed.

Lemma contains_join_in (c : ascii) (sep x : str) (ls : list str) :
  In x ls -> contains c x = true -> contains c (join sep ls) = true.
Proof.
  intros Hin Hc. induction ls as [|y ls IH]; [easy|].
  destruct ls as [|z ls].
  - destruct Hin as [->|[]]. exact Hc.
  - change (join sep (y :: z :: ls)) with (y ++ sep ++ join sep (z :: ls)).
    rewrite !contains_app. destruct Hin as [->|Hin].
    + now rewrite Hc.
    + rewrite (IH Hin). now rewrite !orb_true_r.
Qed.

(** The items of an array without [[] inside are pieces of text. *)
Lemma simple_array_items (l : list atree) :
  forallb leaves_ok l = true ->
  contains "[" (join (L ",") (map render l)) = false ->
  Forall (fun t => contains "," t = false) (map render l) /\
  map (_parse_simple_value py_float) (stripped_items (map render l))
  = map (array_value py_float) l.
Proof.
  intros Hok Hb.
  assert (Hleaf : forall a, In a l -> exists t, a = ALeaf t).
  { intros [t | l'] Hin; [now exists t|].
    rewrite (contains_join_in "[" _ (render (ANode l')) (map render l)) in Hb;
      [discriminate | now apply in_map | reflexivity]. }
  clear Hb. induction l as [|a l IH]; [now split|].
  simpl in Hok. apply andb_true_iff in Hok as [Hoka Hokl].
  destruct (IH Hokl) as [H1 H2]; [intros; apply Hleaf; now right|].
  destruct (Hleaf a (or_introl eq_refl)) as [t ->].
  destruct (leaf_facts t Hoka) as (Hn & _ & Hc & _).
  split; [now constructor|].
  unfold stripped_items in *. cbn [map filter render]. rewrite Hn.
  cbn [map array_value]. now rewrite H2, _parse_simple_value_strip.
Qed.

Lemma adepth_in (a : atree) (l : list atree) :
  In a l -> adepth a <= list_max (map adepth l).
Proof.
  intros Hin.
  pose proof (proj1 (list_max_le (map adepth l) _) (Nat.le_refl _)) as H.
  rewrite Forall_forall in H. apply H. now apply in_map.
Qed.

(** [_parse_array] reads an array when its budget is the depth to which
    the brackets nest, or more. *)
Lemma _parse_array_tree (fuel : nat) :
  forall l,
    adepth (ANode l) <= fuel -> forallb leaves_ok l = true ->
    _parse_array py_float fuel (render (ANode l))
    = Return (map (array_value py_float) l).
Proof.
  induction fuel as [|fuel IH]; intros l Hd Hok; [cbn [adepth] in Hd; lia|].
  destruct (render_node_strip l) as (Hstrip & _ & Hslice).
  cbn [_parse_array]. rewrite Hstrip, Hslice.
  destruct (contains "[" (join (L ",") (map render l))) eqn:Hb.
  - assert (Hne : map render l <> []) by (destruct l; [discriminate|discriminate]).
    rewrite (join_concat_sep _ _ Hne), map_map.
    rewrite array_loop_items; [reflexivity|].
    apply Forall_forall. intros a Hin.
    rewrite forallb_forall in Hok. split; [now apply Hok|].
    destruct a as [t | l']; [exact I|].
    apply IH; [|exact (Hok _ Hin)].
    pose proof (adepth_in _ _ Hin). cbn [adepth] in Hd. lia.
  - destruct (simple_array_items l Hok Hb) as [Hc Hv].
    destruct l as [|a l]; [reflexivity|].
    change (L ",") with [","%char]. rewrite split_join by (assumption || discriminate).
    now rewrite Hv.
Qed.

(** X13.  An array in brackets is read item by item, a piece of text as
    the scalar parser reads it and an inner array as the list of its
    items, when the brackets nest to a depth that the frames allow: with
    [frames] calls left in [_parse_value], the depth of the array and the
    reserve are within [frames].  The pieces of text have no comma and no
    bracket and are not blank. *)
Theorem nested_array_read (frames : nat) (l : list atree) :
  forallb leaves_ok l = true ->
  adepth (ANode l) + reserve <= frames ->
  _parse_value_within py_float frames (render (ANode l))
  = Return (VList (map (array_value py_float) l)).
Proof.
  intros Hok Hd. destruct (render_node_strip l) as (Hstrip & Hend & _).
  unfold _parse_value_within. rewrite Hstrip, Hend.
  change (startswith "{" (render (ANode l))) with false.
  change (startswith "[" (render (ANode l))) with true.
  simpl andb. cbv iota.
  rewrite _parse_array_tree; [reflexivity | lia | exact Hok].
Qed.

(** ** Implicit lists *)

Lemma re_split_sep_run (s rest : str) :
  forallb is_sep s = true ->
  re_split_from true (s ++ rest) = re_split_from true rest /\
  (s <> [] -> re_split_from false (s ++ rest) = [] :: re_split_from true rest).
Proof.
  intros Hs.
  assert (H1 : re_split_from true (s ++ rest) = re_split_from true rest).
  { induction s as [|c s IH]; [reflexivity|].
    simpl in Hs. apply andb_true_iff in Hs as [Hc Hs].
    simpl. rewrite Hc. now apply IH. }
  split; [exact H1|]. intros Hne. destruct s as [|c s]; [congruence|].
  simpl in Hs. apply andb_true_iff in Hs as [Hc Hs].
  simpl. rewrite Hc. f_equal.
  clear -Hs. induction s as [|c s IH]; [reflexivity|].
  simpl in Hs. apply andb_true_iff in Hs as [Hc Hs].
  simpl. rewrite Hc. now apply IH.
Qed.

Lemma re_split_pairs (rest : list (str * str)) :
  Forall (fun st => sep_run (fst st) && list_item (snd st) = true) rest ->
  re_split_from false (concat (map (fun st => fst st ++ snd st) rest))
  = [] :: map snd rest.
Proof.
  induction 1 as [|[s tok] rest Hst _ IH]; [reflexivity|].
  simpl fst in Hst. simpl snd in Hst.
  apply andb_true_iff in Hst as [Hs Ht].
  apply andb_true_iff in Hs as [Hsn Hs]. apply andb_true_iff in Ht as [Htn Ht].
  cbn [map concat fst snd]. rewrite <- app_assoc.
  destruct (re_split_sep_run s (tok ++ concat (map (fun st => fst st ++ snd st) rest)) Hs)
    as [_ E].
  rewrite E by (now destruct s).
  rewrite re_split_token_app by (assumption || now destruct tok).
  rewrite IH. now rewrite app_nil_r.
Qed.

Lemma list_item_facts (t : str) :
  list_item t = true ->
  t <> [] /\ free_of is_sep t = true /\ free_of isspace t = true /\
  starts_nonspace t = true /\ ends_nonspace t = true.
Proof.
  intros H. apply andb_true_iff in H as [Hn Hf].
  assert (Hsp : free_of isspace t = true).
  { eapply free_of_weaken; [|exact Hf]. unfold is_sep. intros c ->.
    apply orb_true_r. }
  pose proof (free_of_space_trimmed t Hsp) as Ht. unfold trimmed in Ht.
  rewrite Hn in Ht. simpl in Ht. apply andb_true_iff in Ht as [H1 H2].
  repeat split; try assumption. now destruct t.
Qed.

Lemma contains_concat_in (c : ascii) (x : str) (ls : list str) :
  In x ls -> contains c x = true -> contains c (concat ls) = true.
Proof.
  intros Hin Hc. induction ls as [|y ls IH]; [easy|].
  simpl. rewrite contains_app. destruct Hin as [->|Hin].
  - now rewrite Hc.
  - rewrite (IH Hin). apply orb_true_r.
Qed.

Lemma existsb_sep_contains (c : ascii) (t0 : str) (rest : list (str * str)) :
  existsb (fun st => contains c (fst st)) rest = true ->
  contains c (list_text t0 rest) = true.
Proof.
  intros H. apply existsb_exists in H as ([s tok] & Hin & Hc). simpl in Hc.
  unfold list_text. rewrite contains_app.
  rewrite (contains_concat_in c (s ++ tok)); [apply orb_true_r | |].
  - apply (in_map (fun st => fst st ++ snd st) _ _ Hin).
  - now rewrite contains_app, Hc.
Qed.

(** X14.  The items of an implicit list may be separated by any
    non-empty runs of commas and whitespace: when a comma occurs in one of
    the runs, or a space does and the value does not begin with a double
    quote, the value is read as the list of what the scalar parser makes
    of each item. *)
Theorem implicit_list_read (t0 : str) (rest : list (str * str)) :
  list_item t0 = true -> rest <> [] ->
  Forall (fun st => sep_run (fst st) && list_item (snd st) = true) rest ->
  startswith "{" t0 || startswith "[" t0 = false ->
  existsb (fun st => contains "," (fst st)) rest
  || (existsb (fun st => contains " " (fst st)) rest
      && negb (startswith dquote t0)) = true ->
  _parse_value py_float (list_text t0 rest)
  = Return (VList (map (_parse_simple_value py_float) (t0 :: map snd rest))).
Proof.
  intros Ht0 Hne Hrest Hopen Hsep.
  destruct (list_item_facts t0 Ht0) as (Hn0 & Hf0 & Hsp0 & Hs0 & He0).
  set (tail := concat (map (fun st => fst st ++ snd st) rest)).
  assert (Hend : ends_nonspace (list_text t0 rest) = true).
  { unfold list_text. fold tail.
    assert (Ht : tail <> [] /\ ends_nonspace tail = true).
    { unfold tail. clear -Hne Hrest.
      induction Hrest as [|[s tok] rest Hst Hrest IH]; [congruence|].
      simpl fst in Hst. simpl snd in Hst.
      apply andb_true_iff in Hst as [_ Ht].
      destruct (list_item_facts tok Ht) as (Hn & _ & _ & _ & He).
      cbn [map concat fst snd].
      destruct rest as [|st rest].
      - simpl concat. rewrite app_nil_r. split.
        + intros H. apply app_eq_nil in H as [_ H]. contradiction.
        + now apply ends_nonspace_app.
      - destruct IH as [IH1 IH2]; [discriminate|]. split.
        + intros H. apply app_eq_nil in H as [_ H]. contradiction.
        + now apply ends_nonspace_app. }
    now apply ends_nonspace_app. }
  assert (Hstrip : strip (list_text t0 rest) = list_text t0 rest).
  { apply (indented_strip [] _ eq_refl); [|exact Hend].
    now apply starts_nonspace_app. }
  assert (Hstart : forall c, startswith c (list_text t0 rest) = startswith c t0)
    by (intros c; now apply startswith_app).
  assert (Hsplit : re_split (list_text t0 rest) = t0 :: map snd rest).
  { unfold re_split, list_text. rewrite re_split_token_app by assumption.
    rewrite re_split_pairs by assumption. now rewrite app_nil_r. }
  assert (Hitems : stripped_items (t0 :: map snd rest) = t0 :: map snd rest).
  { apply stripped_items_tokens. constructor; [now split|].
    apply Forall_map. eapply Forall_impl; [|exact Hrest].
    intros [s tok] Hst. simpl in *. apply andb_true_iff in Hst as [_ Ht].
    destruct (list_item_facts tok Ht) as (Hn & _ & Hsp & _). now split. }
  apply orb_false_elim in Hopen as [Ho1 Ho2].
  assert (Hcond : contains "," (list_text t0 rest)
                  || (contains " " (list_text t0 rest)
                      && negb (startswith dquote (list_text t0 rest))) = true).
  { rewrite Hstart. apply orb_true_iff in Hsep as [H|H].
    - now rewrite (existsb_sep_contains _ _ _ H).
    - apply andb_true_iff in H as [H1 H2].
      rewrite (existsb_sep_contains _ _ _ H1), H2. apply orb_true_r. }
  unfold _parse_value. rewrite Hstrip, Hcond, !Hstart, Ho1, Ho2.
  simpl andb. cbv iota. rewrite Hsplit, Hitems. reflexivity.
Qed.

(** ** Lists that [dumps] writes item by item *)

(** A line [  - item] under a key at level 0. *)
Lemma item_line_facts (t : str) :
  contains ":" t = false -> contains newline t = false ->
  ends_nonspace t = true ->
  let line := L "  - " ++ t in
  is_content line = true /\ _get_indent line = 2 /\ key_line 2 line = None /\
  contains newline line = false /\ ends_nonspace line = true.
Proof.
  intros Hc Hn He line.
  assert (Ht : t <> []) by (intros ->; discriminate).
  assert (Heb : ends_nonspace (L "- " ++ t) = true)
    by now rewrite ends_nonspace_app_ne.
  assert (Hstrip : strip line = L "- " ++ t)
    by exact (indented_strip (L "  ") (L "- " ++ t) eq_refl eq_refl Heb).
  assert (Hind : _get_indent line = 2)
    by exact (indented_indent (L "  ") (L "- " ++ t) eq_refl eq_refl).
  assert (Hcont : is_content line = true)
    by (unfold is_content; now rewrite Hstrip).
  split; [exact Hcont|]. split; [exact Hind|]. split; [|split].
  - apply key_line_none. right. right.
    assert (Hl : contains ":" line = false) by (unfold line; simpl; exact Hc).
    apply contains_strip. unfold _remove_inline_comment.
    destruct (contains "#" line); [now apply contains_before | exact Hl].
  - unfold line. simpl. exact Hn.
  - unfold line. now rewrite ends_nonspace_app_ne.
Qed.

(** X15.  A list with an item that is neither a number, a string nor a
    boolean is written item by item on lines [  - item] under the key; when
    no item is a dictionary and the text of no item has a [:], a line
    break or whitespace at its end, these lines are read back as an empty
    dictionary: the items are lost. *)
Theorem item_lines_read_back_empty (k : str) (l : list (Value float)) :
  safe_key k = true -> forallb is_scalar l = false ->
  Forall (fun x => (forall d, x <> VDict d) /\
                   contains ":" (py_str float_str x) = false /\
                   contains newline (py_str float_str x) = false /\
                   ends_nonspace (py_str float_str x) = true) l ->
  dumps float_str [(k, VList l)] 0
  = join [newline] ((k ++ L ":") :: map (fun x => L "  - " ++ py_str float_str x) l) /\
  parse py_float (dumps float_str [(k, VList l)] 0) = Return [(k, VDict [])].
Proof.
  intros Hk Hcomplex Hall.
  set (items := map (fun x => L "  - " ++ py_str float_str x) l).
  assert (Hd : dumps float_str [(k, VList l)] 0
               = join [newline] ((k ++ L ":") :: items)).
  { rewrite dumps_eq.
    assert (E : dumps_items float_str 0 [(k, VList l)]
                = [join [newline] ((k ++ L ":") :: items)]).
    { cbn [dumps_items dumps_entry app]. f_equal.
      unfold _format_list. rewrite Hcomplex.
      change (str_mul (L "  ") 0 ++ k ++ L ":") with (k ++ L ":").
      do 2 f_equal. unfold items. apply map_ext_in. intros x Hx.
      rewrite Forall_forall in Hall. destruct (Hall x Hx) as [Hnd _].
      destruct x; try reflexivity. now destruct (Hnd d). }
    rewrite E. reflexivity. }
  split; [exact Hd|]. rewrite Hd.
  assert (Hitems : Forall (fun line =>
            is_content line = true /\ _get_indent line = 2 /\
            key_line 2 line = None /\ contains newline line = false /\
            ends_nonspace line = true) items).
  { unfold items. apply Forall_map. eapply Forall_impl; [|exact Hall].
    intros x (_ & H1 & H2 & H3). now apply item_line_facts. }
  assert (Hne : items <> []) by (unfold items; destruct l; [discriminate|discriminate]).
  destruct (key_line_header 0 k Hk) as [Hkl (Hc & _ & Hnl & He)].
  change (str_mul (L "  ") 0 ++ k ++ L ":") with (k ++ L ":") in *.
  simpl Nat.mul in Hkl.
  destruct (key_line_inv _ _ _ _ Hkl) as (_ & Hi & _).
  assert (Hstrip : strip (join [newline] ((k ++ L ":") :: items))
                   = join [newline] ((k ++ L ":") :: items)).
  { assert (Hs : starts_nonspace (join [newline] ((k ++ L ":") :: items)) = true).
    { pose proof (indent0_starts _ Hc Hi) as Hs.
      destruct items; [congruence|]. now apply starts_nonspace_app. }
    assert (Hends : ends_nonspace (join [newline] ((k ++ L ":") :: items)) = true).
    { apply ends_nonspace_join; [discriminate|].
      constructor; [exact He|]. eapply Forall_impl; [|exact Hitems].
      now intros a (_ & _ & _ & _ & H). }
    exact (indented_strip [] _ eq_refl Hs Hends). }
  unfold parse, _parse_block. rewrite Hstrip, split_join.
  2:{ constructor; [exact Hnl|]. eapply Forall_impl; [|exact Hitems].
      now intros a (_ & _ & _ & H & _). }
  2:{ discriminate. }
  simpl length. rewrite (block_loop_key_line _ _ _ _ _ _ _ Hkl).
  change (str_eqb [] (L "|")) with false. simpl negb. cbv iota.
  assert (Hscan : nested_scan 0 items = (items, length items)).
  { rewrite <- (app_nil_r items) at 1. apply nested_scan_collect; [|now left].
    eapply Forall_impl; [|exact Hitems]. intros a (H1 & H2 & _).
    split; [exact H1|lia]. }
  rewrite Hscan.
  clearbody items. destruct items as [|y items']; [congruence|].
  match goal with
  | |- context [block_loop py_float ?f ?ls (0 + 2) 0 []] =>
      assert (Hinner : block_loop py_float f ls (0 + 2) 0 []
                       = Return ([], length ls))
  end.
  { apply block_loop_no_key_lines; [|apply Nat.lt_succ_diag_r].
    eapply Forall_impl; [|exact Hitems]. intros a (_ & H2 & H3 & _).
    split; [exact H3 | intros _; simpl; lia]. }
  rewrite Hinner. cbn [bind fst]. rewrite skipn_all. reflexivity.
Qed.

(** ** The two scans as functions of the lines *)

Lemma multiline_scan_block (indent : nat) (block tail : list str) :
  Forall (fun l => nonempty (strip l) = true -> indent < _get_indent l) block ->
  match tail with
  | [] => True
  | c :: _ => nonempty (strip c) = true /\ _get_indent c <= indent
  end ->
  multiline_scan indent (block ++ tail)
  = (map (slice_from (indent + 2)) block, length block).
Proof.
  intros Hb Ht. induction Hb as [|x block Hx _ IH].
  - destruct tail as [|c B]; [reflexivity|]. destruct Ht as [Hc Hi].
    simpl. rewrite Hc.
    now replace (_get_indent c <=? indent) with true
      by (symmetry; apply Nat.leb_le; lia).
  - cbn [app multiline_scan]. rewrite IH.
    replace ((_get_indent x <=? indent) && nonempty (strip x)) with false.
    2:{ symmetry. destruct (nonempty (strip x)); [|apply andb_false_r].
        rewrite andb_true_r. apply Nat.leb_gt. now apply Hx. }
    cbn [map length]. f_equal. f_equal.
    destruct (Nat.ltb_spec (indent + 2) (length x)) as [Hlt|Hge]; [reflexivity|].
    unfold slice_from. symmetry. now apply skipn_all2.
Qed.

(** X16.  [_parse_multiline] as a function of the lines: when the lines
    after the header that are not blank are all deeper than the header,
    up to the end or to a line that is not blank and not deeper, the text
    is made of these lines, each without its first [indent + 2]
    characters whatever they are, joined by line breaks, with the
    whitespace at the end removed; the cursor is left after them. *)
Theorem multiline_block_read (pre block tail : list str) (hdr : str) (indent : nat) :
  Forall (fun l => nonempty (strip l) = true -> indent < _get_indent l) block ->
  match tail with
  | [] => True
  | c :: _ => nonempty (strip c) = true /\ _get_indent c <= indent
  end ->
  @_parse_multiline float (pre ++ hdr :: block ++ tail) (length pre) indent
  = (VStr (rstrip (join [newline] (map (slice_from (indent + 2)) block))),
     length pre + 1 + length block).
Proof.
  intros Hb Ht. rewrite _parse_multiline_scan.
  now rewrite (multiline_scan_block indent block tail Hb Ht).
Qed.

(** X17.  [_parse_nested] as a function of the lines: when the content
    lines after the header are all deeper than the header, up to the end
    or to a content line that is not deeper, the value is [None] with the
    cursor just after the header if there is no such line, and otherwise
    the dictionary that the block parser makes of these content lines at
    two more than the indentation of the header, with the cursor after
    them; blank lines and comments are dropped before the block parser
    sees them. *)
Theorem nested_block_read (parse_block : list str -> nat -> outcome (dict float * nat))
    (pre block tail : list str) (hdr : str) (indent : nat) :
  Forall (fun l => is_content l = true -> indent < _get_indent l) block ->
  match tail with
  | [] => True
  | c :: _ => is_content c = true /\ _get_indent c <= indent
  end ->
  _parse_nested parse_block (pre ++ hdr :: block ++ tail) (length pre) indent
  = match filter is_content block with
    | [] => Return (VNone, length pre + 1)
    | nested =>
        r <- parse_block nested (indent + 2) ;;
        Return (VDict (fst r), length pre + 1 + length block)
    end.
Proof.
  intros Hb Ht. rewrite _parse_nested_scan.
  assert (E : nested_scan indent (block ++ tail)
              = (filter is_content block, length block)).
  { destruct tail as [|c B].
    - rewrite app_nil_r. now apply nested_scan_all_deeper.
    - destruct Ht as [Hc Hi]. rewrite nested_scan_stop by assumption.
      now apply nested_scan_all_deeper. }
  rewrite E. cbn [fst snd]. now destruct (filter is_content block).
Qed.

(** ** A document that is indented as a whole *)

(** X18.  [parse] strips the text before it splits it into lines, so the
    first line of a document loses its indentation and the other lines
    keep theirs: when the first line binds a key and every other line is
    indented, whatever it holds, only the first line is read. *)
Theorem indented_document_first_line_only (ind k t : str) (v : Value float)
    (rest : list str) :
  all_space ind = true -> safe_key k = true -> value_text_ok py_float t v ->
  Forall (fun l => contains newline l = false /\ ends_nonspace l = true /\
                   0 < _get_indent l) rest ->
  parse py_float (ind ++ join [newline] ((k ++ L ": " ++ t) :: rest))
  = Return [(k, v)].
Proof.
  intros Hind Hk Hok Hrest.
  destruct (key_line_entry 0 k t v Hk Hok) as [Hkl (Hc & _ & Hnl & He)].
  change (str_mul (L "  ") 0 ++ k ++ L ": " ++ t) with (k ++ L ": " ++ t) in *.
  simpl Nat.mul in Hkl. set (line := k ++ L ": " ++ t) in *.
  destruct (key_line_inv _ _ _ _ Hkl) as (_ & Hi & _).
  pose proof (indent0_starts _ Hc Hi) as Hs.
  assert (Hstart : starts_nonspace (join [newline] (line :: rest)) = true).
  { destruct rest; [exact Hs|]. now apply starts_nonspace_app. }
  assert (Hend : ends_nonspace (join [newline] (line :: rest)) = true).
  { apply ends_nonspace_join; [discriminate|]. constructor; [exact He|].
    eapply Forall_impl; [|exact Hrest]. now intros a (_ & H & _). }
  assert (Hstrip : strip (ind ++ join [newline] (line :: rest))
                   = join [newline] (line :: rest)).
  { rewrite <- (app_nil_r (join [newline] (line :: rest))) at 1.
    rewrite (strip_surround ind _ [] Hind eq_refl).
    exact (indented_strip [] _ eq_refl Hstart Hend). }
  unfold parse, _parse_block. rewrite Hstrip, split_join.
  2:{ constructor; [exact Hnl|]. eapply Forall_impl; [|exact Hrest].
      now intros a (H & _). }
  2:{ discriminate. }
  simpl length. rewrite (block_loop_key_line _ _ _ _ _ _ _ Hkl).
  destruct Hok as (_ & _ & Hst & _ & Hbar & Hpv).
  rewrite Hbar, Hpv.
  replace (negb (nonempty t)) with false by (now destruct t).
  cbn [bind]. rewrite block_loop_skip_deeper; [reflexivity | | apply Nat.lt_succ_diag_r].
  eapply Forall_impl; [|exact Hrest]. now intros a (_ & _ & H) _.
Qed.

(** ** Values that are written alike *)

(** X19.  [dumps] writes a value that is not a dictionary, and whose list
    items if it is a list are all numbers, strings and booleans, as the
    line [key: text] with the text of the value, so exactly as it writes
    the string of that text, when the text has no line break: the kind of
    the value is not written. *)
Theorem value_written_as_its_text (pre post : dict float) (k : str)
    (v : Value float) (indent : nat) :
  match v with
  | VDict _ => False
  | VList l => forallb is_scalar l = true
  | _ => True
  end ->
  contains newline (value_text float_str v) = false ->
  dumps float_str (pre ++ (k, v) :: post) indent
  = dumps float_str (pre ++ (k, VStr (value_text float_str v)) :: post) indent.
Proof.
  intros Hv Hnl. rewrite !dumps_eq, !dumps_items_app. f_equal. f_equal.
  cbn [dumps_items]. f_equal.
  destruct v as [| b | z | f | s | l | d]; cbn [dumps_entry value_text py_str] in *;
    try (rewrite Hnl; reflexivity); [|contradiction].
  unfold _format_list. now rewrite Hv, Hnl.
Qed.

(** ** Lines that are read alike *)

Lemma Forall2_skipn {A B : Type} (R : A -> B -> Prop) (k : nat)
    (l : list A) (l' : list B) :
  Forall2 R l l' -> Forall2 R (skipn k l) (skipn k l').
Proof.
  intros H. revert k. induction H as [|x y l l' Hxy Hl IH]; intros k.
  - rewrite !skipn_nil. constructor.
  - destruct k as [|k]; [now constructor | apply IH].
Qed.

Lemma nested_scan_same (indent : nat) (rest rest' : list str) :
  Forall2 same_reading rest rest' ->
  snd (nested_scan indent rest) = snd (nested_scan indent rest') /\
  Forall2 same_reading (fst (nested_scan indent rest))
    (fst (nested_scan indent rest')).
Proof.
  induction 1 as [|x x' rest rest' (Hc & Hi & Hr) _ IH]; [split; [reflexivity|constructor]|].
  simpl. rewrite <- Hc, <- Hi.
  destruct (nested_scan indent rest) as [nl k], (nested_scan indent rest') as [nl' k'].
  simpl in IH. destruct IH as [-> IH].
  destruct (negb (is_content x)); [now split|].
  destruct (_get_indent x <=? indent); simpl; [split; [reflexivity|constructor]|].
  split; [reflexivity|]. constructor; [now repeat split | exact IH].
Qed.

Lemma block_loop_same (fuel : nat) :
  forall (lines lines' : list str) (start_indent : nat) (result : dict float),
    Forall2 same_reading lines lines' ->
    Forall (fun l => text_header l = false) lines ->
    block_loop py_float fuel lines start_indent 0 result
    = block_loop py_float fuel lines' start_indent 0 result.
Proof.
  induction fuel as [|fuel IH]; intros lines lines' start_indent result H2 Hth;
    [reflexivity|].
  destruct H2 as [|l l' rest rest' (Hc & Hi & Hr) Hrest]; [reflexivity|].
  inversion Hth as [|? ? Hl Hth']; subst.
  assert (Hcont : forall res k,
    shift (1 + k) (block_loop py_float fuel (skipn k rest) start_indent 0 res)
    = shift (1 + k) (block_loop py_float fuel (skipn k rest') start_indent 0 res)).
  { intros res k. f_equal. apply IH; [now apply Forall2_skipn | now apply Forall_skipn]. }
  rewrite !block_loop_cons. cbv beta zeta.
  revert Hc Hi Hr.
  generalize (is_content l'), (_get_indent l'), (strip (_remove_inline_comment l')).
  intros c' i' r' <- <- <-.
  destruct (negb (is_content l)); [exact (Hcont _ 0)|].
  destruct (_get_indent l <? start_indent); [reflexivity|].
  destruct (start_indent <? _get_indent l); [exact (Hcont _ 0)|].
  destruct (contains ":" (strip (_remove_inline_comment l))) eqn:Hcol;
    simpl negb; cbv iota; [|exact (Hcont _ 0)].
  unfold text_header in Hl. cbv zeta in Hl. rewrite Hcol, andb_true_l in Hl.
  unfold _split_key_value. rewrite (split_once_contains _ _ Hcol).
  cbn [bind]. rewrite Hl.
  destruct (negb (nonempty _)).
  { destruct (nested_scan_same (_get_indent l) rest rest' Hrest) as [Hk Hn].
    pose proof (nested_scan_incl (_get_indent l) rest) as Hincl.
    destruct (nested_scan (_get_indent l) rest) as [nl k].
    destruct (nested_scan (_get_indent l) rest') as [nl' k'].
    simpl in Hk, Hn, Hincl. subst k'.
    destruct Hn as [|y y' nl nl' Hy Hn]; [exact (Hcont _ 0)|].
    rewrite (IH (y :: nl) (y' :: nl') _ []);
      [|now constructor | exact (incl_Forall Hincl Hth')].
    destruct (block_loop py_float fuel (y' :: nl') _ 0 []) as [[d0 j0]| |];
      [|reflexivity..].
    cbn [bind]. exact (Hcont _ k). }
  destruct (_parse_value py_float _) as [v| |]; [|reflexivity..].
  cbn [bind]. exact (Hcont _ 0).
Qed.

(** X20.  Outside text blocks the block parser reads a line by three
    things only: whether it is a content line, its indentation, and its
    text once the inline comment and the surrounding whitespace are
    removed.  Two lists of lines that agree line by line on these, with no
    line opening a text block, give the same result: trailing whitespace,
    a carriage return at the end of a line and comments make no
    difference anywhere. *)
Theorem lines_read_by_content (fuel : nat) (lines lines' : list str)
    (start_indent : nat) :
  Forall2 same_reading lines lines' ->
  Forall (fun l => text_header l = false) lines ->
  _parse_block py_float fuel lines start_indent
  = _parse_block py_float fuel lines' start_indent.
Proof. intros H2 Hth. now apply block_loop_same. Qed.

(** ** Entries of a block, one after the other *)

(** X21.  The entries of a block are read in sequence: when no content
    line of [A] is shallower than the block and [c] is a content line not
    deeper than the block, what is read from [A] does not depend on the
    lines from [c] on, and the lines from [c] on are read with the
    entries of [A] already bound. *)
Theorem block_reads_entries_in_sequence (f1 f2 : nat) (A : list str) (c : str)
    (B : list str) (start_indent : nat) (d : dict float) (j : nat)
    (r : dict float * nat) :
  Forall (fun x => is_content x = true -> start_indent <= _get_indent x) A ->
  is_content c = true -> _get_indent c <= start_indent ->
  _parse_block py_float f1 A start_indent = Return (d, j) ->
  block_loop py_float f2 (c :: B) start_indent 0 d = Return r ->
  _parse_block py_float (f1 + f2) (A ++ c :: B) start_indent
  = Return (fst r, length A + snd r).
Proof.
  intros HA Hc Hi H1 H2. unfold _parse_block in *.
  assert (Hj : j = length A).
  { destruct (block_loop_stop _ _ _ _ _ _ H1) as [Hle Hlt].
    destruct (Nat.eq_dec j (length A)) as [E|E]; [exact E|].
    assert (Hjl : j < length A) by lia.
    destruct (Hlt Hjl) as [Hcj Hij].
    rewrite Forall_forall in HA.
    pose proof (HA (nth j A []) (nth_In _ _ Hjl) Hcj). lia. }
  subst j. apply (block_loop_then f1 A (c :: B) start_indent [] d f2 r HA);
    [now split | exact H1 | exact H2].
Qed.

(** ** A text block inside a nested dictionary *)

Lemma is_content_indented (p x : str) :
  all_space p = true -> is_content (p ++ x) = is_content x.
Proof.
  intros Hp. unfold is_content, strip. now rewrite lstrip_space_app.
Qed.

Lemma filter_is_content_map (p : str) (ls : list str) :
  all_space p = true ->
  filter is_content (map (fun x => p ++ x) ls)
  = map (fun x => p ++ x) (filter is_content ls).
Proof.
  intros Hp. induction ls as [|x ls IH]; [reflexivity|].
  simpl. rewrite is_content_indented by assumption.
  destruct (is_content x); simpl; now rewrite IH.
Qed.

Lemma get_indent_indented (p x : str) :
  all_space p = true -> _get_indent (p ++ x) = length p + _get_indent x.
Proof.
  intros Hp. unfold _get_indent. rewrite lstrip_space_app by assumption.
  rewrite length_app. pose proof (lstrip_length x). lia.
Qed.

(** X22.  A text block under a nested key does not come back as it was
    written: the lines of the nested block are collected without the blank
    lines and the lines that begin with [#], so the string read back is
    made of the content lines of the text only. *)
Theorem nested_text_block_loses_lines (k k2 s : str) :
  safe_key k = true -> safe_key k2 = true -> text_block s = true ->
  parse py_float (dumps float_str [(k, VDict [(k2, VStr s)])] 0)
  = Return
      [(k, VDict
             [(k2, VStr (rstrip (join [newline]
                                   (filter is_content (split newline s)))))])].
Proof.
  intros Hk Hk2 Hs. pose proof Hs as Hs'.
  apply andb_true_iff in Hs' as [Hnl He].
  set (hdr := k ++ L ":"). set (hdr2 := L "  " ++ k2 ++ L ": |").
  set (body := map (fun x => L "    " ++ x) (split newline s)).
  assert (Hd : dumps float_str [(k, VDict [(k2, VStr s)])] 0
               = join [newline] (hdr :: hdr2 :: body)).
  { rewrite dumps_eq.
    assert (E1 : dumps float_str [(k2, VStr s)] (0 + 1)
                 = join [newline] (hdr2 :: body)).
    { rewrite dumps_eq. cbn [dumps_items dumps_entry app]. rewrite Hnl.
      reflexivity. }
    change (dumps_items float_str 0 [(k, VDict [(k2, VStr s)])])
      with [hdr; dumps float_str [(k2, VStr s)] (0 + 1)].
    rewrite E1. change [hdr; join [newline] (hdr2 :: body)]
      with ([hdr] ++ [join [newline] (hdr2 :: body)]).
    change (hdr :: hdr2 :: body) with ([hdr] ++ hdr2 :: body).
    apply join_app_congr; [reflexivity | split; discriminate]. }
  rewrite Hd.
  destruct (key_line_header 0 k Hk) as [Hkl (Hc & _ & Hknl & Hke)].
  change (str_mul (L "  ") 0 ++ k ++ L ":") with hdr in *. simpl Nat.mul in Hkl.
  destruct (key_line_inv _ _ _ _ Hkl) as (_ & Hi & _).
  pose proof (key_line_make 1 k2 (L " |") Hk2 eq_refl (or_intror eq_refl)) as Hkl2.
  change (str_mul (L "  ") 1 ++ k2 ++ ":" :: L " |") with hdr2 in Hkl2.
  change (strip (L " |")) with (L "|") in Hkl2. simpl Nat.mul in Hkl2.
  destruct (key_line_inv _ _ _ _ Hkl2) as (Hc2 & Hi2 & _).
  destruct (safe_key_facts k2 Hk2) as (_ & _ & Hk2nl & _).
  assert (Hbody_nl : Forall (fun l => contains newline l = false) body).
  { unfold body. apply Forall_map.
    eapply Forall_impl; [|apply (split_no_sep_pieces newline s)].
    intros a Ha. exact Ha. }
  assert (Hbody_ne : body <> []).
  { unfold body. pose proof (split_nonnil newline s).
    destruct (split newline s); [congruence | discriminate]. }
  assert (Hlast : ends_nonspace (last (hdr :: hdr2 :: body) []) = true).
  { change (hdr :: hdr2 :: body) with ([hdr; hdr2] ++ body).
    rewrite last_app_ne by assumption. unfold body.
    clear Hd Hbody_nl Hbody_ne. clear body.
    pose proof (split_nonnil newline s) as Hne.
    rewrite <- (join_split newline s), ends_join_last in He by assumption.
    destruct (split newline s) as [|x ls]; [congruence|].
    clear Hne. revert x He.
    induction ls as [|y ls IH]; intros x He.
    - simpl last in *. destruct x as [|c x]; [discriminate|].
      change (ends_nonspace (L "    " ++ (c :: x)) = true).
      now rewrite ends_nonspace_app_ne.
    - exact (IH y He). }
  assert (Hstrip : strip (join [newline] (hdr :: hdr2 :: body))
                   = join [newline] (hdr :: hdr2 :: body)).
  { assert (Hst : starts_nonspace (join [newline] (hdr :: hdr2 :: body)) = true)
      by (apply starts_nonspace_app; exact (indent0_starts _ Hc Hi)).
    assert (Hen : ends_nonspace (join [newline] (hdr :: hdr2 :: body)) = true)
      by (rewrite ends_join_last; [exact Hlast | discriminate]).
    exact (indented_strip [] _ eq_refl Hst Hen). }
  unfold parse, _parse_block. rewrite Hstrip, split_join.
  2:{ constructor; [exact Hknl|]. constructor; [|exact Hbody_nl].
      unfold hdr2. simpl. now rewrite contains_app, Hk2nl. }
  2:{ discriminate. }
  set (kept := filter is_content (split newline s)).
  assert (Hscan : nested_scan 0 (hdr2 :: body)
                  = (hdr2 :: map (fun x => L "    " ++ x) kept,
                     length (hdr2 :: body))).
  { rewrite nested_scan_all_deeper.
    - cbn [filter]. rewrite Hc2. unfold body, kept.
      now rewrite (filter_is_content_map (L "    ")).
    - constructor; [intros _; lia|]. unfold body. apply Forall_map.
      apply Forall_forall. intros x _ _.
      rewrite (get_indent_indented (L "    ")) by reflexivity. simpl. lia. }
  assert (Hmulti : multiline_scan 2 (map (fun x => L "    " ++ x) kept)
                   = (kept, length kept)).
  { rewrite <- (app_nil_r (map _ kept)).
    rewrite (multiline_scan_block 2 _ [] ); [|
      apply Forall_map; apply Forall_forall; intros x _ _;
      rewrite (get_indent_indented (L "    ")) by reflexivity; simpl; lia
      | exact I].
    rewrite map_map, length_map. f_equal.
    rewrite <- (map_id kept) at 2. apply map_ext. reflexivity. }
  cbn [length]. rewrite (block_loop_key_line _ _ _ _ _ _ _ Hkl).
  change (str_eqb [] (L "|")) with false. simpl negb. cbv iota.
  rewrite Hscan.
  rewrite (block_loop_key_line _ _ _ _ _ _ _ Hkl2).
  change (str_eqb (L "|") (L "|")) with true. cbv iota.
  rewrite Hmulti.
  rewrite (skipn_all2 (n := length kept)) by (rewrite length_map; apply Nat.le_refl).
  match goal with
  | |- context [block_loop py_float (S ?f) [] ?n 0 ?res] =>
      change (block_loop py_float (S f) [] n 0 res) with (Return (res, 0))
  end.
  cbn [shift bind fst]. rewrite skipn_all. reflexivity.
Qed.

(** ** Within the depth of calls *)

Lemma count_char_app (c : ascii) (a b : str) :
  count_char c (a ++ b) = count_char c a + count_char c b.
Proof. unfold count_char. now rewrite filter_app, length_app. Qed.

Lemma count_char_shift (c x : ascii) (item rest : str) :
  count_char c (item ++ [x]) + count_char c rest
  = count_char c item + count_char c (x :: rest).
Proof.
  change (x :: rest) with ([x] ++ rest). rewrite !count_char_app. lia.
Qed.

Lemma count_char_tail (c x : ascii) (rest : str) :
  count_char c rest <= count_char c (x :: rest).
Proof. change (x :: rest) with ([x] ++ rest). rewrite count_char_app. lia. Qed.

Lemma count_char_strip (c : ascii) (s : str) :
  count_char c (strip s) <= count_char c s.
Proof.
  unfold strip.
  destruct (lstrip_decomp s) as (w & E & _).
  destruct (rstrip_decomp (lstrip s)) as (w' & E' & _).
  pose proof (count_char_app c w (lstrip s)) as H. rewrite <- E in H.
  pose proof (count_char_app c (rstrip (lstrip s)) w') as H'. rewrite <- E' in H'.
  lia.
Qed.

Lemma count_char_removelast (c : ascii) (s : str) :
  count_char c (removelast s) <= count_char c s.
Proof.
  destruct s as [|x s]; [apply Nat.le_refl|].
  pose proof (@app_removelast_last _ (x :: s) x ltac:(discriminate)) as E.
  pose proof (count_char_app c (removelast (x :: s)) [last (x :: s) x]) as H.
  rewrite <- E in H. lia.
Qed.

Lemma count_char_slice (c : ascii) (s : str) :
  startswith c s = true -> S (count_char c (slice_1_m1 s)) <= count_char c s.
Proof.
  destruct s as [|x s]; [discriminate|]. cbn [startswith]. intros Hx.
  apply Ascii.eqb_eq in Hx. subst x. unfold slice_1_m1. cbn [tl].
  pose proof (count_char_removelast c s).
  unfold count_char at 2. cbn [filter]. rewrite Ascii.eqb_refl. cbn [length].
  fold (count_char c s). lia.
Qed.

(** The character loop returns when the nested arrays are read within the
    budget that their opening brackets ask for. *)
Lemma array_loop_enough (f : str -> outcome (list (Value float))) (b : nat) :
  (forall s, startswith "[" (strip s) = true ->
             count_char "[" (strip s) <= b -> returns (f s)) ->
  forall chars depth item result,
    count_char "[" item + count_char "[" chars <= b ->
    returns (array_loop py_float f chars depth item result).
Proof.
  intros Hf. induction chars as [|c rest IH]; intros depth item result Hn;
    cbn [array_loop].
  - now eexists.
  - pose proof (count_char_shift "[" c item rest) as Hs.
    pose proof (count_char_tail "[" c rest) as Ht.
    destruct (Ascii.eqb c "["); [apply IH; lia|].
    destruct (Ascii.eqb c "]"); [apply IH; lia|].
    destruct (Ascii.eqb c "," && (depth =? 0)%Z); [|apply IH; lia].
    assert (H0 : count_char "[" [] + count_char "[" rest <= b)
      by (change (count_char "[" []) with 0; lia).
    destruct (nonempty (strip item)); [|now apply IH].
    destruct (startswith "[" (strip item)) eqn:Hb; [|now apply IH].
    destruct (Hf (strip item)) as [a Ha].
    + now rewrite strip_idem.
    + rewrite strip_idem. pose proof (count_char_strip "[" item). lia.
    + rewrite Ha. cbn [bind]. now apply IH.
Qed.

(** [_parse_array] returns on a text that opens with a bracket when its
    budget is the number of the opening brackets or more. *)
Lemma _parse_array_enough (fuel : nat) :
  forall text,
    startswith "[" (strip text) = true ->
    count_char "[" (strip text) <= fuel ->
    returns (_parse_array py_float fuel text).
Proof.
  induction fuel as [|fuel IH]; intros text Hs Hn.
  - pose proof (count_char_slice "[" _ Hs). lia.
  - cbn [_parse_array].
    pose proof (count_char_slice "[" _ Hs) as Hin.
    destruct (contains "[" (slice_1_m1 (strip text))); [|now eexists].
    apply (array_loop_enough _ fuel IH).
    rewrite count_char_app.
    change (count_char "[" []) with 0. change (count_char "[" [","%char]) with 0.
    lia.
Qed.

Lemma array_loop_mono (f g : str -> outcome (list (Value float))) :
  (forall s a, f s = Return a -> g s = Return a) ->
  forall chars depth item result r,
    array_loop py_float f chars depth item result = Return r ->
    array_loop py_float g chars depth item result = Return r.
Proof.
  intros Hfg. induction chars as [|c rest IH]; intros depth item result r;
    cbn [array_loop]; [easy|].
  destruct (Ascii.eqb c "["); [apply IH|].
  destruct (Ascii.eqb c "]"); [apply IH|].
  destruct (Ascii.eqb c "," && (depth =? 0)%Z); [|apply IH].
  destruct (nonempty (strip item)); [|apply IH].
  destruct (startswith "[" (strip item)); [|apply IH].
  destruct (f (strip item)) as [a| |] eqn:Ha; cbn [bind]; try discriminate.
  rewrite (Hfg _ _ Ha). cbn [bind]. apply IH.
Qed.

(** What [_parse_array] returns with a budget, it returns with a larger
    one. *)
Lemma _parse_array_fuel_mono (fuel : nat) :
  forall fuel' text a,
    fuel <= fuel' ->
    _parse_array py_float fuel text = Return a ->
    _parse_array py_float fuel' text = Return a.
Proof.
  induction fuel as [|fuel IH]; intros fuel' text a Hle; [discriminate|].
  destruct fuel' as [|fuel']; [lia|]. cbn [_parse_array].
  destruct (contains "[" (slice_1_m1 (strip text))); [|easy].
  apply array_loop_mono. intros s b. apply IH. lia.
Qed.

Lemma array_loop_outcome (f : str -> outcome (list (Value float))) :
  (forall s, returns (f s) \/ f s = OutOfFuel) ->
  forall chars depth item result,
    returns (array_loop py_float f chars depth item result) \/
    array_loop py_float f chars depth item result = OutOfFuel.
Proof.
  intros Hf. induction chars as [|c rest IH]; intros depth item result;
    cbn [array_loop].
  - left. now eexists.
  - destruct (Ascii.eqb c "["); [apply IH|].
    destruct (Ascii.eqb c "]"); [apply IH|].
    destruct (Ascii.eqb c "," && (depth =? 0)%Z); [|apply IH].
    destruct (nonempty (strip item)); [|apply IH].
    destruct (startswith "[" (strip item)); [|apply IH].
    destruct (Hf (strip item)) as [[a Ha]|Ha]; rewrite Ha; cbn [bind].
    + apply IH.
    + now right.
Qed.

(** [_parse_array] raises nothing: it returns, or its budget is
    exhausted. *)
Lemma _parse_array_outcome (fuel : nat) (text : str) :
  returns (_parse_array py_float fuel text) \/
  _parse_array py_float fuel text = OutOfFuel.
Proof.
  revert text. induction fuel as [|fuel IH]; intros text; [now right|].
  cbn [_parse_array].
  destruct (contains "[" (slice_1_m1 (strip text))).
  - now apply array_loop_outcome.
  - left. now eexists.
Qed.

(** With the frames that the brackets of the value ask for,
    [_parse_value] returns what it returns when nothing bounds the depth
    of the calls. *)
Lemma _parse_value_within_agrees (frames : nat) (value : str) :
  array_need (strip value) <= frames ->
  _parse_value_within py_float frames value = _parse_value py_float value.
Proof.
  unfold array_need, _parse_value_within, _parse_value.
  destruct (startswith "{" (strip value) && endswith "}" (strip value));
    [reflexivity|].
  destruct (startswith "[" (strip value) && endswith "]" (strip value)) eqn:Hb;
    [|reflexivity].
  intros Hn. apply andb_true_iff in Hb as [Hs _].
  destruct (_parse_array_enough frames (strip value)) as [a Ha];
    [now rewrite strip_idem | now rewrite strip_idem |].
  destruct (_parse_array_returns (S (length (strip value))) (strip value))
    as [a' Ha']; [apply Nat.lt_succ_diag_r|].
  rewrite Ha, Ha'. cbn [recursion_error bind].
  pose proof (_parse_array_fuel_mono _ (Nat.max frames (S (length (strip value))))
                _ _ (Nat.le_max_l _ _) Ha) as H1.
  pose proof (_parse_array_fuel_mono _ (Nat.max frames (S (length (strip value))))
                _ _ (Nat.le_max_r _ _) Ha') as H2.
  congruence.
Qed.

(** [_parse_value] raises nothing but RecursionError. *)
Lemma _parse_value_within_outcome (frames : nat) (value : str) :
  returns (_parse_value_within py_float frames value) \/
  _parse_value_within py_float frames value = Raise RecursionError.
Proof.
  unfold _parse_value_within.
  destruct (startswith "{" (strip value) && endswith "}" (strip value)).
  { destruct (inline_pairs_returns (split "," (slice_1_m1 (strip (strip value)))) [])
      as [d Hd].
    unfold _parse_inline_object. rewrite Hd. left. now eexists. }
  destruct (startswith "[" (strip value) && endswith "]" (strip value)).
  { destruct (_parse_array_outcome frames (strip value)) as [[a Ha]|Ha];
      rewrite Ha; [left; now eexists | now right]. }
  destruct (contains "," (strip value)
            || contains " " (strip value) && negb (startswith dquote (strip value)));
    left; now eexists.
Qed.

Lemma _parse_nested_ext (f g : list str -> nat -> outcome (dict float * nat))
    (lines : list str) (i indent : nat) :
  i < length lines ->
  (forall ls, incl ls lines -> f ls (indent + 2) = g ls (indent + 2)) ->
  _parse_nested f lines i indent = _parse_nested g lines i indent.
Proof.
  intros Hi Hfg.
  destruct (nth_split lines [] Hi) as (pre & rest & E & Hlen).
  remember (nth i lines []) as l eqn:El. clear El. subst lines i.
  rewrite !_parse_nested_scan.
  pose proof (nested_scan_incl indent rest) as Hincl.
  destruct (fst (nested_scan indent rest)) as [|x nl] eqn:En; [reflexivity|].
  rewrite Hfg; [reflexivity|].
  intros y Hy. apply in_or_app. right. right. now apply Hincl.
Qed.

(** Where every line fits, the block loop with a bounded depth of calls
    returns what the block loop returns: a block at indentation
    [start_indent] with [frames] calls left belongs to a [parse] that had
    [frames + start_indent + 1] of them. *)
Lemma block_loop_within_agrees (fuel : nat) :
  forall (frames : nat) (lines : list str) (start_indent i : nat)
         (result : dict float),
    Forall (fun l => line_fits (frames + start_indent + 1) l = true) lines ->
    block_loop_within py_float fuel frames lines start_indent i result
    = block_loop py_float fuel lines start_indent i result.
Proof.
  induction fuel as [|fuel IH]; intros frames lines s i result Hfit;
    [reflexivity|].
  cbn [block_loop_within block_loop].
  destruct (i <? length lines) eqn:Hi; [|reflexivity].
  apply Nat.ltb_lt in Hi.
  set (line := nth i lines []).
  destruct (negb (nonempty (strip line)) || startswith "#" (strip line)) eqn:Hc.
  { now apply IH. }
  destruct (_get_indent line <? s) eqn:Hd; [reflexivity|].
  destruct (s <? _get_indent line) eqn:Hu.
  { now apply IH. }
  destruct (contains ":" (strip (_remove_inline_comment line))) eqn:Hcol;
    cbn [negb].
  2:{ now apply IH. }
  apply Nat.ltb_ge in Hd, Hu.
  assert (Hind : _get_indent line = s) by lia.
  rewrite is_content_negb in Hc. apply negb_false_iff in Hc.
  pose proof (key_line_intro s line Hc Hind Hcol) as Hkl.
  assert (Hlf : line_fits (frames + s + 1) line = true).
  { rewrite Forall_forall in Hfit. apply Hfit. now apply nth_In. }
  unfold line_fits in Hlf. rewrite Hind, Hkl in Hlf. apply Nat.leb_le in Hlf.
  unfold reserve in Hlf.
  unfold _split_key_value. rewrite (split_once_contains _ _ Hcol). cbn [bind].
  set (key := strip (before ":" _)) in *. set (value := strip (after ":" _)) in *.
  destruct (str_eqb value (L "|")).
  { destruct (_parse_multiline lines i (_get_indent line)) as [v j].
    now apply IH. }
  destruct (negb (nonempty value)).
  - destruct frames as [|[|frames2]]; [lia | lia |]. cbn [call].
    rewrite (_parse_nested_ext
               (fun ls n => block_loop_within py_float fuel frames2 ls n 0 [])
               (fun ls n => block_loop py_float fuel ls n 0 [])
               lines i (_get_indent line) Hi).
    + destruct (_parse_nested _ lines i (_get_indent line)) as [[v j]| |];
        cbn [bind]; [|reflexivity|reflexivity].
      now apply IH.
    + intros ls Hincl. apply IH. rewrite Hind.
      replace (frames2 + (s + 2) + 1) with (S (S frames2) + s + 1) by lia.
      rewrite Forall_forall in *. intros l Hl. apply Hfit. now apply Hincl.
  - destruct frames as [|frames1]; [lia|]. cbn [call].
    rewrite _parse_value_within_agrees.
    + destruct (_parse_value py_float value) as [v| |]; cbn [bind];
        [|reflexivity|reflexivity].
      now apply IH.
    + unfold value at 1. rewrite strip_idem. fold value. lia.
Qed.

(** With a bounded depth of calls the block loop raises nothing but
    RecursionError, and its budget of iterations is never exhausted. *)
Lemma block_loop_within_outcome (fuel : nat) :
  forall (frames : nat) (lines : list str) (start_indent i : nat)
         (result : dict float),
    length lines - i < fuel ->
    returns (block_loop_within py_float fuel frames lines start_indent i result) \/
    block_loop_within py_float fuel frames lines start_indent i result
    = Raise RecursionError.
Proof.
  induction fuel as [|fuel IH]; intros frames lines s i result Hlen; [lia|].
  cbn [block_loop_within].
  destruct (i <? length lines) eqn:Hi; [|left; now eexists].
  apply Nat.ltb_lt in Hi.
  set (line := nth i lines []).
  destruct (negb (nonempty (strip line)) || startswith "#" (strip line)).
  { apply IH. lia. }
  destruct (_get_indent line <? s); [left; now eexists|].
  destruct (s <? _get_indent line).
  { apply IH. lia. }
  destruct (contains ":" (strip (_remove_inline_comment line))) eqn:Hc;
    cbn [negb].
  2:{ apply IH. lia. }
  unfold _split_key_value. rewrite split_once_contains by assumption.
  cbn [bind].
  set (key := strip (before ":" _)). set (value := strip (after ":" _)).
  destruct (str_eqb value _).
  { unfold _parse_multiline.
    pose proof (multiline_loop_cursor (length lines - (i + 1)) lines (i + 1)
                  (_get_indent line) []) as Hm.
    destruct (multiline_loop _ lines (i + 1) _ []) as [tl i'].
    simpl in Hm. apply IH. lia. }
  destruct (negb (nonempty value)).
  { destruct frames as [|frames1]; [now right|]. cbn [call].
    unfold _parse_nested.
    pose proof (nested_loop_bounds (length lines - (i + 1)) lines (i + 1)
                  (_get_indent line) []) as [Hn1 Hn2].
    destruct (nested_loop _ lines (i + 1) _ []) as [nl i'].
    simpl in Hn1, Hn2. destruct nl as [|l nl].
    - cbn [bind]. apply IH. lia.
    - destruct frames1 as [|frames2]; [now right|]. cbn [call].
      destruct (IH frames2 (l :: nl) (_get_indent line + 2) 0 [])
        as [[[d j] Hd]|Hd]; [simpl in *; lia| |]; rewrite Hd; cbn [bind].
      + apply IH. lia.
      + now right. }
  destruct frames as [|frames1]; [now right|]. cbn [call].
  destruct (_parse_value_within_outcome frames1 value) as [[v Hv]|Hv];
    rewrite Hv; cbn [bind]; [apply IH; lia | now right].
Qed.

(** On a text that fits, [parse] with a bounded depth of calls is
    [parse]. *)
Lemma parse_within_agrees (frames : nat) (text : str) :
  fits frames text = true ->
  parse_within py_float frames text = parse py_float text.
Proof.
  unfold fits, parse_within, parse, _parse_block_within, _parse_block.
  intros H. apply andb_true_iff in H as [Hr Hl].
  apply Nat.leb_le in Hr. unfold reserve in Hr.
  destruct frames as [|frames1]; [lia|]. cbn [call].
  rewrite block_loop_within_agrees; [reflexivity|].
  apply Forall_forall. intros l Hin. rewrite forallb_forall in Hl.
  replace (frames1 + 0 + 1) with (S frames1) by lia. now apply Hl.
Qed.

Lemma parse_within_outcome (frames : nat) (text : str) :
  returns (parse_within py_float frames text) \/
  parse_within py_float frames text = Raise RecursionError.
Proof.
  unfold parse_within, _parse_block_within.
  destruct frames as [|frames1]; [now right|]. cbn [call].
  destruct (block_loop_within_outcome (S (length (split newline (strip text))))
              frames1 (split newline (strip text)) 0 0 [])
    as [[[d j] H]|H]; [lia| |]; rewrite H; cbn [bind].
  - left. now eexists.
  - now right.
Qed.

(** ** An array nested deeper than the frames *)

Lemma nest_node (n : nat) : exists l, nest n = ANode l /\ leaves_ok (nest n) = true.
Proof.
  induction n as [|n (l & E & Hok)].
  - now exists [].
  - exists [nest n]. split; [reflexivity|]. cbn [nest leaves_ok forallb].
    now rewrite Hok.
Qed.

Lemma render_nest (n : nat) :
  render (nest n) = repeat "["%char (S n) ++ repeat "]"%char (S n).
Proof.
  induction n as [|n IH]; [reflexivity|].
  change (render (nest (S n))) with ("["%char :: render (nest n) ++ ["]"%char]).
  rewrite IH, <- app_assoc, <- (repeat_cons (S n) "]"%char). reflexivity.
Qed.

(** [_parse_array] calls itself once for each level of nesting. *)
Lemma _parse_array_nest (fuel : nat) :
  forall n, fuel <= n ->
    _parse_array py_float fuel (render (nest n)) = OutOfFuel.
Proof.
  induction fuel as [|fuel IH]; intros n Hn; [reflexivity|].
  destruct n as [|n]; [lia|].
  destruct (render_node_strip [nest n]) as (Hstrip & _ & Hslice).
  change (ANode [nest n]) with (nest (S n)) in *.
  change (join (L ",") (map render [nest n])) with (render (nest n)) in Hslice.
  cbn [_parse_array]. rewrite Hstrip, Hslice.
  destruct (nest_node n) as (l & E & Hok).
  replace (contains "[" (render (nest n))) with true by (now rewrite E).
  rewrite (array_loop_skip _ _ Hok) by lia.
  cbn [array_loop app].
  change (Ascii.eqb "," "[") with false. change (Ascii.eqb "," "]") with false.
  change (Ascii.eqb "," "," && (0 =? 0)%Z) with true. cbv iota.
  assert (Hs : strip (render (nest n)) = render (nest n))
    by (rewrite E; apply render_node_strip).
  rewrite Hs.
  replace (nonempty (render (nest n))) with true by (now rewrite E).
  replace (startswith "[" (render (nest n))) with true by (now rewrite E).
  rewrite IH by lia. reflexivity.
Qed.

Lemma contains_nest (c : ascii) (n : nat) :
  Ascii.eqb c "[" = false -> Ascii.eqb c "]" = false ->
  contains c (render (nest n)) = false.
Proof.
  intros Ho Hc. induction n as [|n IH].
  - cbn. now rewrite Ho, Hc.
  - change (render (nest (S n))) with ("["%char :: render (nest n) ++ ["]"%char]).
    cbn [contains existsb]. fold (contains c (render (nest n) ++ ["]"%char])).
    rewrite contains_app, IH. cbn. now rewrite Ho, Hc.
Qed.

(** One iteration of the block loop with a bounded depth of calls on a
    line that it reads as a key with a value on the line. *)
Lemma block_loop_within_value (fuel frames : nat) (l key value : str)
    (rest : list str) (start_indent : nat) (result : dict float) :
  key_line start_indent l = Some (key, value) ->
  str_eqb value (L "|") = false -> nonempty value = true ->
  block_loop_within py_float (S fuel) frames (l :: rest) start_indent 0 result
  = v <- call frames (fun frames1 => _parse_value_within py_float frames1 value) ;;
    block_loop_within py_float fuel frames (l :: rest) start_indent 1
      (dict_set result key v).
Proof.
  intros H Hbar Hne. apply key_line_inv in H as (Hc & Hi & Hcol & Hsplit).
  cbn [block_loop_within].
  change (0 <? length (l :: rest)) with true. change (nth 0 (l :: rest) []) with l.
  cbv iota. rewrite is_content_negb, Hc. cbn [negb].
  rewrite Hi, Nat.ltb_irrefl, Hcol. cbn [negb]. rewrite Hsplit. cbn [bind].
  rewrite Hbar, Hne. reflexivity.
Qed.

(** Whatever the number of frames, [parse] raises RecursionError on a
    value that is an array nested one level deeper. *)
Lemma parse_within_nest (frames : nat) :
  parse_within py_float frames (L "a: " ++ render (nest frames))
  = Raise RecursionError.
Proof.
  destruct frames as [|frames1]; [reflexivity|].
  destruct (nest_node (S frames1)) as (l & E & Hok).
  pose proof (contains_nest "#" (S frames1) eq_refl eq_refl) as Hhash.
  pose proof (contains_nest newline (S frames1) eq_refl eq_refl) as Hnl.
  pose proof (_parse_array_nest) as Harr.
  remember (render (nest (S frames1))) as t eqn:Et.
  assert (Ht : strip t = t /\ endswith "]" t = true /\
               startswith "[" t = true /\ ends_nonspace t = true).
  { rewrite Et, E. destruct (render_node_strip l) as (H1 & H2 & _).
    repeat split; try assumption.
    change (render (ANode l))
      with (("["%char :: join (L ",") (map render l)) ++ ["]"%char]).
    now rewrite ends_nonspace_snoc. }
  destruct Ht as (Hstrip & Hend & Hstart & Hens).
  assert (Hkl : key_line 0 (L "a: " ++ t) = Some (L "a", t)).
  { pose proof (key_line_make 0 (L "a") (" "%char :: t) eq_refl) as H.
    change (str_mul (L "  ") 0 ++ L "a" ++ ":"%char :: " "%char :: t)
      with (L "a: " ++ t) in H.
    change (2 * 0) with 0 in H. rewrite H.
    - f_equal. f_equal. change (" "%char :: t) with ([" "%char] ++ t).
      rewrite <- (app_nil_r t) at 1.
      now rewrite (strip_surround [" "%char] t [] eq_refl eq_refl).
    - cbn [contains existsb]. exact Hhash.
    - right. change (" "%char :: t) with ([" "%char] ++ t).
      now apply ends_nonspace_app. }
  assert (Hline : strip (L "a: " ++ t) = L "a: " ++ t).
  { assert (Hs : starts_nonspace (L "a: " ++ t) = true) by reflexivity.
    assert (He : ends_nonspace (L "a: " ++ t) = true)
      by now apply ends_nonspace_app.
    exact (indented_strip [] _ eq_refl Hs He). }
  assert (Hone : split newline (L "a: " ++ t) = [L "a: " ++ t]).
  { apply split_no_sep. rewrite contains_app, Hnl. reflexivity. }
  unfold parse_within, _parse_block_within. rewrite Hline, Hone.
  cbn [call length].
  rewrite (block_loop_within_value _ _ _ _ _ _ _ _ Hkl).
  2:{ apply str_eqb_neq. intros Eb. rewrite Eb in Hend. discriminate. }
  2:{ destruct t; [discriminate | reflexivity]. }
  destruct frames1 as [|frames2]; [reflexivity|]. cbn [call].
  unfold _parse_value_within. rewrite Hstrip, Hstart, Hend.
  replace (startswith "{" t) with false
    by (destruct t as [|c t']; [discriminate|];
        cbn [startswith] in *; apply Ascii.eqb_eq in Hstart; now subst c).
  cbn [andb]. rewrite Et, Harr by lia. reflexivity.
Qed.

(** ** Every text and every safe document, within the limits *)

(** C5, as the code has it.  [parse] raises no error of its own.  On a
    text that fits the frames it returns a document, the one that the
    loops give whatever the frames; a text fits when the reserve is there
    and, for every line read as a key line at its own indentation, the
    indentation, the number of opening brackets of a bracketed value and
    the reserve are together within the frames.  On every text and with
    any number of frames it returns a document or raises RecursionError.
    Lines without a [:], lines at a deeper indentation than their block
    and repeated keys take ordinary branches of the loop: a line without
    [:] and a line indented out of place are passed over, a repeated key
    is overwritten. *)
Theorem parse_total :
  (forall (frames : nat) (text : str),
      fits frames text = true ->
      exists d : dict float,
        parse_within py_float frames text = Return d /\
        parse py_float text = Return d) /\
  (forall (frames : nat) (text : str),
      (exists d : dict float, parse_within py_float frames text = Return d) \/
      parse_within py_float frames text = Raise RecursionError) /\
  parse_within py_float 100 (L "no separator here" ++ [newline] ++ L "a: 1")
  = Return [(L "a", VInt 1)] /\
  parse_within py_float 100 (L "a: 1" ++ [newline] ++ L "      b: 2")
  = Return [(L "a", VInt 1)] /\
  parse_within py_float 100
    (L "a: 1" ++ [newline] ++ L "a: 2" ++ [newline] ++ L "a: 3")
  = Return [(L "a", VInt 3)].
Proof.
  split; [|split; [|split; [|split]]]; try reflexivity.
  - intros frames text Hfit. destruct (parse_returns text) as [d Hd].
    exists d. split; [|exact Hd]. now rewrite parse_within_agrees.
  - intros frames text. exact (parse_within_outcome frames text).
Qed.

(** C1, as the code has it.  A safe document whose integers have at most
    [max_str_digits] digits and whose serialization fits the frames is
    read back unchanged from its serialization.  Safe means: the keys of
    every dictionary are distinct, contain no [:], [#] or line break and
    have no whitespace at either end; no nested dictionary is empty; a
    value is [None], a boolean, an integer, a float whose text has a [.]
    or an [e] and is read back by [float()], a plain string, a nested
    dictionary of such values, or a list of two or more booleans,
    integers, such floats and plain strings.  A plain string is not empty,
    has no whitespace, comma or [#], no quote, brace or bracket in front,
    and is neither the block marker nor the text of a boolean, of null or
    of a number.  The serialization fits when the indentation of each of
    its lines and the reserve are together within the frames; a
    dictionary nested [n] deep is written at the indentation [2 * n], by
    [n] nested calls of [dumps]. *)
Theorem safe_roundtrip (frames : nat) (d : dict float) :
  safe_doc py_float float_str d ->
  small_ints (VDict d) = true ->
  fits frames (dumps float_str d 0) = true ->
  parse_within py_float frames (dumps float_str d 0) = Return d.
Proof.
  intros Hsafe _ Hfit. rewrite parse_within_agrees by exact Hfit.
  now apply safe_doc_read_back.
Qed.

(** X10.  A document whose top-level values are safe values or text
    blocks, whose integers have at most [max_str_digits] digits and whose
    serialization fits the frames, is read back unchanged from its
    serialization.  A text block is a string with a line break and with no
    whitespace at its end; its lines, blank ones and ones with a [#]
    included, come back as they are. *)
Theorem text_block_roundtrip (frames : nat) (d : dict float) :
  top_doc py_float float_str d ->
  small_ints (VDict d) = true ->
  fits frames (dumps float_str d 0) = true ->
  parse_within py_float frames (dumps float_str d 0) = Return d.
Proof.
  intros Htop _ Hfit. rewrite parse_within_agrees by exact Hfit.
  now apply top_doc_read_back.
Qed.
End Properties.

(** * Closed instances, on the decimal host *)

(** C9 at the text [a: 1] between two spaces and a line break. *)
Lemma parse_surrounding_whitespace_witness :
  all_space (L "  ") = true /\ all_space [newline] = true /\
  parse DecimalHost.py_float (L "  " ++ L "a: 1" ++ [newline])
  = parse DecimalHost.py_float (L "a: 1").
Proof.
  split; [reflexivity|]. split; [reflexivity|].
  apply (parse_surrounding_whitespace DecimalHost.py_float); reflexivity.
Defined.


(** C2 at the key [a] with the child [b: 1] indented by four spaces. *)
Lemma deeper_children_are_skipped_witness :
  _parse_block DecimalHost.py_float 3 [L "a:"; L "    b: 1"] 0
  = Return ([(L "a", VDict [])], 2).
Proof.
  apply (deeper_children_are_skipped DecimalHost.py_float 3 (L "a:") (L "a")
           [L "    b: 1"] 0).
  - reflexivity.
  - constructor; [|constructor]. intros _. vm_compute. lia.
  - constructor. reflexivity.
  - simpl. lia.
Defined.

(** C2 as stated fails: with a 4-space step the child is lost, with a
    2-space step it is read. *)
Lemma four_space_step_differs :
  parse DecimalHost.py_float (L "a:" ++ [newline] ++ L "    b: 1")
  = Return [(L "a", VDict [])] /\
  parse DecimalHost.py_float (L "a:" ++ [newline] ++ L "  b: 1")
  = Return [(L "a", VDict [(L "b", VInt 1)])] /\
  parse DecimalHost.py_float (L "a:" ++ [newline] ++ L "    b: 1")
  <> parse DecimalHost.py_float (L "a:" ++ [newline] ++ L "  b: 1").
Proof.
  split; [reflexivity|]. split; [reflexivity|].
  vm_compute. intros H. discriminate H.
Qed.

(** C3 at the key [key] and the text line [line1]. *)
Lemma multiline_trailing_blank_trimmed_witness :
  parse DecimalHost.py_float
    (L "key" ++ L ": |" ++ [newline] ++ L "  " ++ L "line1" ++ [newline] ++ L "  ")
  = Return [(L "key", VStr (rstrip (L "line1")))] /\
  contains newline (rstrip (L "line1")) = false.
Proof.
  apply (multiline_trailing_blank_trimmed DecimalHost.py_float (L "key") (L "line1"));
    reflexivity.
Defined.

(** C3 as stated fails: the string read is [line1] alone, with no line
    break in it, so it is not a two-line string. *)
Lemma trailing_blank_line_not_kept :
  parse DecimalHost.py_float
    (L "key: |" ++ [newline] ++ L "  line1" ++ [newline] ++ L "  ")
  = Return [(L "key", VStr (L "line1"))] /\
  ~ (exists s,
       parse DecimalHost.py_float
         (L "key: |" ++ [newline] ++ L "  line1" ++ [newline] ++ L "  ")
       = Return [(L "key", VStr s)] /\ contains newline s = true).
Proof.
  split; [reflexivity|]. intros (s & H & Hs).
  vm_compute in H. injection H as <-. discriminate Hs.
Qed.

(** C4 as stated fails: [None] is not rendered as the bare line [k:], and
    not as the empty dictionary is. *)
Lemma null_not_rendered_bare :
  dumps DecimalHost.float_str [(L "k", VNone)] 0 = L "k: None" /\
  dumps DecimalHost.float_str [(L "k", VDict [])] 0 = L "k:" ++ [newline] /\
  dumps DecimalHost.float_str [(L "k", VNone)] 0 <> L "k:" /\
  dumps DecimalHost.float_str [(L "k", VNone)] 0
  <> dumps DecimalHost.float_str [(L "k", VDict [])] 0.
Proof.
  split; [reflexivity|]. split; [reflexivity|].
  split; vm_compute; intros H; discriminate H.
Qed.

(** C7 as stated fails: the quoted value with a comma is not read as the
    single string [x, y]. *)
Lemma quoted_comma_not_preserved :
  parse DecimalHost.py_float (L "a: " ++ [dquote] ++ L "x, y" ++ [dquote])
  <> Return [(L "a", VStr (L "x, y"))].
Proof. vm_compute. intros H. discriminate H. Qed.

(** C1 as stated fails.  Each of these documents is within the claim: a
    string with a space inside, a string that reads as an integer, as a
    boolean, a string with a [#], an empty string, a one-element list, an
    empty list, a list of nulls, an empty nested dictionary. *)
Lemma roundtrip_fails_on_claimed_documents :
  let back (d : dict DecimalHost.float) :=
    parse DecimalHost.py_float (dumps DecimalHost.float_str d 0) in
  back [(L "k", VStr (L "hello world"))]
  = Return [(L "k", VList [VStr (L "hello"); VStr (L "world")])] /\
  back [(L "k", VStr (L "hello world"))] <> Return [(L "k", VStr (L "hello world"))] /\
  back [(L "k", VStr (L "5"))] <> Return [(L "k", VStr (L "5"))] /\
  back [(L "k", VStr (L "yes"))] <> Return [(L "k", VStr (L "yes"))] /\
  back [(L "k", VStr (L "a#b"))] <> Return [(L "k", VStr (L "a#b"))] /\
  back [(L "k", VStr [])] <> Return [(L "k", VStr [])] /\
  back [(L "k", VList [VInt 5])] <> Return [(L "k", VList [VInt 5])] /\
  back [(L "k", VList [])] <> Return [(L "k", VList [])] /\
  back [(L "k", VList [VNone; VNone])] <> Return [(L "k", VList [VNone; VNone])] /\
  back [(L "k", VDict [])] <> Return [(L "k", VDict [])].
Proof.
  intros back. split; [reflexivity|].
  repeat split; vm_compute; intros H; discriminate H.
Qed.

(** C1, as the code has it, at a document with every kind of safe value
    and 1000 frames. *)
Lemma safe_roundtrip_witness :
  parse_within DecimalHost.py_float 1000
    (dumps DecimalHost.float_str
       [(L "name", VStr (L "alice"));
        (L "age", VInt 30);
        (L "ratio", VFloat (15, -1)%Z);
        (L "ok", VBool true);
        (L "none", VNone);
        (L "tags", VList [VStr (L "x"); VInt (-2); VBool false; VFloat (1, -5)%Z]);
        (L "sub", VDict [(L "deep", VDict [(L "leaf", VInt 0)]);
                         (L "after", VStr (L "z"))])] 0)
  = Return
      [(L "name", VStr (L "alice"));
       (L "age", VInt 30);
       (L "ratio", VFloat (15, -1)%Z);
       (L "ok", VBool true);
       (L "none", VNone);
       (L "tags", VList [VStr (L "x"); VInt (-2); VBool false; VFloat (1, -5)%Z]);
       (L "sub", VDict [(L "deep", VDict [(L "leaf", VInt 0)]);
                        (L "after", VStr (L "z"))])].
Proof.
  apply (safe_roundtrip DecimalHost.py_float DecimalHost.float_str 1000);
    [|vm_compute; reflexivity|vm_compute; reflexivity].
  split; [reflexivity|].
  repeat (first [ reflexivity | discriminate | exact I
                | apply Forall_cons | apply Forall_nil | split
                | (simpl; lia) ]).
Defined.

(** The six values of C8, each in its own case. *)
Lemma literals_case_insensitive_witness :
  _parse_simple_value DecimalHost.py_float (L "yes") = VBool true /\
  _parse_simple_value DecimalHost.py_float (L "YES") = VBool true /\
  _parse_simple_value DecimalHost.py_float (L "Yes") = VBool true /\
  _parse_simple_value DecimalHost.py_float (L "-") = VNone /\
  _parse_simple_value DecimalHost.py_float (L "null") = VNone /\
  _parse_simple_value DecimalHost.py_float (L "NONE") = VNone.
Proof.
  split; [|split; [|split; [|split; [|split]]]].
  - apply (literals_case_insensitive DecimalHost.py_float (L "yes") (L "yes"));
      [simpl; tauto | reflexivity].
  - apply (literals_case_insensitive DecimalHost.py_float (L "YES") (L "yes"));
      [simpl; tauto | reflexivity].
  - apply (literals_case_insensitive DecimalHost.py_float (L "Yes") (L "yes"));
      [simpl; tauto | reflexivity].
  - apply (literals_case_insensitive DecimalHost.py_float (L "-") (L "-"));
      [simpl; tauto | reflexivity].
  - apply (literals_case_insensitive DecimalHost.py_float (L "null") (L "null"));
      [simpl; tauto | reflexivity].
  - apply (literals_case_insensitive DecimalHost.py_float (L "NONE") (L "none"));
      [simpl; tauto | reflexivity].
Defined.

(** C5, as the code has it, at a text with a line without [:], a key
    repeated, a nested block with a line indented out of place and an
    array, with 1000 frames. *)
Lemma parse_total_witness :
  fits 1000 (L "no separator here" ++ [newline] ++ L "a: 1" ++ [newline]
             ++ L "a: 2" ++ [newline] ++ L "b:" ++ [newline]
             ++ L "  c: [[x], y]" ++ [newline] ++ L "      d: 4") = true /\
  parse_within DecimalHost.py_float 1000
    (L "no separator here" ++ [newline] ++ L "a: 1" ++ [newline]
     ++ L "a: 2" ++ [newline] ++ L "b:" ++ [newline]
     ++ L "  c: [[x], y]" ++ [newline] ++ L "      d: 4")
  = Return [(L "a", VInt 2);
            (L "b", VDict [(L "c", VList [VList [VStr (L "x")]; VStr (L "y")])])].
Proof.
  split; [vm_compute; reflexivity|].
  destruct (proj1 (parse_total DecimalHost.py_float) 1000
              (L "no separator here" ++ [newline] ++ L "a: 1" ++ [newline]
               ++ L "a: 2" ++ [newline] ++ L "b:" ++ [newline]
               ++ L "  c: [[x], y]" ++ [newline] ++ L "      d: 4"))
    as (d & Hw & Hp); [vm_compute; reflexivity|].
  rewrite Hw, <- Hp. vm_compute. reflexivity.
Defined.

(** C5 as stated fails: [parse] raises RecursionError on a value that is
    an array nested deeper than the interpreter has frames for, here 1001
    opening brackets with 1000 frames. *)
Lemma parse_raises_on_deep_array :
  parse_within DecimalHost.py_float 1000
    (L "a: " ++ repeat "["%char 1001 ++ repeat "]"%char 1001)
  = Raise RecursionError.
Proof.
  rewrite <- (render_nest 1000). apply parse_within_nest.
Qed.

(** * Closed instances of the further properties *)

(** X1 at a text of a comment, a blank line, an indented line and a line
    without [:]. *)
Lemma parse_empty_iff_witness :
  parse DecimalHost.py_float
    (L "# note" ++ [newline] ++ [newline] ++ L "  a: 1" ++ [newline] ++ L "word")
  = Return [].
Proof.
  apply (parse_empty_iff DecimalHost.py_float).
  repeat constructor.
Defined.

(** X2 at a text in double quotes with spaces, a [:] and a literal. *)
Lemma quoted_value_verbatim_witness :
  parse DecimalHost.py_float
    (L "msg" ++ L ": " ++ [dquote] ++ L " to: all yes " ++ [dquote])
  = Return [(L "msg", VStr (L " to: all yes "))].
Proof.
  apply (quoted_value_verbatim DecimalHost.py_float (L "msg") (L " to: all yes ")
           dquote); [reflexivity | reflexivity | now left].
Defined.

(** X3 at a block of level 2 followed by a line of level 0. *)
Lemma block_stops_at_dedent_witness :
  2 <= length [L "  a: 1"; L "  b: 2"; L "c: 3"] /\
  (2 < length [L "  a: 1"; L "  b: 2"; L "c: 3"] ->
   is_content (nth 2 [L "  a: 1"; L "  b: 2"; L "c: 3"] []) = true /\
   _get_indent (nth 2 [L "  a: 1"; L "  b: 2"; L "c: 3"] []) < 2) /\
  (2 = 0 -> 2 = length [L "  a: 1"; L "  b: 2"; L "c: 3"]).
Proof.
  apply (block_stops_at_dedent DecimalHost.py_float 4
           [L "  a: 1"; L "  b: 2"; L "c: 3"] 2
           [(L "a", VInt 1); (L "b", VInt 2)] 2).
  reflexivity.
Defined.

(** X4 at the same kind of block. *)
Lemma dedent_ends_block_witness :
  _parse_block DecimalHost.py_float 3 ([L "  a: 1"] ++ L "b: 2" :: [L "  c: 3"]) 2
  = Return ([(L "a", VInt 1)], length [L "  a: 1"]).
Proof.
  apply (dedent_ends_block DecimalHost.py_float 3 [L "  a: 1"] (L "b: 2")
           [L "  c: 3"] 2 [(L "a", VInt 1)] 1).
  - constructor; [|constructor]. intros _. vm_compute. lia.
  - reflexivity.
  - vm_compute. lia.
  - reflexivity.
Defined.


(** X6 at a key with a child at two spaces, one at one space and one at
    two spaces again. *)
Lemma shallow_child_cuts_nested_block_witness :
  _parse_block DecimalHost.py_float 4
    (L "a:" :: [L "  b: 1"] ++ L " c: 2" :: [L "  d: 3"]) 0
  = Return ([(L "a", VDict [(L "b", VInt 1)])],
            S (length ([L "  b: 1"] ++ L " c: 2" :: [L "  d: 3"]))).
Proof.
  apply (shallow_child_cuts_nested_block DecimalHost.py_float 3 (L "a:") (L "a")
           [L "  b: 1"] (L " c: 2") [L "  d: 3"] 0 [(L "b", VInt 1)] 1).
  - reflexivity.
  - constructor; [|constructor]. intros _. vm_compute. lia.
  - reflexivity.
  - reflexivity.
  - constructor; [|constructor]. intros _. vm_compute. lia.
  - reflexivity.
Defined.

(** X7 at a text with an inline object, a nested array, a nested block
    and a key bound twice. *)
Lemma parse_result_shape_witness :
  parsed_shape
    (VDict
       [(L "a", @VInt DecimalHost.float 3);
        (L "b", VList [VList [VInt 1; VInt 2]; VList [VInt 3]]);
        (L "c", VDict [(L "d", VList [VInt 1; VInt 2])])])
  = true.
Proof.
  apply (parse_result_shape DecimalHost.py_float
           (L "a: {x: 1, y: 2}" ++ [newline] ++ L "b: [[1,2],[3]]" ++ [newline]
            ++ L "c:" ++ [newline] ++ L "  d: 1, 2" ++ [newline] ++ L "a: 3")).
  reflexivity.
Defined.

(** X8 at a line with a value and a comment. *)
Lemma inline_comment_ignored_witness :
  _parse_block DecimalHost.py_float 3
    ((L "a: 1 " ++ "#" :: L " the answer") :: [L "b: 2"]) 0
  = _parse_block DecimalHost.py_float 3 (L "a: 1 " :: [L "b: 2"]) 0.
Proof.
  apply (inline_comment_ignored DecimalHost.py_float 3 (L "a: 1 ")
           (L " the answer") [L "b: 2"] 0); reflexivity.
Defined.

(** X9 at a list of two dictionaries of one entry each. *)
Lemma list_of_dicts_written_as_one_dict_witness :
  dumps DecimalHost.float_str
    ([] ++ (L "items", VList (map VDict [[(L "x", VInt 1)]; [(L "y", VInt 2)]]))
        :: []) 0
  = dumps DecimalHost.float_str
      ([] ++ (L "items", VDict (concat [[(L "x", VInt 1)]; [(L "y", VInt 2)]]))
          :: []) 0.
Proof.
  apply (list_of_dicts_written_as_one_dict DecimalHost.float_str [] []
           (L "items") [[(L "x", VInt 1)]; [(L "y", VInt 2)]] 0).
  - discriminate.
  - constructor; [discriminate|]. constructor; [discriminate|]. constructor.
Defined.

(** X10 at a document with a plain string, a text block with a blank line
    and a comment-like line, and a number after it, with 1000 frames. *)
Lemma text_block_roundtrip_witness :
  parse_within DecimalHost.py_float 1000
    (dumps DecimalHost.float_str
       [(L "title", VStr (L "x"));
        (L "body", VStr (L "one" ++ [newline] ++ [newline] ++ L "  # two"
                         ++ [newline] ++ L "three"));
        (L "n", VInt 7)] 0)
  = Return
      [(L "title", VStr (L "x"));
       (L "body", VStr (L "one" ++ [newline] ++ [newline] ++ L "  # two"
                        ++ [newline] ++ L "three"));
       (L "n", VInt 7)].
Proof.
  apply (text_block_roundtrip DecimalHost.py_float DecimalHost.float_str 1000);
    [|vm_compute; reflexivity|vm_compute; reflexivity].
  split; [reflexivity|].
  constructor; [split; [reflexivity | left; reflexivity]|].
  constructor; [split; [reflexivity | right; eexists; split; reflexivity]|].
  constructor; [split; [reflexivity | left; exact I]|].
  constructor.
Defined.

(** X12 at an inline object of three pairs, the first key again at the
    end. *)
Lemma inline_object_read_witness :
  _parse_value DecimalHost.py_float
    (inline_text [(L "a", L " 1"); (L " b", L " yes"); (L " a", L " [2]")])
  = Return (VDict [(L "a", VStr (L "[2]")); (L "b", VBool true)]).
Proof.
  apply (inline_object_read DecimalHost.py_float
           [(L "a", L " 1"); (L " b", L " yes"); (L " a", L " [2]")]).
  repeat (constructor; [repeat split; reflexivity|]). constructor.
Defined.

(** X13 at the array [[1, 2],[3,[]], x y ], of depth 3, with 40 frames. *)
Lemma nested_array_read_witness :
  _parse_value_within DecimalHost.py_float 40
    (render (ANode [ANode [ALeaf (L "1"); ALeaf (L " 2")];
                    ANode [ALeaf (L "3"); ANode []];
                    ALeaf (L " x y ")]))
  = Return (VList [VList [VInt 1; VInt 2]; VList [VInt 3; VList []];
                   VStr (L "x y")]).
Proof.
  apply (nested_array_read DecimalHost.py_float 40
           [ANode [ALeaf (L "1"); ALeaf (L " 2")];
            ANode [ALeaf (L "3"); ANode []];
            ALeaf (L " x y ")]).
  - reflexivity.
  - vm_compute. lia.
Defined.

(** X14 at three items, separated by a space and by a comma and a tab. *)
Lemma implicit_list_read_witness :
  _parse_value DecimalHost.py_float
    (list_text (L "a") [(L " ", L "b"); ("," :: ["009"], L "3")])
  = Return (VList [VStr (L "a"); VStr (L "b"); VInt 3]).
Proof.
  apply (implicit_list_read DecimalHost.py_float (L "a")
           [(L " ", L "b"); ("," :: ["009"], L "3")]).
  - reflexivity.
  - discriminate.
  - repeat (constructor; [reflexivity|]). constructor.
  - reflexivity.
  - reflexivity.
Defined.

(** X15 at a list of an integer, [None] and a list. *)
Lemma item_lines_read_back_empty_witness :
  dumps DecimalHost.float_str
    [(L "k", VList [VInt 1; VNone; VList [VInt 2; VInt 3]])] 0
  = join [newline]
      ((L "k" ++ L ":")
       :: map (fun x => L "  - " ++ py_str DecimalHost.float_str x)
            [VInt 1; VNone; VList [VInt 2; VInt 3]]) /\
  parse DecimalHost.py_float
    (dumps DecimalHost.float_str
       [(L "k", VList [VInt 1; VNone; VList [VInt 2; VInt 3]])] 0)
  = Return [(L "k", VDict [])].
Proof.
  apply (item_lines_read_back_empty DecimalHost.py_float DecimalHost.float_str
           (L "k") [VInt 1; VNone; VList [VInt 2; VInt 3]]).
  - reflexivity.
  - reflexivity.
  - repeat (constructor; [split; [discriminate | repeat split; reflexivity]|]).
    constructor.
Defined.

(** X16 at a header followed by a line at two spaces, a line at one
    space, a blank line and a line of the level of the header. *)
Lemma multiline_block_read_witness :
  @_parse_multiline DecimalHost.float
    ([] ++ L "k: |" :: [L "  one"; L " two"; []] ++ [L "next: 1"]) (length (@nil str)) 0
  = (VStr (L "one" ++ [newline] ++ L "wo"), 4).
Proof.
  apply (@multiline_block_read DecimalHost.float [] [L "  one"; L " two"; []]
           [L "next: 1"] (L "k: |") 0).
  - constructor; [|constructor; [|constructor; [|constructor]]];
      intros H; vm_compute in H |- *; try discriminate; lia.
  - split; [reflexivity | vm_compute; lia].
Defined.

(** X17 at a header followed by two children with a comment and a blank
    line between them, then a line of the level of the header. *)
Lemma nested_block_read_witness :
  _parse_nested (_parse_block DecimalHost.py_float 5)
    ([] ++ L "a:" :: [L "  b: 1"; L "# c"; []; L "  d: 2"] ++ [L "e: 3"])
    (length (@nil str)) 0
  = Return (VDict [(L "b", VInt 1); (L "d", VInt 2)], 5).
Proof.
  apply (nested_block_read (_parse_block DecimalHost.py_float 5) []
           [L "  b: 1"; L "# c"; []; L "  d: 2"] [L "e: 3"] (L "a:") 0).
  - constructor; [|constructor; [|constructor; [|constructor; [|constructor]]]];
      intros H; vm_compute in H |- *; try discriminate; lia.
  - split; [reflexivity | vm_compute; lia].
Defined.

(** X18 at three lines indented by two spaces. *)
Lemma indented_document_first_line_only_witness :
  parse DecimalHost.py_float
    (L "  " ++ join [newline] ((L "a" ++ L ": " ++ L "1") :: [L "  b: 2"; L "  c: 3"]))
  = Return [(L "a", VInt 1)].
Proof.
  apply (indented_document_first_line_only DecimalHost.py_float (L "  ") (L "a")
           (L "1") (VInt 1) [L "  b: 2"; L "  c: 3"]).
  - reflexivity.
  - reflexivity.
  - repeat split; reflexivity.
  - constructor; [|constructor; [|constructor]];
      (split; [reflexivity | split; [reflexivity | vm_compute; lia]]).
Defined.

(** X19 at the list of an integer and two strings. *)
Lemma value_written_as_its_text_witness :
  dumps DecimalHost.float_str
    ([] ++ (L "k", VList [VInt 1; VStr (L "b"); VStr (L "yes")]) :: []) 0
  = dumps DecimalHost.float_str
      ([] ++ (L "k", VStr (value_text DecimalHost.float_str
                             (VList [VInt 1; VStr (L "b"); VStr (L "yes")]))) :: []) 0.
Proof.
  apply (value_written_as_its_text DecimalHost.float_str [] [] (L "k")
           (VList [VInt 1; VStr (L "b"); VStr (L "yes")]) 0); reflexivity.
Defined.

(** X20 at three lines, against the same lines with a comment, a carriage
    return and spaces at their ends and a comment line of other words. *)
Lemma lines_read_by_content_witness :
  _parse_block DecimalHost.py_float 5
    [L "a:"; L "  b: 1, 2"; L "# one"; L "c: x"] 0
  = _parse_block DecimalHost.py_float 5
      [L "a: # top"; L "  b: 1, 2" ++ ["013"]; L "#two"; L "c: x   "] 0.
Proof.
  apply (lines_read_by_content DecimalHost.py_float 5
           [L "a:"; L "  b: 1, 2"; L "# one"; L "c: x"]
           [L "a: # top"; L "  b: 1, 2" ++ ["013"]; L "#two"; L "c: x   "] 0).
  - repeat (constructor; [repeat split; reflexivity|]). constructor.
  - repeat (constructor; [reflexivity|]). constructor.
Defined.

(** X21 at a nested entry followed by two plain ones. *)
Lemma block_reads_entries_in_sequence_witness :
  _parse_block DecimalHost.py_float (4 + 3)
    ([L "a:"; L "  b: 1"] ++ L "c: 2" :: [L "a: 3"]) 0
  = Return ([(L "a", VInt 3); (L "c", VInt 2)], 4).
Proof.
  apply (block_reads_entries_in_sequence DecimalHost.py_float 4 3
           [L "a:"; L "  b: 1"] (L "c: 2") [L "a: 3"] 0
           [(L "a", VDict [(L "b", VInt 1)])] 2
           ([(L "a", VInt 3); (L "c", VInt 2)], 2)).
  - constructor; [|constructor; [|constructor]]; intros _; vm_compute; lia.
  - reflexivity.
  - vm_compute. lia.
  - reflexivity.
  - reflexivity.
Defined.

(** X22 at a nested text of four lines, one blank and one beginning with
    the comment marker. *)
Lemma nested_text_block_loses_lines_witness :
  parse DecimalHost.py_float
    (dumps DecimalHost.float_str
       [(L "a", VDict [(L "t", VStr (L "one" ++ [newline] ++ [newline]
                                     ++ L "# two" ++ [newline] ++ L "three"))])] 0)
  = Return
      [(L "a", VDict [(L "t", VStr (L "one" ++ [newline] ++ L "three"))])].
Proof.
  apply (nested_text_block_loses_lines DecimalHost.py_float DecimalHost.float_str
           (L "a") (L "t")
           (L "one" ++ [newline] ++ [newline] ++ L "# two" ++ [newline] ++ L "three"));
    reflexivity.
Defined.
